(** * ContextStitch: a shallow embedding of [contextstitch/stitcher.py]

    The development follows the Python module top-down:

    - [Py]: the slice of the Python runtime the module relies on
      (exceptions, [str] methods, IEEE binary64 arithmetic, [int()] and
      [float()] on text, [fnmatch]);
    - [parse_size], the file-system model with the [pathlib] and [os]
      calls used, [is_probably_binary], [guess_lang_from_suffix];
    - the stitcher: [_build_pathspec], [_should_skip], [_iter_files]
      over [os.walk], [_render_tree], [_read_text] and [build];
    - [main] of [contextstitch/cli.py], from the parsed arguments on;
    - proofs: the two traversals, the document, the ignore patterns, the
      binary detector and the size parser.

    Conventions.  The runtime is CPython 3.11.  Text is a [string], a
    sequence of bytes: the UTF-8 image of the Python [str]; the [str]
    methods and the numeric parsers are embedded for ASCII text.  Host
    paths are POSIX ([os.sep] is a slash).  The file system is a tree
    that does not change during a run; following a link leads to a
    subtree, to nowhere when the link dangles, to itself when links
    loop, or to something that cannot be looked at.  A Python function
    that raises returns an [exc]; a [try] block is the [exc] of its body
    matched by the handler.  What the host provides (the [pathspec]
    package, the codecs, the clock, the writes of the command line) is
    a variable of the sections [Stitcher] and [Cli]. *)

From Stdlib Require Import ZArith List String Ascii Bool Lia Permutation.
From Stdlib.Strings Require Import Byte.
From Stdlib Require Import DecimalString.
From Stdlib Require Import Sorted Btauto.
Import ListNotations.

Set Implicit Arguments.

Local Open Scope list_scope.
Local Open Scope string_scope.
Local Open Scope Z_scope.

(* ================================================================== *)
(** * Python runtime                                                   *)
(* ================================================================== *)

Module Py.

(** ** Exceptions *)

(** The exception classes that can arise in the modelled code.  A
    [ValueError] carries the fixed part of its message and the value
    interpolated into it. *)
Inductive exn : Type :=
| OSError
| LookupError
| IndexError
| OverflowError
| ZeroDivisionError
| ValueError (what : string) (arg : string)
| RuntimeError.

Inductive exc (A : Type) : Type :=
| Ok (a : A)
| Raise (e : exn).

Arguments Ok {A} a.
Arguments Raise {A} e.

Definition bind {A B : Type} (m : exc A) (k : A -> exc B) : exc B :=
  match m with
  | Ok a => k a
  | Raise e => Raise e
  end.

(** [try: body except Exception: handler] *)
Definition try_except {A : Type} (body : exc A) (handler : exn -> exc A) : exc A :=
  match body with
  | Ok a => Ok a
  | Raise e => handler e
  end.

Module Notations.
Notation "x <- m ;; k" := (bind m (fun x => k))
  (at level 61, m at next level, right associativity).
End Notations.
Import Notations.

(** ** Characters and [str] methods *)

Definition code (c : ascii) : Z := Z.of_N (N_of_ascii c).

Definition chr (n : Z) : ascii := ascii_of_N (Z.to_N n).

Definition chars (s : string) : list ascii := list_ascii_of_string s.
Definition str (l : list ascii) : string := string_of_list_ascii l.

(** Text of ASCII characters only, on which the [str] methods and the
    numeric parsers below are those of Python. *)
Definition ascii_text (s : string) : bool :=
  forallb (fun c => code c <? 128) (chars s).

(** [str.isspace] on one ASCII character: TAB, LF, VT, FF, CR, the four
    separators FS GS RS US, and SPACE. *)
Definition isspace (c : ascii) : bool :=
  let n := code c in
  ((9 <=? n) && (n <=? 13)) || ((28 <=? n) && (n <=? 32)).

(** C's [isspace] in the "C" locale ([Py_ISSPACE]), used by the numeric
    parsers. *)
Definition c_isspace (c : ascii) : bool :=
  let n := code c in
  ((9 <=? n) && (n <=? 13)) || (n =? 32).

Definition isdigit (c : ascii) : bool :=
  let n := code c in (48 <=? n) && (n <=? 57).

Fixpoint dropwhile (f : ascii -> bool) (l : list ascii) : list ascii :=
  match l with
  | [] => []
  | c :: t => if f c then dropwhile f t else l
  end.

Definition strip_with (f : ascii -> bool) (s : string) : string :=
  str (rev (dropwhile f (rev (dropwhile f (chars s))))).

(** [s.rstrip(...)], the characters to remove given as a predicate *)
Definition rstrip_with (f : ascii -> bool) (s : string) : string :=
  str (rev (dropwhile f (rev (chars s)))).

(** [s.strip()] on ASCII text; white space beyond ASCII, which
    [str.strip] removes as well, is left in place. *)
Definition strip (s : string) : string := strip_with isspace s.

Definition lower_char (c : ascii) : ascii :=
  let n := code c in
  if (65 <=? n) && (n <=? 90) then chr (n + 32) else c.

(** [s.lower()] on ASCII text; letters beyond [A]-[Z], some of which
    [str.lower] changes, are left as they are. *)
Fixpoint lower (s : string) : string :=
  match s with
  | EmptyString => EmptyString
  | String c t => String (lower_char c) (lower t)
  end.

(** [s.startswith(p)] *)
Fixpoint startswith (s p : string) : bool :=
  match p, s with
  | EmptyString, _ => true
  | String _ _, EmptyString => false
  | String a p', String b s' => Ascii.eqb a b && startswith s' p'
  end.

(** [s.endswith(p)] *)
Definition endswith (s p : string) : bool :=
  startswith (str (rev (chars s))) (str (rev (chars p))).

(** [p in s] for strings *)
Fixpoint contains (s p : string) : bool :=
  startswith s p ||
  match s with
  | EmptyString => false
  | String _ s' => contains s' p
  end.

(** [s.split(sep)] for a one-character separator *)
Fixpoint split_on (sep : ascii) (s : string) : list string :=
  match s with
  | EmptyString => [EmptyString]
  | String c t =>
      if Ascii.eqb c sep then EmptyString :: split_on sep t
      else match split_on sep t with
           | [] => [String c EmptyString]
           | w :: ws => String c w :: ws
           end
  end.

(** [s[-1]] (raises [IndexError] on the empty string) and [s[:-1]] *)
Definition last_char (s : string) : exc ascii :=
  match rev (chars s) with
  | [] => Raise IndexError
  | c :: _ => Ok c
  end.

Definition but_last (s : string) : string := str (removelast (chars s)).

(** ** IEEE 754 binary64

    A finite double is kept as sign, integer significand and binary
    exponent: [Fin s m e] stands for (-1)^s * m * 2^e.  Rounding is to
    nearest, ties to even, as CPython's conversions and the hardware
    multiplication do it. *)

Inductive float : Type :=
| Fin (s : bool) (m e : Z)
| Inf (s : bool)
| NaN.

(** Nearest integer to [p/q] ([q > 0], [p >= 0]), ties to even. *)
Definition rne (p q : Z) : Z :=
  let d := p / q in
  let r := p mod q in
  match Z.compare (2 * r) q with
  | Lt => d
  | Gt => d + 1
  | Eq => if Z.even d then d else d + 1
  end.

(** floor (log2 (p/q)) for [p, q > 0]. *)
Definition floor_log2_ratio (p q : Z) : Z :=
  let g := Z.log2 p - Z.log2 q in
  if p * 2 ^ Z.max 0 (- g) <? q * 2 ^ Z.max 0 g then g - 1 else g.

(** The double nearest to (-1)^s * p/q, for [p >= 0] and [q > 0].
    The exponent of the unit in the last place is at least -1074
    (subnormals); a rounded value of 2^1024 or more is an infinity. *)
Definition round_ratio (s : bool) (p q : Z) : float :=
  if p =? 0 then Fin s 0 0
  else
    let e := Z.max (floor_log2_ratio p q - 52) (-1074) in
    let m := rne (p * 2 ^ Z.max 0 (- e)) (q * 2 ^ Z.max 0 e) in
    let e' := if m =? 2 ^ 53 then e + 1 else e in
    let m' := if m =? 2 ^ 53 then 2 ^ 52 else m in
    if 971 <? e' then Inf s else Fin s m' e'.

(** [float(n)] for an [int] of a magnitude that converts. *)
Definition of_int (n : Z) : float := round_ratio (n <? 0) (Z.abs n) 1.

(** [x * y] on doubles *)
Definition fmul (x y : float) : float :=
  match x, y with
  | NaN, _ | _, NaN => NaN
  | Inf s1, Inf s2 => Inf (xorb s1 s2)
  | Inf s1, Fin s2 m _ | Fin s2 m _, Inf s1 =>
      if m =? 0 then NaN else Inf (xorb s1 s2)
  | Fin s1 m1 e1, Fin s2 m2 e2 =>
      let e := e1 + e2 in
      round_ratio (xorb s1 s2) (m1 * m2 * 2 ^ Z.max 0 e) (2 ^ Z.max 0 (- e))
  end.

(** [a / b] on [int]s: the correctly rounded quotient. *)
Definition truediv (a b : Z) : exc float :=
  if b =? 0 then Raise ZeroDivisionError
  else
    match round_ratio (xorb (a <? 0) (b <? 0)) (Z.abs a) (Z.abs b) with
    | Inf _ => Raise OverflowError
    | r => Ok r
    end.

(** [x > y] on doubles *)
Definition fgt (x y : float) : bool :=
  match x, y with
  | NaN, _ | _, NaN => false
  | Inf s1, Inf s2 => negb s1 && s2
  | Inf s1, Fin _ _ _ => negb s1
  | Fin _ _ _, Inf s2 => s2
  | Fin s1 m1 e1, Fin s2 m2 e2 =>
      let v1 := (if s1 then - m1 else m1) * 2 ^ Z.max 0 (e1 - e2) in
      let v2 := (if s2 then - m2 else m2) * 2 ^ Z.max 0 (e2 - e1) in
      v2 <? v1
  end.

(** [int(x)] on a double: truncation towards zero. *)
Definition int_of_float (x : float) : exc Z :=
  match x with
  | NaN => Raise (ValueError "cannot convert float NaN to integer" "")
  | Inf _ => Raise OverflowError
  | Fin s m e =>
      let a := if 0 <=? e then m * 2 ^ e else m / 2 ^ (- e) in
      Ok (if s then - a else a)
  end.

(** ** [int(s)] and [float(s)] on text *)

Definition digit_value (c : ascii) : Z := code c - 48.

Definition digits_value (l : list ascii) : Z :=
  fold_left (fun acc c => 10 * acc + digit_value c) l 0.

Definition is_underscore (c : ascii) : bool := Ascii.eqb c "_".

Definition prev_is (prev : option ascii) (f : ascii -> bool) : bool :=
  match prev with
  | Some p => f p
  | None => false
  end.

(** Underscores may only stand between two digits; the result is the
    text without them. *)
Fixpoint drop_underscores (prev : option ascii) (l : list ascii)
  : option (list ascii) :=
  match l with
  | [] => if prev_is prev is_underscore then None else Some []
  | c :: t =>
      if is_underscore c then
        if prev_is prev isdigit then drop_underscores (Some c) t else None
      else if prev_is prev is_underscore && negb (isdigit c) then None
      else option_map (cons c) (drop_underscores (Some c) t)
  end.

(** An optional sign, then the rest. *)
Definition split_sign (l : list ascii) : bool * list ascii :=
  match l with
  | c :: t =>
      if Ascii.eqb c "-" then (true, t)
      else if Ascii.eqb c "+" then (false, t)
      else (false, l)
  | [] => (false, [])
  end.

Fixpoint span_digits (l : list ascii) : list ascii * list ascii :=
  match l with
  | c :: t =>
      if isdigit c then let (d, r) := span_digits t in (c :: d, r)
      else ([], l)
  | [] => ([], [])
  end.

Definition invalid_literal (what : string) (l : list ascii) : exn :=
  ValueError what (str l).

(** [sys.int_info.default_max_str_digits]: [int()] refuses a text with
    more digits. *)
Definition int_max_str_digits : nat := 4300.

(** [int(s)] in base 10, on ASCII text; the digits and the white space
    beyond ASCII, which [int()] reads as well, are refused. *)
Definition int_of_str (s : string) : exc Z :=
  let t := chars (strip_with c_isspace s) in
  let bad := invalid_literal "invalid literal for int() with base 10" (chars s) in
  let (neg, body) := split_sign t in
  match drop_underscores None body with
  | Some (c :: ds) =>
      if forallb isdigit (c :: ds)
         && (List.length (c :: ds) <=? int_max_str_digits)%nat
      then Ok (if neg then - digits_value (c :: ds) else digits_value (c :: ds))
      else Raise bad
  | _ => Raise bad
  end.

(** The exponent part of a decimal literal: [e], optional sign, at least
    one digit, and nothing after it. *)
Definition parse_exponent (l : list ascii) : option Z :=
  match l with
  | [] => Some 0
  | c :: t =>
      if Ascii.eqb c "e" || Ascii.eqb c "E" then
        let (neg, ds) := split_sign t in
        match ds with
        | [] => None
        | _ :: _ =>
            if forallb isdigit ds
            then Some (if neg then - digits_value ds else digits_value ds)
            else None
        end
      else None
  end.

(** m * 10^k as the nearest double *)
Definition decimal_to_float (s : bool) (m k : Z) : float :=
  if 0 <=? k then round_ratio s (m * 10 ^ k) 1 else round_ratio s m (10 ^ (- k)).

(** [float(s)] on ASCII text; the digits and the white space beyond
    ASCII, which [float()] reads as well, are refused. *)
Definition float_of_str (s : string) : exc float :=
  let bad := invalid_literal "could not convert string to float" (chars s) in
  match drop_underscores None (chars (strip_with c_isspace s)) with
  | None => Raise bad
  | Some t =>
      let (neg, body) := split_sign t in
      let word := lower (str body) in
      if String.eqb word "inf" || String.eqb word "infinity" then Ok (Inf neg)
      else if String.eqb word "nan" then Ok NaN
      else
        let (ip, r1) := span_digits body in
        let (fp, r2) :=
          match r1 with
          | c :: r => if Ascii.eqb c "." then span_digits r else ([], r1)
          | [] => ([], r1)
          end in
        match (ip ++ fp)%list with
        | [] => Raise bad
        | _ :: _ =>
            match parse_exponent r2 with
            | None => Raise bad
            | Some x =>
                Ok (decimal_to_float neg (digits_value (ip ++ fp)%list)
                                     (x - Z.of_nat (List.length fp)))
            end
        end
  end.

(** ** [fnmatch.fnmatch]

    [fnmatch.translate] turns a shell pattern into a regular expression
    made of [.*], [.], character sets and literal characters; the
    pattern is kept here as the list of those pieces. *)

Inductive glob_item : Type :=
| GStar
| GAny
| GNever
| GLit (c : ascii)
| GSet (negated : bool) (singles : list ascii) (ranges : list (ascii * ascii)).

(** Index of the closing bracket of a set, counted from the character
    after the opening one: an initial [!] and a [[]]] right after it do
    not close the set. *)
Fixpoint find_close (l : list ascii) (j : nat) : option nat :=
  match l with
  | [] => None
  | c :: t => if Ascii.eqb c "]" then Some j else find_close t (S j)
  end.

Definition set_end (l : list ascii) : option nat :=
  let j1 := match l with "!"%char :: _ => 1%nat | _ => 0%nat end in
  let j2 := match skipn j1 l with "]"%char :: _ => S j1 | _ => j1 end in
  find_close (skipn j2 l) j2.

(** [stuff.find("-", k)] *)
Fixpoint find_hyphen (l : list ascii) (pos k : nat) : option nat :=
  match l with
  | [] => None
  | c :: t =>
      if (k <=? pos)%nat && Ascii.eqb c "-" then Some pos
      else find_hyphen t (S pos) k
  end.

Definition slice (l : list ascii) (i j : nat) : list ascii :=
  firstn (j - i) (skipn i l).

(** The loop that cuts [stuff] at the hyphens that make ranges. *)
Fixpoint cut_chunks (fuel : nat) (stuff : list ascii) (i k : nat)
  : list (list ascii) * nat :=
  match fuel with
  | O => ([], i)
  | S fuel' =>
      match find_hyphen stuff 0 k with
      | None => ([], i)
      | Some k' =>
          let (cs, i') := cut_chunks fuel' stuff (S k') (k' + 3) in
          (slice stuff i k' :: cs, i')
      end
  end.

Definition first_char (l : list ascii) : Z :=
  match l with c :: _ => code c | [] => -1 end.

Definition final_char (l : list ascii) : Z := first_char (rev l).

(** "Remove empty ranges": from the last pair of neighbours to the
    first, a pair whose bounds are out of order is merged, both bounds
    dropped. *)
Fixpoint merge_empty_ranges (cs : list (list ascii)) : list (list ascii) :=
  match cs with
  | [] => []
  | a :: rest =>
      match merge_empty_ranges rest with
      | [] => [a]
      | b :: rest' =>
          if final_char a >? first_char b
          then (removelast a ++ tl b)%list :: rest'
          else a :: b :: rest'
      end
  end.

Definition chunks_of (stuff : list ascii) : list (list ascii) :=
  let k0 := match stuff with "!"%char :: _ => 2%nat | _ => 1%nat end in
  let (cs, i) := cut_chunks (S (List.length stuff)) stuff 0 k0 in
  let last := skipn i stuff in
  let cs' :=
    match last with
    | [] => (removelast cs ++ [List.last cs [] ++ ["-"%char]])%list
    | _ :: _ => (cs ++ [last])%list
    end in
  merge_empty_ranges cs'.

(** Between two neighbouring chunks lies a range from the last
    character of the first to the first character of the second; every
    other character stands for itself. *)
Fixpoint chunk_singles (first : bool) (cs : list (list ascii)) : list ascii :=
  match cs with
  | [] => []
  | [c] => if first then c else tl c
  | c :: rest =>
      ((if first then removelast c else removelast (tl c))
         ++ chunk_singles false rest)%list
  end.

Fixpoint chunk_ranges (cs : list (list ascii)) : list (ascii * ascii) :=
  match cs with
  | a :: ((b :: _) as rest) =>
      (List.last a "-"%char, hd "-"%char b) :: chunk_ranges rest
  | _ => []
  end.

Definition has_hyphen (l : list ascii) : bool := existsb (Ascii.eqb "-") l.

Definition set_item (stuff : list ascii) : glob_item :=
  let cs := if has_hyphen stuff then chunks_of stuff else [stuff] in
  match cs with
  | [[]] => GNever
  | [["!"%char]] => GAny
  | ("!"%char :: c0) :: rest =>
      GSet true (chunk_singles true (c0 :: rest)) (chunk_ranges (c0 :: rest))
  | _ => GSet false (chunk_singles true cs) (chunk_ranges cs)
  end.

Fixpoint translate_from (fuel : nat) (prev_star : bool) (pat : list ascii)
  : list glob_item :=
  match fuel with
  | O => []
  | S fuel' =>
      match pat with
      | [] => []
      | c :: rest =>
          if Ascii.eqb c "*" then
            if prev_star then translate_from fuel' true rest
            else GStar :: translate_from fuel' true rest
          else if Ascii.eqb c "?" then GAny :: translate_from fuel' false rest
          else if Ascii.eqb c "[" then
            match set_end rest with
            | None => GLit c :: translate_from fuel' false rest
            | Some j =>
                set_item (firstn j rest)
                  :: translate_from fuel' false (skipn (S j) rest)
            end
          else GLit c :: translate_from fuel' false rest
      end
  end.

(** [fnmatch.translate(pat)] *)
Definition translate (pat : string) : list glob_item :=
  translate_from (S (String.length pat)) false (chars pat).

Definition in_range (c : ascii) (r : ascii * ascii) : bool :=
  (code (fst r) <=? code c) && (code c <=? code (snd r)).

Definition item_accepts (it : glob_item) (c : ascii) : bool :=
  match it with
  | GStar | GAny => true
  | GNever => false
  | GLit d => Ascii.eqb c d
  | GSet neg singles ranges =>
      xorb neg (existsb (Ascii.eqb c) singles || existsb (in_range c) ranges)
  end.

(** A full match of the text against the pieces. *)
Fixpoint glob_match (items : list glob_item) (s : list ascii) : bool :=
  match items with
  | [] => match s with [] => true | _ :: _ => false end
  | GStar :: rest =>
      (fix star (s : list ascii) : bool :=
         glob_match rest s ||
         match s with
         | [] => false
         | _ :: s' => star s'
         end) s
  | it :: rest =>
      match s with
      | [] => false
      | c :: s' => item_accepts it c && glob_match rest s'
      end
  end.

(** [fnmatch.fnmatch(name, pat)]; [os.path.normcase] is the identity on
    POSIX. *)
Definition fnmatch (name pat : string) : bool :=
  glob_match (translate pat) (chars name).

End Py.

Import Py Py.Notations.

(* ================================================================== *)
(** * Utilities                                                        *)
(* ================================================================== *)

(** [_SIZE_FACTORS] *)
Definition _SIZE_FACTORS (c : ascii) : option Z :=
  if Ascii.eqb c "k" then Some 1024
  else if Ascii.eqb c "m" then Some (1024 * 1024)
  else if Ascii.eqb c "g" then Some (1024 * 1024 * 1024)
  else None.

(** The suffixes in either case, each with the binary logarithm of its
    factor. *)
Definition size_suffixes : list (ascii * Z) :=
  [("k"%char, 10); ("K"%char, 10); ("m"%char, 20);
   ("M"%char, 20); ("g"%char, 30); ("G"%char, 30)].

(** The body of the [try] block of [parse_size]. *)
Definition parse_size_body (s : string) : exc Z :=
  c <- last_char s ;;
  match _SIZE_FACTORS c with
  | Some factor =>
      x <- float_of_str (but_last s) ;;
      int_of_float (fmul x (of_int factor))
  | None => int_of_str s
  end.

Definition parse_size (s : string) (default : Z) : exc Z :=
  if String.eqb s "" then Ok default
  else
    let s := lower (strip s) in
    try_except (parse_size_body s)
               (fun _ => Raise (ValueError "Invalid size value" s)).

Definition nl : string := String "010" EmptyString.

(** ** File system

    A directory holds named entries; an entry may be a symbolic link,
    and [target] is what following it leads to: a regular file, a
    directory, a special file (a device, a socket, a FIFO), nothing
    ([Absent], for a name that is not there or a link that dangles),
    something that cannot be looked at ([Denied]: the way to it goes
    through a directory the process may not search, so that [stat]
    fails with [EACCES], whatever lies there), or a link that leads
    back to itself ([Loop]: [stat] fails with [ELOOP]).  A value of
    type [Path] stands for a [pathlib.Path] together with what the file
    system holds at it, so that the calls on a path are functions of
    the value.

    [opening] is what opening a special file for reading, and reading
    it to its end, gives: an error for a socket, the bytes sent for a
    device or a FIFO with a writer.  A FIFO that no process writes to,
    on which [open] waits for ever, is not a state of the model. *)

Inductive node : Type :=
| Reg (readable : bool) (data : list byte)
| Special (opening : exc (list byte))
| Absent
| Dir (listable : bool) (entries : list Path)
| Denied
| Loop
with Path : Type :=
| mkPath (name : string) (symlink : bool) (target : node).

Definition name (p : Path) : string := let 'mkPath n _ _ := p in n.
Definition target (p : Path) : node := let 'mkPath _ _ t := p in t.

(** What an entry is seen to be.  These are the answers of the tests
    that take a failure for a no, as [os.walk] does with what it lists
    ([is_dir] and [is_symlink] of its entries), and the answers of the
    calls of [pathlib] below whenever those return. *)
Definition is_symlink (p : Path) : bool := let 'mkPath _ l _ := p in l.

Definition exists_ (p : Path) : bool :=
  match target p with Absent | Loop => false | _ => true end.

Definition is_dir (p : Path) : bool :=
  match target p with Dir _ _ => true | _ => false end.

Definition is_file (p : Path) : bool :=
  match target p with Reg _ _ => true | _ => false end.

Inductive file_type : Type := S_IFREG | S_IFDIR | S_IFOTHER.

Record stat_result : Type := mkStat { st_mode : file_type; st_size : Z }.

Definition S_ISREG (m : file_type) : bool :=
  match m with S_IFREG => true | _ => false end.

(** [path.stat()]; only the size of a regular file is looked at. *)
Definition stat (p : Path) : exc stat_result :=
  match target p with
  | Reg _ data => Ok (mkStat S_IFREG (Z.of_nat (List.length data)))
  | Dir _ _ => Ok (mkStat S_IFDIR 0)
  | Special _ => Ok (mkStat S_IFOTHER 0)
  | Absent | Denied | Loop => Raise OSError
  end.

(** The calls of [pathlib.Path].  [is_file], [is_dir] and [exists] call
    [stat], [is_symlink] calls [lstat]; each answers [False] when the
    call fails because nothing is there or a link loops, and lets any
    other [OSError] through.  For an entry that is no link, [lstat]
    fails as [stat] does.  [resolve] raises on a link that loops. *)
Module pathlib.

Definition is_file (p : Path) : exc bool :=
  match target p with
  | Reg _ _ => Ok true
  | Denied => Raise OSError
  | _ => Ok false
  end.

Definition is_dir (p : Path) : exc bool :=
  match target p with
  | Dir _ _ => Ok true
  | Denied => Raise OSError
  | _ => Ok false
  end.

Definition exists_ (p : Path) : exc bool :=
  match target p with
  | Absent | Loop => Ok false
  | Denied => Raise OSError
  | _ => Ok true
  end.

Definition is_symlink (p : Path) : exc bool :=
  if is_symlink p then Ok true
  else match target p with
       | Denied => Raise OSError
       | _ => Ok false
       end.

Definition resolve (p : Path) : exc Path :=
  match target p with
  | Loop => Raise RuntimeError
  | _ => Ok p
  end.

End pathlib.

(** [f.read(n)] on a file opened in binary mode: all of it for [-1], and
    an error for a length below. *)
Definition read (data : list byte) (n : Z) : exc (list byte) :=
  if n <? -1 then
    Raise (ValueError "read length must be non-negative or -1" "")
  else if n <? 0 then Ok data
  else Ok (firstn (Z.to_nat n) data).

(** [with path.open("rb") as f: chunk = f.read(n)] *)
Definition open_read (p : Path) (n : Z) : exc (list byte) :=
  match target p with
  | Reg true data => read data n
  | Special (Ok data) => read data n
  | Special (Raise e) => Raise e
  | _ => Raise OSError
  end.

(** [path.iterdir()] *)
Definition iterdir (p : Path) : exc (list Path) :=
  match target p with
  | Dir true entries => Ok entries
  | _ => Raise OSError
  end.

(** [path / child] *)
Definition child (p : Path) (n : string) : Path :=
  match target p with
  | Dir _ entries =>
      match find (fun e => String.eqb (name e) n) entries with
      | Some e => e
      | None => mkPath n false Absent
      end
  | _ => mkPath n false Absent
  end.

(** Text mode translates every line ending (CR LF, a lone CR, LF) to
    a line feed. *)
Fixpoint universal_newlines (s : string) : string :=
  match s with
  | EmptyString => EmptyString
  | String c t =>
      if Ascii.eqb c "013" then
        String "010"
               (match t with
                | String d t' =>
                    if Ascii.eqb d "010" then universal_newlines t'
                    else universal_newlines t
                | EmptyString => EmptyString
                end)
      else String c (universal_newlines t)
  end.

(** The lines of a text, each with its line feed. *)
Fixpoint file_lines (cur : list ascii) (s : string) : list string :=
  match s with
  | EmptyString =>
      match cur with
      | [] => []
      | _ :: _ => [str (rev cur)]
      end
  | String c t =>
      if Ascii.eqb c "010" then str (rev (c :: cur)) :: file_lines [] t
      else file_lines (c :: cur) t
  end.

(** [PurePosixPath(rel).parts] for a relative path: the components,
    empty ones and [.] dropped. *)
Definition parts (rel : string) : list string :=
  (if startswith rel "/" then ["/"] else [])
  ++ filter (fun c => negb (String.eqb c "" || String.eqb c "."))
            (split_on "/" rel).

(** [os.path.join(a, b)] *)
Definition os_path_join (a b : string) : string :=
  if startswith b "/" then b
  else if String.eqb a "" || endswith a "/" then a ++ b
  else a ++ "/" ++ b.

(** [s.replace(old, new)] for one-character [old] and [new] *)
Fixpoint replace_char (old new : ascii) (s : string) : string :=
  match s with
  | EmptyString => EmptyString
  | String c t =>
      String (if Ascii.eqb c old then new else c) (replace_char old new t)
  end.

Definition os_sep : ascii := "/".

(** [path.suffix] *)
Fixpoint rfind_dot (l : list ascii) (i : nat) (best : option nat) : option nat :=
  match l with
  | [] => best
  | c :: t => rfind_dot t (S i) (if Ascii.eqb c "." then Some i else best)
  end.

Definition suffix (p : Path) : string :=
  let n := chars (name p) in
  match rfind_dot n 0 None with
  | Some i =>
      if (0 <? i)%nat && (i <? List.length n - 1)%nat then str (skipn i n) else ""
  | None => ""
  end.

(** ** Binary detector *)

Definition byte_value (b : byte) : Z := Z.of_N (Byte.to_N b).

(** [bytearray({7,8,9,10,12,13,27} | set(range(0x20, 0x100)))] *)
Definition text_chars (b : byte) : bool :=
  let n := byte_value b in
  existsb (Z.eqb n) [7; 8; 9; 10; 12; 13; 27] || ((32 <=? n) && (n <? 256)).

(** [chunk.translate(None, text_chars)]: the bytes left once the text
    characters are deleted. *)
Definition nontext_of (chunk : list byte) : list byte :=
  filter (fun b => negb (text_chars b)) chunk.

Definition len {A : Type} (l : list A) : Z := Z.of_nat (List.length l).

(** The literal [0.30] *)
Definition lit_0_30 : float := decimal_to_float false 30 (-2).

(** Its significand: [lit_0_30] is [c_0_30] * 2^-54. *)
Definition c_0_30 : Z := 5404319552844595.

(** The quotients [3k / 10k] a sample of 2048 bytes at most can give. *)
Definition three_tenths_cases : list Z := map Z.of_nat (seq 1 204).

(** The body of the [try] block of [is_probably_binary]. *)
Definition is_probably_binary_body (path : Path) (read_bytes : Z) : exc bool :=
  chunk <- open_read path read_bytes ;;
  if existsb (fun b => byte_value b =? 0) chunk then Ok true
  else
    let nontext := nontext_of chunk in
    r <- truediv (len nontext) (Z.max 1 (len chunk)) ;;
    Ok (fgt r lit_0_30).

Definition is_probably_binary (path : Path) (read_bytes : Z) : bool :=
  match is_probably_binary_body path read_bytes with
  | Ok b => b
  | Raise _ => true
  end.

Definition default_read_bytes : Z := 2048.

(** ** Language tags *)

Definition lang_mapping : list (string * string) :=
  [ ("py", "python"); ("js", "javascript"); ("ts", "typescript");
    ("tsx", "tsx"); ("jsx", "jsx"); ("json", "json"); ("yml", "yaml");
    ("yaml", "yaml"); ("toml", "toml"); ("ini", "ini"); ("cfg", "ini");
    ("md", "markdown"); ("txt", ""); ("sh", "bash"); ("zsh", "bash");
    ("ps1", "powershell"); ("rb", "ruby"); ("go", "go"); ("rs", "rust");
    ("java", "java"); ("kt", "kotlin"); ("c", "c"); ("h", "c");
    ("cpp", "cpp"); ("hpp", "cpp"); ("cs", "csharp"); ("php", "php");
    ("sql", "sql"); ("html", "html"); ("css", "css"); ("vue", "vue");
    ("sv", "verilog") ].

Definition lstrip_with (f : ascii -> bool) (s : string) : string :=
  str (dropwhile f (chars s)).

Definition guess_lang_from_suffix (path : Path) : string :=
  let ext := lstrip_with (Ascii.eqb ".") (lower (suffix path)) in
  match find (fun kv => String.eqb (fst kv) ext) lang_mapping with
  | Some kv => snd kv
  | None => ""
  end.

(** ** Presets *)

Definition PRESETS : list (string * list string) :=
  [ ("python",
     [ "__pycache__/"; "*.py[cod]"; ".mypy_cache/"; ".pytest_cache/";
       ".tox/"; ".venv/"; "venv/"; "env/"; "build/"; "dist/";
       "*.egg-info/" ]);
    ("node",
     [ "node_modules/"; "dist/"; "build/"; ".next/"; ".nuxt/"; ".cache/";
       "coverage/"; "*.log" ]) ].

Definition DEFAULT_GLOBAL_IGNORES : list string :=
  [ ".git/"; ".svn/"; ".hg/"; ".DS_Store"; "Thumbs.db"; ".idea/";
    ".vscode/"; "*.exe"; "*.dll"; "*.bin" ].

Record StitchOptions : Type := mkOptions {
  root : Path;
  root_resolved : string;        (* what [root.resolve()] prints as *)
  output : option string;
  to_stdout : bool;
  fmt : string;
  gitignore : option Path;
  use_gitignore : bool;
  preset : option string;
  extra_ignores : list string;
  include_hidden : bool;
  max_file_size : Z;
  follow_symlinks : bool;
  relative_paths : bool;
  encoding : string;
  quiet : bool
}.

(* ================================================================== *)
(** * The stitcher                                                     *)
(* ================================================================== *)

Section Stitcher.

(** What the host provides: the [pathspec] package when it is installed
    ([PathSpec.from_lines("gitwildmatch", patterns)], which may reject a
    pattern, and the [match_file] of the result), the codecs
    ([bytes.decode(encoding, errors)]) and the clock. *)
Variable pathspec : option (list string -> exc (string -> bool)).
Variable decode : string -> string -> list byte -> exc string.
Variable clock : string.

(** [open(path, "r", encoding=..., errors=...).read()] *)
Definition open_text (p : Path) (enc errors : string) : exc string :=
  match target p with
  | Reg true data | Special (Ok data) =>
      s <- decode enc errors data ;;
      Ok (universal_newlines s)
  | Special (Raise e) => Raise e
  | _ => Raise OSError
  end.

(** [path.read_text(encoding=..., errors=...)] *)
Definition read_text (p : Path) (enc errors : string) : exc string :=
  open_text p enc errors.

(** The attributes of a [Stitcher]; [self_root] is [self.root], [root]
    being the field of the options. *)
Record Stitcher : Type := mkStitcher {
  o : StitchOptions;
  self_root : Path;
  _spec : string -> bool;
  _now : string
}.

(** [_MiniSpec.match_file] *)
Definition _MiniSpec (pats : list string) (relpath : string) : bool :=
  let rp := replace_char os_sep "/" relpath in
  existsb (fun p => fnmatch rp p
                    || startswith rp (rstrip_with (Ascii.eqb "*") p)) pats.

(** [[line.rstrip("\n") for line in f if line.strip()]] *)
Definition gitignore_lines (content : string) : list string :=
  map (rstrip_with (Ascii.eqb "010"))
      (filter (fun line => negb (String.eqb (strip line) ""))
              (file_lines [] content)).

Definition lookup_preset (k : string) : option (list string) :=
  option_map snd (find (fun kv => String.eqb (fst kv) k) PRESETS).

(** The [patterns] list of [_build_pathspec]. *)
Definition ignore_patterns (opts : StitchOptions) (rt : Path) : exc (list string) :=
  let patterns := DEFAULT_GLOBAL_IGNORES in
  patterns <-
    match preset opts with
    | None => Ok patterns
    | Some p =>
        if String.eqb p "" then Ok patterns
        else
          match lookup_preset (lower p) with
          | Some (x :: pre) => Ok (patterns ++ x :: pre)%list
          | _ => Raise (ValueError "Unknown preset" p)
          end
    end ;;
  patterns <-
    (if use_gitignore opts then
       let gi_path :=
         match gitignore opts with
         | Some g => g
         | None => child rt ".gitignore"
         end in
       there <- pathlib.exists_ gi_path ;;
       if there then
         match open_text gi_path "utf-8" "ignore" with
         | Ok content => Ok (patterns ++ gitignore_lines content)%list
         | Raise _ => Ok patterns
         end
       else Ok patterns
     else Ok patterns) ;;
  let patterns :=
    match extra_ignores opts with
    | [] => patterns
    | _ :: _ => (patterns ++ extra_ignores opts)%list
    end in
  Ok patterns.

Definition _build_pathspec (opts : StitchOptions) (rt : Path) : exc (string -> bool) :=
  patterns <- ignore_patterns opts rt ;;
  match pathspec with
  | None => Ok (_MiniSpec patterns)
  | Some from_lines => from_lines patterns
  end.

(** [Stitcher.__init__] *)
Definition __init__ (opts : StitchOptions) : exc Stitcher :=
  rt <- pathlib.resolve (root opts) ;;
  there <- pathlib.exists_ rt ;;
  dir <- (if there then pathlib.is_dir rt else Ok false) ;;
  if negb there || negb dir then
    Raise (ValueError "Root does not exist or is not a directory"
                      (root_resolved opts))
  else
    spec <- _build_pathspec opts rt ;;
    Ok (mkStitcher opts rt spec clock).

Variable self : Stitcher.

Definition _is_ignored (rel : string) : bool := _spec self rel.

Definition is_hidden (rel : string) : bool :=
  existsb (fun part => startswith part ".")
          (filter (fun part => negb (String.eqb part "." || String.eqb part ".."))
                  (parts rel)).

(** The two [try] blocks of [_should_skip]; [Ok true] stands for
    [return True], [Ok false] for falling through. *)
Definition size_check (path : Path) : exc bool :=
  file <- pathlib.is_file path ;;
  if file then
    st <- stat path ;;
    Ok (st_size st >? max_file_size (o self))
  else Ok false.

Definition symlink_check (path : Path) : exc bool :=
  link <- pathlib.is_symlink path ;;
  Ok (link && negb (follow_symlinks (o self))).

Definition returns_true (body : exc bool) : bool :=
  match body with
  | Ok b => b
  | Raise _ => true
  end.

Definition _should_skip (path : Path) (rel : string) : bool :=
  if negb (include_hidden (o self)) && is_hidden rel then true
  else if _is_ignored rel then true
  else if returns_true (size_check path) then true
  else if returns_true (symlink_check path) then true
  else false.

(** ** [os.walk]

    [os.walk(top, followlinks=...)] visits [top], hands its
    subdirectories and other entries to the loop body, and then walks
    each subdirectory the body has left in [dirnames].  The body of
    [_iter_files] leaves the subdirectories [keep] accepts and yields
    [visit].  A directory that cannot be listed is passed over silently.
    [dir_rel] is [os.path.relpath(dirpath, root)], [""] at the root: for
    a subdirectory, the relative path of its parent joined with its
    name, which is how the loop body forms [rel].  An entry that cannot
    be looked at is handed to the loop body among the directories or
    among the others, as the listing has it; the loop body skips it
    either way, its [is_file] failing in [_should_skip], and the model
    hands it over among the others. *)
Section Walk.
Variable A : Type.
Variable followlinks : bool.
Variable keep : string -> Path -> bool.
Variable visit : string -> list Path -> list A.

Definition sub_rel (dir_rel : string) (d : Path) : string :=
  if String.eqb dir_rel "" then name d else os_path_join dir_rel (name d).

Fixpoint os_walk (top : Path) (dir_rel : string) {struct top} : list A :=
  match top with
  | mkPath _ _ (Dir true entries) =>
      let nondirs := filter (fun e => negb (is_dir e)) entries in
      (visit dir_rel nondirs
       ++ flat_map
            (fun d =>
               if is_dir d && keep dir_rel d
                  && (followlinks || negb (is_symlink d))
               then os_walk d (sub_rel dir_rel d)
               else [])
            entries)%list
  | _ => []
  end.

End Walk.

Definition nondirs (es : list Path) : list Path :=
  filter (fun e => negb (is_dir e)) es.

Definition keep_dir (dir_rel : string) (d : Path) : bool :=
  let rel := sub_rel dir_rel d in
  negb (_should_skip d (rel ++ "/")).

Definition yield_files (dir_rel : string) (filenames : list Path)
  : list (Path * string) :=
  flat_map
    (fun fn =>
       let rel := sub_rel dir_rel fn in
       if _should_skip fn rel then []
       else [(fn, replace_char os_sep "/" rel)])
    filenames.

Definition _iter_files : list (Path * string) :=
  os_walk (follow_symlinks (o self)) keep_dir yield_files (self_root self) "".

(** ** Tree rendering *)

(** The sort key [(x.is_file(), x.name.lower())], and the keys [sorted]
    computes, one for each entry, before it compares any: a key that
    raises ends the [try] block of [add_dir]. *)
Definition sort_key (x : Path) : exc (bool * string) :=
  file <- pathlib.is_file x ;;
  Ok (file, lower (name x)).

Fixpoint sort_keys (l : list Path) : exc (list (bool * string)) :=
  match l with
  | [] => Ok []
  | x :: t =>
      k <- sort_key x ;;
      ks <- sort_keys t ;;
      Ok (k :: ks)
  end.

(** The order of the keys, on entries whose keys were computed. *)
Definition tree_key_le (a b : Path) : bool :=
  if Bool.eqb (is_file a) (is_file b)
  then String.leb (lower (name a)) (lower (name b))
  else negb (is_file a).

Section Sorted.
Variable T : Type.
Variable le : T -> T -> bool.

Fixpoint insert_sorted (x : T) (l : list T) : list T :=
  match l with
  | [] => [x]
  | y :: t => if le x y then x :: l else y :: insert_sorted x t
  end.

(** [sorted(l, key=...)]: a stable sort. *)
Definition sorted (l : list T) : list T := fold_right insert_sorted [] l.

End Sorted.

Definition branch_of (is_last : bool) : string :=
  if is_last then "└── " else "├── ".

Definition ext_prefix_of (is_last : bool) : string :=
  if is_last then "    " else "│   ".

Definition entry_rel (rel : string) (e : Path) : string :=
  if String.eqb rel "" then name e else rel ++ "/" ++ name e.

Definition test_rel (rel : string) (e : Path) : string :=
  entry_rel rel e ++ (if is_dir e then "/" else "").

Definition is_nil {T : Type} (l : list T) : bool :=
  match l with [] => true | _ :: _ => false end.

(** The second loop of [add_dir]: [visible] pairs every entry with the
    rendering of its own directory.  The loops are reached once every
    key is computed, so that [e.is_dir()], which looks at what the key
    looked at, returns what [is_dir] says. *)
Fixpoint render_visible
    (visible : list (Path * (string -> string -> list string)))
    (rel pfx : string) : list string :=
  match visible with
  | [] => []
  | (e, sub) :: rest =>
      let is_last := is_nil rest in
      let branch := branch_of is_last in
      let ext_prefix := ext_prefix_of is_last in
      List.app
        (if is_dir e
         then (pfx ++ branch ++ name e ++ "/")
                :: sub (entry_rel rel e) (pfx ++ ext_prefix)
         else [pfx ++ branch ++ name e])
        (render_visible rest rel pfx)
  end.

Fixpoint add_dir (path : Path) (rel pfx : string) {struct path} : list string :=
  match path with
  | mkPath _ _ (Dir true children) =>
      match sort_keys children with
      | Raise _ => []
      | Ok _ =>
          let entries :=
            sorted (fun a b => tree_key_le (fst a) (fst b))
                   (map (fun e => (e, add_dir e)) children) in
          let visible :=
            filter (fun ek =>
                      negb (_should_skip (fst ek) (test_rel rel (fst ek))))
                   entries in
          render_visible visible rel pfx
      end
  | _ => []
  end.

Definition _render_tree : list string :=
  let root_label := name (self_root self) in
  (root_label ++ "/") :: add_dir (self_root self) "" "".

(** *** The tree with its entries named

    [add_dir] again, each appended line kept together with the entry it
    was appended for and that entry's relative path; [add_dir] is its
    projection on the lines ([add_dir_entries_lines] below). *)

Record shown : Type := mkShown {
  shown_path : Path;
  shown_rel : string;
  shown_line : string
}.

Fixpoint render_visible_entries
    (visible : list (Path * (string -> string -> list shown)))
    (rel pfx : string) : list shown :=
  match visible with
  | [] => []
  | (e, sub) :: rest =>
      let is_last := is_nil rest in
      let branch := branch_of is_last in
      let ext_prefix := ext_prefix_of is_last in
      List.app
        (if is_dir e
         then mkShown e (entry_rel rel e) (pfx ++ branch ++ name e ++ "/")
                :: sub (entry_rel rel e) (pfx ++ ext_prefix)
         else [mkShown e (entry_rel rel e) (pfx ++ branch ++ name e)])
        (render_visible_entries rest rel pfx)
  end.

Fixpoint add_dir_entries (path : Path) (rel pfx : string) {struct path}
  : list shown :=
  match path with
  | mkPath _ _ (Dir true children) =>
      match sort_keys children with
      | Raise _ => []
      | Ok _ =>
          let entries :=
            sorted (fun a b => tree_key_le (fst a) (fst b))
                   (map (fun e => (e, add_dir_entries e)) children) in
          let visible :=
            filter (fun ek =>
                      negb (_should_skip (fst ek) (test_rel rel (fst ek))))
                   entries in
          render_visible_entries visible rel pfx
      end
  | _ => []
  end.

Definition tree_entries : list shown := add_dir_entries (self_root self) "" "".

(** The leaf (non-directory) entries of the rendered tree. *)
Definition tree_leaves : list (Path * string) :=
  map (fun s => (shown_path s, shown_rel s))
      (filter (fun s => negb (is_dir (shown_path s))) tree_entries).

(** *** Directories the traversals get to

    The root is reached; a subdirectory is reached when the directory
    holding it is reached and can be listed, and the subdirectory itself
    passes the visibility filter. *)
Inductive reached : Path -> string -> Prop :=
| reached_root : reached (self_root self) ""
| reached_sub (n : string) (l : bool) (entries : list Path)
              (rel : string) (d : Path) :
    reached (mkPath n l (Dir true entries)) rel ->
    In d entries ->
    is_dir d = true ->
    _should_skip d (test_rel rel d) = false ->
    reached d (entry_rel rel d).

(** The entries shown at one level of the tree: sorted, then filtered. *)
Definition level (rel : string) (children : list Path) : list Path :=
  filter (fun e => negb (_should_skip e (test_rel rel e)))
         (sorted tree_key_le children).

(** The entries drawn for a directory: none when a sort key raises. *)
Definition shown_level (rel : string) (children : list Path) : list Path :=
  match sort_keys children with
  | Raise _ => []
  | Ok _ => level rel children
  end.

(** The path an entry of the tree was tested under. *)
Definition shown_test_rel (s : shown) : string :=
  shown_rel s ++ (if is_dir (shown_path s) then "/" else "").

(** The files below a directory that pass the filter together with all
    the directories on the way to them, in the order of the listing. *)
Fixpoint visible_files (path : Path) (rel : string) {struct path}
  : list (Path * string) :=
  match path with
  | mkPath _ _ (Dir true children) =>
      flat_map
        (fun e =>
           if _should_skip e (test_rel rel e) then []
           else if is_dir e then visible_files e (entry_rel rel e)
           else [(e, entry_rel rel e)])
        children
  | _ => []
  end.

Definition leaves_of (l : list shown) : list (Path * string) :=
  map (fun s => (shown_path s, shown_rel s))
      (filter (fun s => negb (is_dir (shown_path s))) l).

(** ** File contents *)

Definition _read_text (path : Path) : option string :=
  match (st <- stat path ;; Ok (S_ISREG (st_mode st))) with
  | Raise _ => None
  | Ok false => None
  | Ok true =>
      if is_probably_binary path default_read_bytes then None
      else
        match read_text path (encoding (o self)) "replace" with
        | Ok content => Some content
        | Raise _ => None
        end
  end.

(** ** Document assembly *)

(** [buf.write(s)] on an [io.StringIO] *)
Definition write (buf s : string) : string := buf ++ s.

Fixpoint repeat_string (s : string) (n : nat) : string :=
  match n with
  | O => ""
  | S n' => s ++ repeat_string s n'
  end.

Definition placeholder : string := "[Skipped: binary or unreadable]".

Definition write_file_txt (buf : string) (f : Path * string) : string :=
  let (path, rel) := f in
  let buf := write buf ("--- BEGIN FILE: " ++ rel ++ " ---" ++ nl) in
  let content := _read_text path in
  let buf :=
    match content with
    | None => write buf (placeholder ++ nl)
    | Some c =>
        let buf := write buf c in
        if negb (endswith c nl) then write buf nl else buf
    end in
  write buf ("--- END FILE: " ++ rel ++ " ---" ++ nl ++ nl).

Definition write_file_md (buf : string) (f : Path * string) : string :=
  let (path, rel) := f in
  let lang := guess_lang_from_suffix path in
  let buf := write buf ("### `" ++ rel ++ "`" ++ nl ++ nl) in
  let buf :=
    if negb (String.eqb lang "") then write buf ("```" ++ lang ++ nl)
    else write buf ("```" ++ nl) in
  let content := _read_text path in
  let buf :=
    match content with
    | None => write buf (placeholder ++ nl)
    | Some c => write buf c
    end in
  let buf :=
    match content with
    | None => write buf nl
    | Some c =>
        if String.eqb c "" || negb (endswith c nl) then write buf nl else buf
    end in
  write buf ("```" ++ nl ++ nl).

(** What the loop of [build] appends for one file, and the texts of a
    list put end to end. *)
Definition file_section (f : Path * string) : string :=
  if String.eqb (fmt (o self)) "txt" then write_file_txt "" f
  else write_file_md "" f.

Definition concat_all (l : list string) : string :=
  fold_right String.append "" l.

(** The opening and closing delimiters of a section. *)
Definition opening (f : Path * string) : string :=
  if String.eqb (fmt (o self)) "txt"
  then "--- BEGIN FILE: " ++ snd f ++ " ---" ++ nl
  else "### `" ++ snd f ++ "`" ++ nl ++ nl
       ++ (if negb (String.eqb (guess_lang_from_suffix (fst f)) "")
           then "```" ++ guess_lang_from_suffix (fst f) ++ nl
           else "```" ++ nl).

Definition closing (f : Path * string) : string :=
  if String.eqb (fmt (o self)) "txt"
  then "--- END FILE: " ++ snd f ++ " ---" ++ nl ++ nl
  else "```" ++ nl ++ nl.

Definition decimal (n : nat) : string :=
  NilEmpty.string_of_uint (Nat.to_uint n).

Definition build : string :=
  let files := _iter_files in
  let tree_lines := _render_tree in
  if String.eqb (fmt (o self)) "txt" then
    let buf := "" in
    let buf := write buf ("ContextStitch output" ++ nl) in
    let buf := write buf ("Root: " ++ root_resolved (o self) ++ nl) in
    let buf := write buf ("Generated: " ++ _now self ++ nl) in
    let buf := write buf (repeat_string "=" 80 ++ nl ++ nl) in
    let buf := write buf ("FOLDER TREE" ++ nl) in
    let buf := write buf (repeat_string "-" 80 ++ nl) in
    let buf := fold_left (fun buf line => write buf (line ++ nl)) tree_lines buf in
    let buf := write buf nl in
    let buf := write buf ("FILES" ++ nl) in
    let buf := write buf (repeat_string "-" 80 ++ nl) in
    let buf := fold_left write_file_txt files buf in
    buf
  else
    let buf := "" in
    let buf := write buf ("# ContextStitch Output" ++ nl ++ nl) in
    let buf := write buf ("- **Root**: `" ++ root_resolved (o self) ++ "`" ++ nl) in
    let buf := write buf ("- **Generated**: " ++ _now self ++ nl) in
    let buf := write buf ("- **Files included**: "
                          ++ decimal (List.length files) ++ nl ++ nl) in
    let buf := write buf ("## Folder Tree" ++ nl ++ nl) in
    let buf := write buf ("```text" ++ nl) in
    let buf := fold_left (fun buf line => write buf (line ++ nl)) tree_lines buf in
    let buf := write buf ("```" ++ nl ++ nl) in
    let buf := write buf ("## Files" ++ nl ++ nl) in
    let buf := fold_left write_file_md files buf in
    buf.

End Stitcher.

(** ** Well-formed trees, sample hosts *)

(** A file name is not empty and holds no slash. *)
Definition valid_name (n : string) : bool :=
  negb (String.eqb n "") && negb (existsb (Ascii.eqb "/") (chars n)).

(** An entry that cannot be looked at. *)
Definition denied (p : Path) : bool :=
  match target p with Denied => true | _ => false end.

(** Every entry below the path can be looked at. *)
Fixpoint all_seen (p : Path) : bool :=
  match p with
  | mkPath _ _ (Dir _ entries) =>
      forallb (fun e => negb (denied e) && all_seen e) entries
  | _ => true
  end.

(** Every name below the path is a file name. *)
Fixpoint wf_names (p : Path) : bool :=
  match p with
  | mkPath _ _ (Dir _ entries) =>
      forallb (fun e => valid_name (name e) && wf_names e) entries
  | _ => true
  end.

(** The ["ascii"] codec, which the ["utf-8"] codec agrees with on ASCII
    data: a byte below 128 is the character of that code; any other
    byte is replaced by U+FFFD, dropped, or refused, as [errors] says. *)
Definition replacement_character : string :=
  String "239" (String "191" (String "189" EmptyString)).

Definition ascii_decode_byte (errors : string) (b : byte) : exc string :=
  if byte_value b <? 128 then Ok (String (ascii_of_byte b) EmptyString)
  else if String.eqb errors "replace" then Ok replacement_character
  else if String.eqb errors "ignore" then Ok EmptyString
  else Raise (ValueError "codec can't decode byte" "").

Fixpoint ascii_decode_bytes (errors : string) (data : list byte) : exc string :=
  match data with
  | [] => Ok EmptyString
  | b :: t =>
      c <- ascii_decode_byte errors b ;;
      r <- ascii_decode_bytes errors t ;;
      Ok (c ++ r)
  end.

Definition ascii_codec (enc errors : string) (data : list byte) : exc string :=
  if existsb (String.eqb (lower enc)) ["utf-8"; "utf8"; "ascii"]
  then ascii_decode_bytes errors data
  else Raise LookupError.

(** The part of the gitwildmatch dialect of [pathspec] that the built-in
    patterns and a negated pattern use.  A pattern without an inner slash
    is matched against the components of the path (those followed by a
    slash only, when the pattern ends in one); a leading [!] turns a
    pattern into a re-inclusion; the last pattern that matches decides.
    Blank lines and comments match nothing, and neither does, in this
    fragment, a pattern with an inner slash. *)
Definition gitwildmatch_one (pat path : string) : bool :=
  let dir_only := endswith pat "/" in
  let g := if dir_only then but_last pat else pat in
  let comps := split_on "/" path in
  if existsb (Ascii.eqb "/") (chars g) then false
  else if dir_only then existsb (fun c => fnmatch c g) (removelast comps)
  else existsb (fun c => fnmatch c g)
               (filter (fun c => negb (String.eqb c "")) comps).

Fixpoint gitwildmatch_last (pats : list string) (path : string) (acc : bool) : bool :=
  match pats with
  | [] => acc
  | p :: t =>
      if String.eqb p "" || startswith p "#" then gitwildmatch_last t path acc
      else
        match p with
        | String "!" body =>
            gitwildmatch_last t path
              (if gitwildmatch_one body path then false else acc)
        | _ =>
            gitwildmatch_last t path
              (if gitwildmatch_one p path then true else acc)
        end
  end.

Definition gitwildmatch_basic (pats : list string) : exc (string -> bool) :=
  Ok (fun path => gitwildmatch_last pats path false).

(** ** Sample inputs *)

Definition text_file (n content : string) : Path :=
  mkPath n false (Reg true (list_byte_of_string content)).

Definition directory (n : string) (entries : list Path) : Path :=
  mkPath n false (Dir true entries).

(** The defaults of the [StitchOptions] dataclass, for a given root. *)
Definition default_options (rt : Path) (resolved : string) : StitchOptions :=
  mkOptions rt resolved None false "md" None true None [] false
            (1024 * 1024) false true "utf-8" false.

Definition with_gitignore (opts : StitchOptions) (b : bool) : StitchOptions :=
  mkOptions (root opts) (root_resolved opts) (output opts) (to_stdout opts)
            (fmt opts) (gitignore opts) b (preset opts) (extra_ignores opts)
            (include_hidden opts) (max_file_size opts) (follow_symlinks opts)
            (relative_paths opts) (encoding opts) (quiet opts).

Definition with_extra_ignores (opts : StitchOptions) (l : list string)
  : StitchOptions :=
  mkOptions (root opts) (root_resolved opts) (output opts) (to_stdout opts)
            (fmt opts) (gitignore opts) (use_gitignore opts) (preset opts) l
            (include_hidden opts) (max_file_size opts) (follow_symlinks opts)
            (relative_paths opts) (encoding opts) (quiet opts).


(** The directory of [tests/test_basic.py]. *)
Definition a_py : Path := text_file "a.py" ("print('hello')" ++ nl).
Definition binary_bin : Path := mkPath "binary.bin" false (Reg true [x00; x01; x02]).
Definition test_root : Path := directory "test_run_tmp0" [a_py; binary_bin].
Definition test_options : StitchOptions :=
  with_gitignore (default_options test_root "/tmp/pytest/test_run_tmp0") false.

(** A project with a directory nobody may enter ([locked], mode 000)
    and a link into it: the link is there, what it leads to cannot be
    looked at. *)
Definition locked : Path :=
  mkPath "locked" false (Dir false [text_file "in.txt" "secret"]).
Definition locked_link : Path := mkPath "lnk" true Denied.
Definition drift_root : Path := directory "proj" [a_py; locked_link; locked].
Definition drift_options : StitchOptions :=
  with_gitignore (default_options drift_root "/tmp/proj") false.

Definition nine_bytes : list byte := list_byte_of_string "123456789".
Definition eleven_bytes : list byte := list_byte_of_string "12345678901".

Definition lib_py : Path := text_file "lib.py" "x = 1".

(** A link to a directory. *)
Definition vendor : Path := mkPath "vendor" true (Dir true [lib_py]).

(** A small repository with a subdirectory, a hidden directory, a
    dangling link, a FIFO, an unreadable file and a linked directory. *)
Definition sample_entries : list Path :=
  [ text_file "README.md" ("# Sample" ++ nl);
    directory "src"
      [ text_file "main.py" "import sys";
        directory "pkg" [ text_file "util.c" ("int x;" ++ nl) ] ];
    directory ".cache" [ text_file "blob" "cached" ];
    mkPath "dangling" true Absent;
    mkPath "pipe" false (Special (Ok []));
    mkPath "secret.txt" false (Reg false []);
    mkPath "nine.txt" false (Reg true nine_bytes);
    mkPath "eleven.txt" false (Reg true eleven_bytes);
    vendor ].

Definition sample_root : Path := directory "repo" sample_entries.

Definition sample_options : StitchOptions :=
  with_gitignore (default_options sample_root "/home/dev/repo") false.


Definition sample_clock : string := "2024-01-01 00:00:00".

(** The stitcher [__init__] builds for the sample repository on a host
    without [pathspec]. *)
Definition sample_stitcher (opts : StitchOptions) : Stitcher :=
  mkStitcher opts (root opts)
             (_MiniSpec (DEFAULT_GLOBAL_IGNORES ++ extra_ignores opts))
             sample_clock.

(** ** Ignore files

    The three line endings text mode recognises. *)
Definition line_endings : list string :=
  [nl; String "013" nl; String "013" EmptyString].

(** A pattern that can stand on a line of its own: ASCII text, not
    blank, and without line feed or carriage return. *)
Definition pattern_line (p : string) : Prop :=
  forallb isspace (chars p) = false
  /\ ~ In "010"%char (chars p) /\ ~ In "013"%char (chars p)
  /\ ascii_text p = true.

(** The text of a file of lines, each with its line ending, and possibly
    a last line without one. *)
Definition ignore_file_text (ls : list (string * string))
    (final : option string) : string :=
  fold_right (fun pe rest => fst pe ++ snd pe ++ rest)
             (match final with Some p => p | None => "" end) ls.

(** The options with other values for the four that say where and how
    the result is delivered. *)
Definition with_delivery (opts : StitchOptions) (out : option string)
    (stdout relative quiet_ : bool) : StitchOptions :=
  mkOptions (root opts) (root_resolved opts) out stdout
            (fmt opts) (gitignore opts) (use_gitignore opts) (preset opts)
            (extra_ignores opts) (include_hidden opts) (max_file_size opts)
            (follow_symlinks opts) relative (encoding opts) quiet_.

(* ================================================================== *)
(** * Command line                                                     *)
(* ================================================================== *)

(** The namespace [parser.parse_args] returns; [args_root_resolved] is
    what the root prints as once resolved. *)
Record Namespace : Type := mkNamespace {
  args_root : Path;
  args_root_resolved : string;
  args_output : option string;
  args_stdout : bool;
  args_fmt : string;
  args_gitignore : option Path;
  args_no_gitignore : bool;
  args_preset : option string;
  args_extra_ignores : list string;
  args_include_hidden : bool;
  args_max_file_size : string;
  args_follow_symlinks : bool;
  args_absolute_paths : bool;
  args_encoding : string;
  args_quiet : bool;
  args_version : bool
}.

(** What a run leaves behind: the text sent to the two streams and the
    files written, the latest first. *)
Record Streams : Type := mkStreams {
  sys_stdout : string;
  sys_stderr : string;
  written : list (string * string)
}.

Definition print (w : Streams) (s : string) : Streams :=
  mkStreams (sys_stdout w ++ s ++ nl) (sys_stderr w) (written w).

Definition print_stderr (w : Streams) (s : string) : Streams :=
  mkStreams (sys_stdout w) (sys_stderr w ++ s ++ nl) (written w).

Definition stdout_write_ (w : Streams) (s : string) : Streams :=
  mkStreams (sys_stdout w ++ s) (sys_stderr w) (written w).

(** [str(e)] for the errors the stitcher raises itself, whose messages
    are the fixed part, a colon and the value. *)
Definition str_of_exn (host_message : exn -> string) (e : exn) : string :=
  match e with
  | ValueError what arg => what ++ ": " ++ arg
  | _ => host_message e
  end.

(** [str(int(n))] *)
Definition int_str (n : Z) : string := NilEmpty.string_of_int (Z.to_int n).

(** The [StitchOptions] built from the arguments. *)
Definition options_of (args : Namespace) (size : Z) : StitchOptions :=
  mkOptions (args_root args) (args_root_resolved args) (args_output args)
            (args_stdout args) (args_fmt args) (args_gitignore args)
            (negb (args_no_gitignore args)) (args_preset args)
            (args_extra_ignores args) (args_include_hidden args) size
            (args_follow_symlinks args) (negb (args_absolute_paths args))
            (args_encoding args) (args_quiet args).

Section Cli.

(** The host: as for the stitcher, and the version of the package, the
    working directory, the time in seconds, the messages of the errors
    of the host, and what writing does.  [write_text out text] is
    [out.write_text(text, encoding="utf-8")]: how the call ends, and
    what the file holds afterwards when the call got as far as creating
    or emptying it.  [stdout_write text] is [sys.stdout.write(text)]:
    how the call ends, and what of the text reached the stream.  A
    [print] of one line is taken to succeed. *)
Variable pathspec : option (list string -> exc (string -> bool)).
Variable decode : string -> string -> list byte -> exc string.
Variable clock : string.
Variable __version__ : string.
Variable cwd : string.
Variable time_time : Z.
Variable write_text : string -> string -> exc unit * option string.
Variable stdout_write : string -> exc unit * string.
Variable host_message : exn -> string.

(** [Path.cwd() / n] *)
Definition cwd_child (n : string) : string :=
  if String.eqb cwd "/" then "/" ++ n else cwd ++ "/" ++ n.

(** The path written to when the options name none. *)
Definition default_output (opts : StitchOptions) : string :=
  let suffix := if String.eqb (fmt opts) "md" then ".md" else ".txt" in
  cwd_child ("contextstitch-" ++ int_str time_time ++ suffix).

(** The files written, after [out.write_text(text)]. *)
Definition after_write (w : Streams) (out : string) (left : option string)
  : Streams :=
  match left with
  | Some held => mkStreams (sys_stdout w) (sys_stderr w) ((out, held) :: written w)
  | None => w
  end.

(** The body of the [try] block of [main]. *)
Definition main_try (opts : StitchOptions) (w : Streams) : Streams * exc Z :=
  match __init__ pathspec decode clock opts with
  | Raise e => (w, Raise e)
  | Ok st =>
      let content := build decode st in
      if to_stdout opts then
        let (r, sent) := stdout_write content in
        (stdout_write_ w sent, _ <- r ;; Ok 0)
      else
        let out :=
          match output opts with
          | Some p => p
          | None => default_output opts
          end in
        let (r, left) := write_text out content in
        let w := after_write w out left in
        match r with
        | Raise e => (w, Raise e)
        | Ok _ => (if quiet opts then w else print w ("Wrote " ++ out), Ok 0)
        end
  end.

(** [main], from the parsed arguments on: the streams and files after
    the run, and the exit status or the error that escapes. *)
Definition main (args : Namespace) : Streams * exc Z :=
  let w := mkStreams "" "" [] in
  if args_version args then (print w __version__, Ok 0)
  else
    match parse_size (args_max_file_size args) (1024 * 1024) with
    | Raise e => (w, Raise e)
    | Ok size =>
        let opts := options_of args size in
        match main_try opts w with
        | (w', Ok status) => (w', Ok status)
        | (w', Raise e) =>
            (if args_quiet args then w'
             else print_stderr w' ("error: " ++ str_of_exn host_message e),
             Ok 1)
        end
    end.

End Cli.

(** The arguments of a run on the sample repository, with the defaults
    of the parser. *)
Definition sample_args : Namespace :=
  mkNamespace sample_root "/home/dev/repo" None false "md" None false None []
              false "1m" false false "utf-8" false false.

Definition with_stdout (args : Namespace) (b : bool) : Namespace :=
  mkNamespace (args_root args) (args_root_resolved args) (args_output args) b
              (args_fmt args) (args_gitignore args) (args_no_gitignore args)
              (args_preset args) (args_extra_ignores args)
              (args_include_hidden args) (args_max_file_size args)
              (args_follow_symlinks args) (args_absolute_paths args)
              (args_encoding args) (args_quiet args) (args_version args).

Definition with_size (args : Namespace) (s : string) : Namespace :=
  mkNamespace (args_root args) (args_root_resolved args) (args_output args)
              (args_stdout args) (args_fmt args) (args_gitignore args)
              (args_no_gitignore args) (args_preset args)
              (args_extra_ignores args) (args_include_hidden args) s
              (args_follow_symlinks args) (args_absolute_paths args)
              (args_encoding args) (args_quiet args) (args_version args).

(** A host without [pathspec] on which every write succeeds. *)
Definition sample_main (args : Namespace) : Streams * exc Z :=
  main None ascii_codec sample_clock "0.1.0" "/home/dev" 1700000000
       (fun _ text => (Ok tt, Some text)) (fun text => (Ok tt, text))
       (fun _ => "") args.

(** A pattern without wildcard: no star, question mark or bracket. *)
Definition plain_pattern (p : string) : bool :=
  forallb (fun c => negb (Ascii.eqb c "*" || Ascii.eqb c "?" || Ascii.eqb c "["))
          (chars p).

(** No name occurs twice in the list. *)
Fixpoint no_repeat (l : list string) : bool :=
  match l with
  | [] => true
  | x :: t => negb (existsb (String.eqb x) t) && no_repeat t
  end.

(** No two entries of a directory have the same name, at any depth. *)
Fixpoint distinct_names (p : Path) : bool :=
  match p with
  | mkPath _ _ (Dir _ entries) =>
      no_repeat (map name entries) && forallb distinct_names entries
  | _ => true
  end.

(** What the files below one entry of a directory are collected under:
    the part of [visible_files] that comes from the entry. *)
Definition below_entry (self : Stitcher) (rel : string) (e : Path)
  : list (Path * string) :=
  if _should_skip self e (test_rel rel e) then []
  else if is_dir e then visible_files self e (entry_rel rel e)
  else [(e, entry_rel rel e)].

(** ** Construction

    The ignore file [_build_pathspec] consults. *)
Definition gi_path (opts : StitchOptions) (rt : Path) : Path :=
  match gitignore opts with
  | Some g => g
  | None => child rt ".gitignore"
  end.

(** No preset, or one of the two the table has. *)
Definition known_preset (opts : StitchOptions) : Prop :=
  preset opts = None \/ preset opts = Some ""
  \/ exists p, preset opts = Some p
               /\ (lower p = "python" \/ lower p = "node").

(** A path that leads to a regular file, to a directory or to nothing:
    it can be looked at, and opening it returns at once. *)
Definition ordinary (p : Path) : bool :=
  match target p with
  | Reg _ _ | Dir _ _ | Absent | Loop => true
  | Special _ | Denied => false
  end.

(** The options without ignore file and extra patterns: what is left
    are the built-in patterns and those of the preset. *)
Definition base_options (opts : StitchOptions) : StitchOptions :=
  with_extra_ignores (with_gitignore opts false) [].




(* ================================================================== *)
(** * Proofs                                                           *)
(* ================================================================== *)

Unset Implicit Arguments.

#[local] Arguments Ascii.eqb : simpl never.
#[local] Arguments String.eqb : simpl never.

(* ================================================================== *)
(** * Facts about text                                                 *)
(* ================================================================== *)

Section TextFacts.

Lemma append_assoc (a b c : string) : (a ++ b) ++ c = a ++ (b ++ c).
Proof. induction a as [|x a IH]; simpl; [reflexivity | now rewrite IH]. Qed.

Lemma append_nil_r (s : string) : s ++ "" = s.
Proof. induction s as [|x s IH]; simpl; [reflexivity | now rewrite IH]. Qed.

Lemma chars_app (a b : string) : chars (a ++ b) = (chars a ++ chars b)%list.
Proof. induction a as [|x a IH]; simpl; [reflexivity | now rewrite IH]. Qed.

Lemma str_chars (s : string) : str (chars s) = s.
Proof. apply string_of_list_ascii_of_string. Qed.

Lemma chars_str (l : list ascii) : chars (str l) = l.
Proof. apply list_ascii_of_string_of_list_ascii. Qed.

Lemma replace_char_same (c : ascii) (s : string) : replace_char c c s = s.
Proof.
  induction s as [|x s IH]; simpl; [reflexivity|].
  rewrite IH. destruct (Ascii.eqb_spec x c); congruence.
Qed.

(** A text that ends with a slash holds a slash. *)
Lemma endswith_slash_last (s : string) :
  endswith s "/" = true -> exists l, chars s = (l ++ ["/"%char])%list.
Proof.
  unfold endswith. simpl.
  destruct (rev (chars s)) as [|c r] eqn:E; simpl; [discriminate|].
  destruct (Ascii.eqb_spec "/" c); [|discriminate].
  intros _. subst c. exists (rev r).
  rewrite <- (rev_involutive (chars s)), E. reflexivity.
Qed.

Lemma valid_name_nonempty (n : string) : valid_name n = true -> n <> "".
Proof.
  unfold valid_name. intros H E. subst n. discriminate.
Qed.

Lemma valid_name_no_slash (n : string) :
  valid_name n = true -> ~ In "/"%char (chars n).
Proof.
  unfold valid_name. intros H Hin.
  apply andb_true_iff in H as [_ H]. apply negb_true_iff in H.
  assert (existsb (Ascii.eqb "/") (chars n) = true) as E.
  { apply existsb_exists. exists "/"%char. split; [assumption|]. apply Ascii.eqb_refl. }
  congruence.
Qed.

Lemma valid_name_startswith (n : string) :
  valid_name n = true -> startswith n "/" = false.
Proof.
  intros H. destruct n as [|c n]; [reflexivity|]. simpl.
  destruct (Ascii.eqb_spec "/" c) as [<-|]; [|reflexivity].
  exfalso. apply (valid_name_no_slash _ H). simpl. now left.
Qed.

Lemma endswith_name (a n : string) :
  valid_name n = true -> endswith (a ++ n) "/" = false.
Proof.
  intros H. destruct (endswith (a ++ n) "/") eqn:E; [|reflexivity].
  exfalso. apply endswith_slash_last in E as [l E].
  rewrite chars_app in E.
  assert (chars n <> []) as Hne.
  { intros Hn. apply (valid_name_nonempty _ H).
    rewrite <- (str_chars n), Hn. reflexivity. }
  destruct (exists_last Hne) as [l' [c Hc]].
  rewrite Hc, app_assoc in E. apply app_inj_tail in E as [_ E].
  apply (valid_name_no_slash _ H). rewrite Hc, E.
  apply in_or_app. right. now left.
Qed.

End TextFacts.

(* ================================================================== *)
(** * Shell patterns: the loops end within their fuel                  *)
(* ================================================================== *)

Section GlobFacts.

(** The translation of a pattern does not depend on the fuel, once
    there is as much of it as the pattern is long. *)
Lemma translate_from_fuel (fuel : nat) :
  forall fuel' prev pat,
    (List.length pat <= fuel)%nat -> (List.length pat <= fuel')%nat ->
    translate_from fuel prev pat = translate_from fuel' prev pat.
Proof.
  induction fuel as [|fuel IH]; intros fuel' prev pat H H'.
  - destruct pat; [|cbn in H; lia]. now destruct fuel'.
  - destruct pat as [|c rest]; [now destruct fuel'|].
    destruct fuel' as [|fuel']; [cbn in H'; lia|].
    cbn in H, H'. cbn [translate_from].
    destruct (Ascii.eqb c "*").
    { destruct prev; [|f_equal]; apply IH; lia. }
    destruct (Ascii.eqb c "?"); [f_equal; apply IH; lia|].
    destruct (Ascii.eqb c "["); [|f_equal; apply IH; lia].
    destruct (set_end rest) as [j|] eqn:E; [|f_equal; apply IH; lia].
    f_equal. apply IH; rewrite length_skipn; lia.
Qed.

Lemma find_hyphen_bound (l : list ascii) :
  forall pos k k',
    find_hyphen l pos k = Some k' ->
    (k <= k' /\ pos <= k' < pos + List.length l)%nat.
Proof.
  induction l as [|c l IH]; intros pos k k' H; cbn in H; [discriminate|].
  destruct ((k <=? pos)%nat && Ascii.eqb c "-") eqn:E.
  - injection H as <-. apply andb_true_iff in E as [E _].
    apply Nat.leb_le in E. cbn. lia.
  - apply IH in H. cbn. lia.
Qed.

Lemma find_hyphen_none (l : list ascii) (k : nat) :
  (List.length l <= k)%nat -> find_hyphen l 0 k = None.
Proof.
  intros H. destruct (find_hyphen l 0 k) as [k'|] eqn:E; [|reflexivity].
  apply find_hyphen_bound in E. lia.
Qed.

(** Nor does the cutting of a set at its hyphens. *)
Lemma cut_chunks_fuel (stuff : list ascii) (fuel : nat) :
  forall fuel' i k,
    (List.length stuff <= k + fuel)%nat ->
    (List.length stuff <= k + fuel')%nat ->
    cut_chunks fuel stuff i k = cut_chunks fuel' stuff i k.
Proof.
  induction fuel as [|fuel IH]; intros fuel' i k H H'.
  - cbn [cut_chunks]. destruct fuel' as [|fuel']; [reflexivity|].
    cbn [cut_chunks]. now rewrite find_hyphen_none by lia.
  - cbn [cut_chunks].
    destruct (find_hyphen stuff 0 k) as [k'|] eqn:E.
    + pose proof (find_hyphen_bound _ _ _ _ E) as Hb.
      destruct fuel' as [|fuel']; [lia|].
      cbn [cut_chunks]. rewrite E.
      now rewrite (IH fuel' (S k') (k' + 3)%nat) by lia.
    + destruct fuel' as [|fuel']; [reflexivity|].
      cbn [cut_chunks]. now rewrite E.
Qed.

End GlobFacts.

(* ================================================================== *)
(** * Facts about lists and sorting                                    *)
(* ================================================================== *)

Section ListFacts.
Variables T U : Type.

Lemma insert_sorted_perm (le : T -> T -> bool) (x : T) (l : list T) :
  Permutation (insert_sorted le x l) (x :: l).
Proof.
  induction l as [|y l IH]; simpl; [reflexivity|].
  destruct (le x y); [reflexivity|].
  rewrite IH. apply perm_swap.
Qed.

Lemma sorted_perm (le : T -> T -> bool) (l : list T) :
  Permutation (sorted le l) l.
Proof.
  induction l as [|x l IH]; simpl; [reflexivity|].
  rewrite insert_sorted_perm. now constructor.
Qed.

(** Sorting pairs on their first component is sorting the first
    components. *)
Lemma sorted_attach (le : T -> T -> bool) (f : T -> U) (l : list T) :
  sorted (fun a b => le (fst a) (fst b)) (map (fun e => (e, f e)) l)
  = map (fun e => (e, f e)) (sorted le l).
Proof.
  induction l as [|x l IH]; simpl; [reflexivity|].
  rewrite IH. generalize (sorted le l) as s. clear IH.
  induction s as [|y s IH]; simpl; [reflexivity|].
  destruct (le x y); simpl; [reflexivity | now rewrite IH].
Qed.

Lemma filter_attach (keep : T -> bool) (f : T -> U) (l : list T) :
  filter (fun ek => keep (fst ek)) (map (fun e => (e, f e)) l)
  = map (fun e => (e, f e)) (filter keep l).
Proof.
  induction l as [|x l IH]; simpl; [reflexivity|].
  destruct (keep x); simpl; now rewrite IH.
Qed.

Lemma flat_map_filter (keep : T -> bool) (f : T -> list U) (l : list T) :
  flat_map f (filter keep l) = flat_map (fun x => if keep x then f x else []) l.
Proof.
  induction l as [|x l IH]; simpl; [reflexivity|].
  destruct (keep x); simpl; now rewrite IH.
Qed.

Lemma Permutation_flat_map_ext (f g : T -> list U) (l : list T) :
  (forall x, In x l -> Permutation (f x) (g x)) ->
  Permutation (flat_map f l) (flat_map g l).
Proof.
  induction l as [|x l IH]; simpl; intros H; [reflexivity|].
  apply Permutation_app; [apply H; now left|].
  apply IH. intros y Hy. apply H. now right.
Qed.

Lemma is_nil_map (f : T -> U) (l : list T) : is_nil (map f l) = is_nil l.
Proof. now destruct l. Qed.

Lemma flat_map_ext_in (f g : T -> list U) (l : list T) :
  (forall x, In x l -> f x = g x) -> flat_map f l = flat_map g l.
Proof.
  induction l as [|x l IH]; simpl; intros H; [reflexivity|].
  rewrite (H x) by now left. f_equal. apply IH. intros y Hy. apply H. now right.
Qed.

End ListFacts.

(** Induction on a path with the entries of a directory at hand. *)
Lemma Path_nested_ind (P : Path -> Prop) :
  (forall n l t,
     match t with Dir _ es => Forall P es | _ => True end ->
     P (mkPath n l t)) ->
  forall p, P p.
Proof.
  intros H. fix IH 1. intros [n l t]. apply H.
  destruct t as [| | |b es| |]; try exact I.
  induction es as [|e es IHes]; constructor; [apply IH | exact IHes].
Qed.

(* ================================================================== *)
(** * The two traversals                                               *)
(* ================================================================== *)

Section Traversals.
Variable self : Stitcher.


(** The keys are computed exactly when every entry can be looked at. *)
Lemma sort_key_seen (x : Path) :
  sort_key x = (if denied x then Raise OSError
                else Ok (is_file x, lower (name x))).
Proof.
  unfold sort_key, pathlib.is_file, denied, is_file.
  destruct (target x); reflexivity.
Qed.

Lemma sort_keys_seen (l : list Path) :
  sort_keys l = (if existsb denied l then Raise OSError
                 else Ok (map (fun x => (is_file x, lower (name x))) l)).
Proof.
  induction l as [|x l IH]; [reflexivity|].
  cbn [sort_keys existsb map]. rewrite sort_key_seen, IH.
  destruct (denied x); [reflexivity|]. cbn [bind orb].
  destruct (existsb denied l); reflexivity.
Qed.

Lemma shown_level_seen rel children :
  shown_level self rel children
  = if existsb denied children then [] else level self rel children.
Proof.
  unfold shown_level. rewrite sort_keys_seen.
  destruct (existsb denied children); reflexivity.
Qed.

Lemma add_dir_unfold n l children rel pfx :
  add_dir self (mkPath n l (Dir true children)) rel pfx
  = render_visible
      (map (fun e => (e, add_dir self e)) (shown_level self rel children))
      rel pfx.
Proof.
  unfold shown_level. cbn [add_dir].
  destruct (sort_keys children); [|reflexivity].
  unfold level. rewrite <- (filter_attach _ _ (fun e => negb (_should_skip self e (test_rel rel e)))).
  rewrite <- sorted_attach. reflexivity.
Qed.

Lemma add_dir_entries_unfold n l children rel pfx :
  add_dir_entries self (mkPath n l (Dir true children)) rel pfx
  = render_visible_entries
      (map (fun e => (e, add_dir_entries self e))
           (shown_level self rel children))
      rel pfx.
Proof.
  unfold shown_level. cbn [add_dir_entries].
  destruct (sort_keys children); [|reflexivity].
  unfold level. rewrite <- (filter_attach _ _ (fun e => negb (_should_skip self e (test_rel rel e)))).
  rewrite <- sorted_attach. reflexivity.
Qed.

Lemma add_dir_other n l t rel pfx :
  match t with Dir true _ => False | _ => True end ->
  add_dir self (mkPath n l t) rel pfx = []
  /\ add_dir_entries self (mkPath n l t) rel pfx = []
  /\ visible_files self (mkPath n l t) rel = [].
Proof. destruct t as [| | |[] es| |]; simpl; intuition. Qed.

Lemma level_In rel children e :
  In e (level self rel children) ->
  In e children /\ _should_skip self e (test_rel rel e) = false.
Proof.
  unfold level. rewrite filter_In. intros [Hin Hk].
  split; [|now apply negb_true_iff].
  eapply Permutation_in; [apply sorted_perm | exact Hin].
Qed.

Lemma shown_level_In rel children e :
  In e (shown_level self rel children) ->
  In e children /\ _should_skip self e (test_rel rel e) = false.
Proof.
  unfold shown_level. destruct (sort_keys children); [|contradiction].
  apply level_In.
Qed.

(** The lines of the rendered tree are those of its named entries. *)
Lemma add_dir_entries_lines (p : Path) :
  forall rel pfx,
    map shown_line (add_dir_entries self p rel pfx) = add_dir self p rel pfx.
Proof.
  induction p as [n l t IH] using Path_nested_ind.
  intros rel pfx.
  destruct t as [| | |[] es| |]; try reflexivity.
  rewrite add_dir_unfold, add_dir_entries_unfold.
  assert (Forall (fun e => forall rel pfx,
                    map shown_line (add_dir_entries self e rel pfx)
                    = add_dir self e rel pfx) (shown_level self rel es)) as Hl.
  { apply Forall_forall. intros e He. apply shown_level_In in He as [He _].
    rewrite Forall_forall in IH. now apply IH. }
  revert Hl. generalize (shown_level self rel es) as vs.
  induction vs as [|e vs IHvs]; intros Hl; [reflexivity|].
  inversion Hl as [|? ? He Hvs]; subst.
  cbn [map render_visible render_visible_entries].
  rewrite map_app, IHvs by assumption. rewrite !is_nil_map.
  f_equal. destruct (is_dir e); cbn [map shown_line]; [|reflexivity].
  now rewrite He.
Qed.

Lemma leaves_of_app (a b : list shown) :
  leaves_of (a ++ b) = (leaves_of a ++ leaves_of b)%list.
Proof. unfold leaves_of. now rewrite filter_app, map_app. Qed.

Lemma visible_files_unfold n l children rel :
  visible_files self (mkPath n l (Dir true children)) rel
  = flat_map
      (fun e =>
         if _should_skip self e (test_rel rel e) then []
         else if is_dir e then visible_files self e (entry_rel rel e)
         else [(e, entry_rel rel e)])
      children.
Proof. reflexivity. Qed.

Lemma all_seen_entries n l b es :
  all_seen (mkPath n l (Dir b es)) = true ->
  existsb denied es = false /\ forall e, In e es -> all_seen e = true.
Proof.
  cbn [all_seen]. rewrite forallb_forall. intros H. split.
  - destruct (existsb denied es) eqn:E; [|reflexivity].
    apply existsb_exists in E as [e [He Hd]].
    apply H in He. rewrite Hd in He. discriminate He.
  - intros e He. apply H in He. now apply andb_true_iff in He.
Qed.

(** The leaves of the rendered tree are the visible files, up to the
    order of the siblings, where every entry can be looked at. *)
Lemma tree_leaves_visible (p : Path) :
  forall rel pfx,
    all_seen p = true ->
    Permutation (leaves_of (add_dir_entries self p rel pfx))
                (visible_files self p rel).
Proof.
  induction p as [n l t IH] using Path_nested_ind.
  intros rel pfx Hseen.
  destruct t as [| | |[] es| |]; try reflexivity.
  rewrite add_dir_entries_unfold, visible_files_unfold.
  destruct (all_seen_entries _ _ _ _ Hseen) as [Hkeys Hsub0].
  rewrite shown_level_seen, Hkeys.
  rewrite Forall_forall in IH.
  transitivity
    (flat_map (fun e => if is_dir e then visible_files self e (entry_rel rel e)
                        else [(e, entry_rel rel e)])
              (level self rel es)).
  - assert (forall e, In e (level self rel es) -> In e es) as Hsub.
    { intros e He. now apply level_In in He. }
    revert Hsub. generalize (level self rel es) as vs.
    induction vs as [|e vs IHvs]; intros Hsub; [reflexivity|].
    cbn [map render_visible_entries flat_map].
    rewrite leaves_of_app.
    apply Permutation_app; [|apply IHvs; intros; apply Hsub; now right].
    destruct (is_dir e) eqn:Ed.
    + unfold leaves_of at 1. cbn [filter shown_path]. rewrite Ed.
      cbn [negb]. apply IH; [|apply Hsub0]; apply Hsub; now left.
    + unfold leaves_of. cbn [filter shown_path map shown_rel]. rewrite Ed.
      reflexivity.
  - unfold level. rewrite flat_map_filter.
    etransitivity; [apply Permutation_flat_map, sorted_perm|].
    apply Permutation_flat_map_ext. intros e _.
    destruct (_should_skip self e (test_rel rel e)); reflexivity.
Qed.

(** On a tree of file names the two ways of building a relative path
    agree. *)
Lemma sub_rel_entry_rel (rel : string) (e : Path) :
  endswith rel "/" = false -> valid_name (name e) = true ->
  sub_rel rel e = entry_rel rel e.
Proof.
  intros Hrel Hn. unfold sub_rel, entry_rel.
  destruct (String.eqb rel "") eqn:E; [reflexivity|].
  unfold os_path_join. rewrite (valid_name_startswith _ Hn), Hrel, E.
  reflexivity.
Qed.

Lemma entry_rel_ok (rel : string) (e : Path) :
  valid_name (name e) = true -> endswith (entry_rel rel e) "/" = false.
Proof.
  intros Hn. unfold entry_rel. destruct (String.eqb rel "").
  - apply (endswith_name "" _ Hn).
  - rewrite <- append_assoc. now apply endswith_name.
Qed.

Lemma test_rel_dir (rel : string) (e : Path) :
  is_dir e = true -> test_rel rel e = entry_rel rel e ++ "/".
Proof. unfold test_rel. now intros ->. Qed.

Lemma test_rel_file (rel : string) (e : Path) :
  is_dir e = false -> test_rel rel e = entry_rel rel e.
Proof. unfold test_rel. intros ->. apply append_nil_r. Qed.

(** The two [try] blocks: the size check answers yes for a regular
    file above the limit and for an entry that cannot be looked at (the
    handler), the link check for a link that is not followed. *)
Lemma size_check_returns (e : Path) :
  returns_true (size_check self e)
  = match target e with
    | Reg _ data => len data >? max_file_size (o self)
    | Denied => true
    | _ => false
    end.
Proof.
  unfold size_check, pathlib.is_file, stat, returns_true, len.
  destruct (target e); reflexivity.
Qed.

Lemma symlink_check_returns (e : Path) :
  returns_true (symlink_check self e)
  = (is_symlink e && negb (follow_symlinks (o self)))
    || (negb (is_symlink e) && denied e).
Proof.
  unfold symlink_check, pathlib.is_symlink, returns_true, denied.
  destruct (is_symlink e); cbn [bind andb negb orb].
  - now rewrite orb_false_r.
  - destruct (target e); reflexivity.
Qed.

(** The filter, check by check. *)
Lemma should_skip_checks (e : Path) (rel : string) :
  _should_skip self e rel
  = (negb (include_hidden (o self)) && is_hidden rel)
    || _is_ignored self rel
    || denied e
    || match target e with
       | Reg _ data => len data >? max_file_size (o self)
       | _ => false
       end
    || (is_symlink e && negb (follow_symlinks (o self))).
Proof.
  unfold _should_skip. rewrite size_check_returns, symlink_check_returns.
  destruct (negb (include_hidden (o self)) && is_hidden rel); [reflexivity|].
  destruct (_is_ignored self rel); [reflexivity|]. cbn [orb].
  unfold denied.
  destruct (target e) as [b data| | | | |];
    try destruct (len data >? max_file_size (o self));
    destruct (is_symlink e), (follow_symlinks (o self)); reflexivity.
Qed.

(** A path that passes the filter is not a link that is not followed. *)
Lemma should_skip_false_link (e : Path) (rel : string) :
  _should_skip self e rel = false ->
  follow_symlinks (o self) || negb (is_symlink e) = true.
Proof.
  rewrite should_skip_checks. intros H.
  apply orb_false_iff in H as [_ H].
  destruct (is_symlink e), (follow_symlinks (o self)); simpl in *; congruence.
Qed.

Lemma wf_names_entries n l b es :
  wf_names (mkPath n l (Dir b es)) = true ->
  forall e, In e es -> valid_name (name e) = true /\ wf_names e = true.
Proof.
  simpl. rewrite forallb_forall. intros H e He.
  now apply andb_true_iff, H.
Qed.

Lemma os_walk_unfold (A : Type) followlinks keep (visit : string -> list Path -> list A)
    n l entries dir_rel :
  os_walk followlinks keep visit (mkPath n l (Dir true entries)) dir_rel
  = (visit dir_rel (filter (fun e => negb (is_dir e)) entries)
     ++ flat_map
          (fun d =>
             if is_dir d && keep dir_rel d
                && (followlinks || negb (is_symlink d))
             then os_walk followlinks keep visit d (sub_rel dir_rel d)
             else [])
          entries)%list.
Proof. reflexivity. Qed.

(** The content collector yields the visible files, up to the order. *)
Lemma iter_files_visible (p : Path) :
  forall rel,
    wf_names p = true -> endswith rel "/" = false ->
    Permutation
      (os_walk (follow_symlinks (o self)) (keep_dir self) (yield_files self) p rel)
      (visible_files self p rel).
Proof.
  induction p as [n l t IH] using Path_nested_ind.
  intros rel Hwf Hrel.
  destruct t as [| | |[] es| |]; try reflexivity.
  rewrite os_walk_unfold, visible_files_unfold.
  rewrite Forall_forall in IH.
  pose proof (wf_names_entries _ _ _ _ Hwf) as Hes. clear Hwf.
  induction es as [|e es IHes]; [reflexivity|].
  assert (valid_name (name e) = true /\ wf_names e = true) as [Hn Hw]
      by (apply Hes; now left).
  specialize (IHes (fun x Hx => IH x (or_intror Hx))
                   (fun x Hx => Hes x (or_intror Hx))).
  specialize (IH e (or_introl eq_refl) (entry_rel rel e) Hw (entry_rel_ok rel e Hn)).
  cbn [filter flat_map]. unfold keep_dir.
  rewrite (sub_rel_entry_rel _ _ Hrel Hn).
  destruct (is_dir e) eqn:Ed; cbn [negb andb].
  - rewrite (test_rel_dir _ _ Ed).
    destruct (_should_skip self e (entry_rel rel e ++ "/")) eqn:Es; cbn [negb andb].
    + exact IHes.
    + rewrite (should_skip_false_link _ _ Es).
      rewrite Permutation_app_comm, <- app_assoc.
      apply Permutation_app; [exact IH|].
      rewrite Permutation_app_comm. exact IHes.
  - unfold yield_files at 1. cbn [flat_map].
    rewrite (sub_rel_entry_rel _ _ Hrel Hn), (test_rel_file _ _ Ed).
    rewrite replace_char_same, <- app_assoc.
    apply Permutation_app; [|exact IHes].
    destruct (_should_skip self e (entry_rel rel e)); reflexivity.
Qed.

Lemma keep_dir_test_rel (rel : string) (d : Path) :
  endswith rel "/" = false -> valid_name (name d) = true -> is_dir d = true ->
  keep_dir self rel d = negb (_should_skip self d (test_rel rel d)).
Proof.
  intros Hrel Hn Hd. unfold keep_dir.
  now rewrite (sub_rel_entry_rel _ _ Hrel Hn), (test_rel_dir _ _ Hd).
Qed.

(** Whatever the loop body looks at, it looks at it in a directory that
    was reached. *)
Lemma os_walk_sound (A : Type) (visit : string -> list Path -> list A) (p : Path) :
  forall rel,
    wf_names p = true -> endswith rel "/" = false -> reached self p rel ->
    forall x,
      In x (os_walk (follow_symlinks (o self)) (keep_dir self) visit p rel) ->
      exists n l es r,
        reached self (mkPath n l (Dir true es)) r
        /\ In x (visit r (nondirs es)).
Proof.
  induction p as [n l t IH] using Path_nested_ind.
  intros rel Hwf Hrel Hreach x Hx.
  destruct t as [| | |[] es| |]; try contradiction.
  rewrite os_walk_unfold in Hx. apply in_app_or in Hx as [Hx|Hx].
  - now exists n, l, es, rel.
  - apply in_flat_map in Hx as [d [Hd Hx]].
    destruct (wf_names_entries _ _ _ _ Hwf d Hd) as [Hn Hw].
    destruct (is_dir d) eqn:Ed; [|contradiction].
    rewrite (keep_dir_test_rel _ _ Hrel Hn Ed) in Hx.
    destruct (_should_skip self d (test_rel rel d)) eqn:Es; [contradiction|].
    cbn [negb andb] in Hx.
    destruct (follow_symlinks (o self) || negb (is_symlink d)); [|contradiction].
    rewrite (sub_rel_entry_rel _ _ Hrel Hn) in Hx.
    rewrite Forall_forall in IH.
    apply (IH d Hd (entry_rel rel d) Hw (entry_rel_ok rel d Hn)); [|exact Hx].
    eapply reached_sub; eassumption.
Qed.

Lemma reached_wf (p : Path) (rel : string) :
  wf_names (self_root self) = true -> reached self p rel ->
  wf_names p = true /\ endswith rel "/" = false.
Proof.
  intros Hwf H. induction H as [|n l es rel d Hp [IHw IHr] Hd Ed Es].
  - now split.
  - destruct (wf_names_entries _ _ _ _ IHw d Hd) as [Hn Hw].
    split; [exact Hw | now apply entry_rel_ok].
Qed.

(** Conversely the walk gets to every directory that was reached. *)
Lemma os_walk_complete (A : Type) (visit : string -> list Path -> list A)
    (p : Path) (rel : string) :
  wf_names (self_root self) = true -> reached self p rel ->
  forall x,
    In x (os_walk (follow_symlinks (o self)) (keep_dir self) visit p rel) ->
    In x (os_walk (follow_symlinks (o self)) (keep_dir self) visit
                  (self_root self) "").
Proof.
  intros Hwf H. induction H as [|n l es rel d Hp IH Hd Ed Es]; [tauto|].
  intros x Hx. apply IH. rewrite os_walk_unfold.
  apply in_or_app. right. apply in_flat_map. exists d. split; [exact Hd|].
  destruct (reached_wf _ _ Hwf Hp) as [Hw Hrel].
  destruct (wf_names_entries _ _ _ _ Hw d Hd) as [Hn _].
  rewrite (keep_dir_test_rel _ _ Hrel Hn Ed), Es, Ed.
  rewrite (should_skip_false_link _ _ Es). cbn [negb andb].
  now rewrite (sub_rel_entry_rel _ _ Hrel Hn).
Qed.

Lemma yield_files_In (rel : string) (es : list Path) (f : Path) (r : string) :
  In (f, r) (yield_files self rel es) <->
  In f es /\ r = sub_rel rel f /\ _should_skip self f r = false.
Proof.
  unfold yield_files. rewrite in_flat_map. split.
  - intros [e [He H]]. rewrite replace_char_same in H.
    destruct (_should_skip self e (sub_rel rel e)) eqn:Es; [contradiction|].
    destruct H as [H|[]]. injection H as -> <-. auto.
  - intros [Hf [-> Hs]]. exists f. split; [exact Hf|].
    rewrite replace_char_same, Hs. now left.
Qed.

(** Every yielded file passed the filter under the path it is yielded
    with, and is not a directory. *)
Lemma iter_files_pass (p : Path) :
  forall rel f r,
    In (f, r) (os_walk (follow_symlinks (o self)) (keep_dir self)
                       (yield_files self) p rel) ->
    is_dir f = false /\ _should_skip self f r = false.
Proof.
  induction p as [n l t IH] using Path_nested_ind.
  intros rel f r Hx.
  destruct t as [| | |[] es| |]; try contradiction.
  rewrite os_walk_unfold in Hx. apply in_app_or in Hx as [Hx|Hx].
  - apply yield_files_In in Hx as [Hf [_ Hs]]. split; [|exact Hs].
    apply filter_In in Hf as [_ Hf]. now apply negb_true_iff.
  - apply in_flat_map in Hx as [d [Hd Hx]].
    rewrite Forall_forall in IH.
    destruct (is_dir d && keep_dir self rel d
              && (follow_symlinks (o self) || negb (is_symlink d)));
      [|contradiction].
    exact (IH d Hd _ _ _ Hx).
Qed.

(** The line of an entry ends with its name, and with a slash after it
    when the entry is a directory. *)
Lemma tree_entries_line (p : Path) :
  forall rel pfx s,
    In s (add_dir_entries self p rel pfx) ->
    exists lead,
      shown_line s
      = lead ++ name (shown_path s)
        ++ (if is_dir (shown_path s) then "/" else "").
Proof.
  induction p as [n l t IH] using Path_nested_ind.
  intros rel pfx s Hs.
  destruct t as [| | |[] es| |]; try contradiction.
  rewrite add_dir_entries_unfold in Hs.
  rewrite Forall_forall in IH.
  assert (forall e, In e (shown_level self rel es) -> In e es) as Hl
      by (intros e He; now apply shown_level_In in He).
  revert Hl Hs. generalize (shown_level self rel es) as vs.
  induction vs as [|e vs IHvs]; intros Hl Hs; [contradiction|].
  cbn [map render_visible_entries] in Hs.
  apply in_app_or in Hs as [Hs|Hs];
    [|apply IHvs; [intros; apply Hl; now right | exact Hs]].
  destruct (is_dir e) eqn:Ed.
  - destruct Hs as [<-|Hs]; [|exact (IH e (Hl e (or_introl eq_refl)) _ _ _ Hs)].
    cbn [shown_line shown_path]. rewrite Ed. eexists.
    rewrite <- append_assoc. reflexivity.
  - destruct Hs as [<-|[]]. cbn [shown_line shown_path]. rewrite Ed.
    eexists. rewrite append_nil_r, <- append_assoc. reflexivity.
Qed.

(** Every entry of the rendered tree passed the filter. *)
Lemma tree_entries_pass (p : Path) :
  forall rel pfx s,
    In s (add_dir_entries self p rel pfx) ->
    _should_skip self (shown_path s) (shown_test_rel s) = false.
Proof.
  induction p as [n l t IH] using Path_nested_ind.
  intros rel pfx s Hs.
  destruct t as [| | |[] es| |]; try contradiction.
  rewrite add_dir_entries_unfold in Hs.
  rewrite Forall_forall in IH.
  assert (forall e, In e (shown_level self rel es) ->
                    In e es /\ _should_skip self e (test_rel rel e) = false) as Hl
      by (intros e; apply shown_level_In).
  revert Hl Hs. generalize (shown_level self rel es) as vs.
  induction vs as [|e vs IHvs]; intros Hl Hs; [contradiction|].
  cbn [map render_visible_entries] in Hs.
  apply in_app_or in Hs as [Hs|Hs];
    [|apply IHvs; [intros; apply Hl; now right | exact Hs]].
  destruct (Hl e (or_introl eq_refl)) as [He Hk].
  destruct (is_dir e) eqn:Ed.
  - destruct Hs as [<-|Hs]; [|exact (IH e He _ _ _ Hs)].
    unfold shown_test_rel. cbn [shown_path shown_rel]. rewrite Ed.
    now rewrite <- (test_rel_dir _ _ Ed).
  - destruct Hs as [<-|[]].
    unfold shown_test_rel. cbn [shown_path shown_rel]. rewrite Ed.
    rewrite append_nil_r. now rewrite <- (test_rel_file _ _ Ed).
Qed.

End Traversals.

(* ================================================================== *)
(** * Facts about binary64 rounding                                    *)
(* ================================================================== *)

Section FloatFacts.

(** Rounding to the nearest integer is off by a half at most. *)
Lemma rne_error (p q : Z) :
  0 <= p -> 0 < q ->
  let m := rne p q in
  0 <= m /\ 2 * m * q <= 2 * p + q /\ 2 * p <= 2 * m * q + q.
Proof.
  intros Hp Hq. unfold rne.
  pose proof (Z.div_mod p q ltac:(lia)) as Hdm.
  pose proof (Z.mod_pos_bound p q Hq) as Hm.
  pose proof (Z.div_pos p q Hp Hq) as Hd.
  destruct (Z.compare_spec (2 * (p mod q)) q) as [E|E|E];
    [destruct (Z.even (p / q))|..]; cbn zeta; nia.
Qed.

Lemma floor_log2_ratio_le (p q : Z) :
  0 < p -> p <= q -> floor_log2_ratio p q <= 0.
Proof.
  intros Hp Hq. unfold floor_log2_ratio.
  pose proof (Z.log2_le_mono p q Hq).
  destruct (_ <? _); lia.
Qed.

(** The quotient of two counts, the first not above the second, as a
    double: a significand over a power of two that is 2^52 at least. *)
Lemma round_ratio_fraction (a b : Z) :
  0 < a -> a <= b ->
  exists m j,
    round_ratio false a b = Fin false m (- j)
    /\ 51 <= j /\ 0 <= m
    /\ exists M E, 2 ^ 52 <= E /\ M * 2 ^ j = m * E
                   /\ 2 * M * b <= 2 * a * E + b
                   /\ 2 * a * E <= 2 * M * b + b.
Proof.
  intros Ha Hab. unfold round_ratio.
  replace (a =? 0) with false by (symmetry; apply Z.eqb_neq; lia).
  pose proof (floor_log2_ratio_le a b Ha Hab) as HL.
  set (e := Z.max (floor_log2_ratio a b - 52) (-1074)).
  assert (-1074 <= e <= -52) as He by (unfold e; lia).
  replace (Z.max 0 (- e)) with (- e) by lia.
  replace (Z.max 0 e) with 0 by lia.
  rewrite Z.pow_0_r, Z.mul_1_r.
  set (E := 2 ^ (- e)).
  assert (2 ^ 52 <= E) as HE by (apply Z.pow_le_mono_r; lia).
  destruct (rne_error (a * E) b ltac:(nia) ltac:(lia)) as [Hm0 [Hm1 Hm2]].
  set (m := rne (a * E) b) in *.
  destruct (m =? 2 ^ 53) eqn:Em.
  - apply Z.eqb_eq in Em.
    replace (971 <? e + 1) with false by (symmetry; apply Z.ltb_ge; lia).
    exists (2 ^ 52), (- (e + 1)). split; [f_equal; lia|].
    split; [lia|]. split; [lia|].
    exists m, E. split; [exact HE|]. split; [|split; lia].
    rewrite Em. unfold E.
    replace (- e) with (- (e + 1) + 1) by lia.
    rewrite Z.pow_add_r by lia. change (2 ^ 53) with (2 ^ 52 * 2). lia.
  - replace (971 <? e) with false by (symmetry; apply Z.ltb_ge; lia).
    exists m, (- e). split; [f_equal; lia|].
    split; [lia|]. split; [exact Hm0|].
    exists m, E. split; [exact HE|]. split; [reflexivity | split; lia].
Qed.

Lemma lit_0_30_value : lit_0_30 = Fin false c_0_30 (-54).
Proof. vm_compute. reflexivity. Qed.

Lemma fgt_lit_0_30 (m j : Z) :
  0 <= j ->
  fgt (Fin false m (- j)) lit_0_30 = (c_0_30 * 2 ^ j <? m * 2 ^ 54).
Proof.
  intros Hj. rewrite lit_0_30_value. unfold fgt.
  assert (0 < 2 ^ j) as Hpj by (apply Z.pow_pos_nonneg; lia).
  destruct (Z.le_gt_cases j 54) as [H|H].
  - replace (Z.max 0 (-54 - - j)) with 0 by lia.
    replace (Z.max 0 (- j - -54)) with (54 - j) by lia.
    rewrite Z.pow_0_r, Z.mul_1_r.
    replace (2 ^ 54) with (2 ^ (54 - j) * 2 ^ j)
      by (rewrite <- Z.pow_add_r by lia; f_equal; lia).
    rewrite Z.mul_assoc.
    destruct (Z.ltb_spec c_0_30 (m * 2 ^ (54 - j)));
      symmetry; [apply Z.ltb_lt | apply Z.ltb_ge]; nia.
  - replace (Z.max 0 (-54 - - j)) with (j - 54) by lia.
    replace (Z.max 0 (- j - -54)) with 0 by lia.
    rewrite Z.pow_0_r, Z.mul_1_r.
    replace (2 ^ j) with (2 ^ (j - 54) * 2 ^ 54)
      by (rewrite <- Z.pow_add_r by lia; f_equal; lia).
    rewrite Z.mul_assoc.
    assert (0 < 2 ^ 54) by reflexivity.
    destruct (Z.ltb_spec (c_0_30 * 2 ^ (j - 54)) m);
      symmetry; [apply Z.ltb_lt | apply Z.ltb_ge]; nia.
Qed.

(** The cases in which the quotient is three tenths exactly. *)
Lemma three_tenths_checked :
  forallb (fun k => negb (fgt (round_ratio false (3 * k) (10 * k)) lit_0_30))
          three_tenths_cases = true.
Proof. vm_compute. reflexivity. Qed.

Lemma three_tenths (a b : Z) :
  1 <= b <= 2048 -> 10 * a = 3 * b ->
  fgt (round_ratio false a b) lit_0_30 = false.
Proof.
  intros Hb E.
  assert (exists k, 1 <= k <= 204 /\ a = 3 * k /\ b = 10 * k) as [k [Hk [-> ->]]].
  { exists (b / 10). pose proof (Z.div_mod b 10 ltac:(lia)).
    pose proof (Z.mod_pos_bound b 10 ltac:(lia)). lia. }
  pose proof three_tenths_checked as H. rewrite forallb_forall in H.
  apply negb_true_iff, H. unfold three_tenths_cases.
  apply in_map_iff. exists (Z.to_nat k). split; [lia|].
  apply in_seq. lia.
Qed.

(** On a sample of 2048 bytes at most, comparing the rounded quotient
    with the double nearest to 0.30 is comparing the exact quotient with
    three tenths. *)
Lemma fraction_exceeds (a b : Z) :
  0 <= a <= b -> 1 <= b <= 2048 ->
  exists r, truediv a b = Ok r /\ fgt r lit_0_30 = (3 * b <? 10 * a).
Proof.
  intros Ha Hb. unfold truediv.
  replace (b =? 0) with false by (symmetry; apply Z.eqb_neq; lia).
  replace (a <? 0) with false by (symmetry; apply Z.ltb_ge; lia).
  replace (b <? 0) with false by (symmetry; apply Z.ltb_ge; lia).
  rewrite !Z.abs_eq by lia. cbn [xorb].
  destruct (Z.eq_dec a 0) as [->|Ha0].
  { exists (Fin false 0 0). split; [reflexivity|].
    replace (3 * b <? 10 * 0) with false by (symmetry; apply Z.ltb_ge; lia).
    reflexivity. }
  destruct (round_ratio_fraction a b ltac:(lia) ltac:(lia))
    as [m [j [Er [Hj [Hm [M [E [HE [Hv [H1 H2]]]]]]]]]].
  rewrite Er. eexists. split; [reflexivity|].
  destruct (Z.eq_dec (10 * a) (3 * b)) as [Eq|Ne].
  { rewrite <- Er, (three_tenths a b Hb Eq).
    symmetry. apply Z.ltb_ge. lia. }
  rewrite fgt_lit_0_30 by lia.
  assert (0 < 2 ^ j) as Hpj by (apply Z.pow_pos_nonneg; lia).
  assert (0 < E) as HE0 by (assert (0 < 2 ^ 52) by reflexivity; lia).
  unfold c_0_30.
  destruct (Z.ltb_spec (3 * b) (10 * a)) as [Hgt|Hle].
  - apply Z.ltb_lt.
    (* the scaled difference 2^55 a - 2 b C is large *)
    assert (3602879701896397 <= 36028797018963968 * a - 2 * b * 5404319552844595)
      as HD by lia.
    assert (18014398509481984 * b < E * (36028797018963968 * a - 2 * b * 5404319552844595))
      as HED.
    { assert (2 ^ 52 * 3602879701896397 <= E * (36028797018963968 * a - 2 * b * 5404319552844595))
        by (apply Z.mul_le_mono_nonneg; lia).
      change (2 ^ 52) with 4503599627370496 in *. lia. }
    assert (5404319552844595 * E < M * 18014398509481984) as HM by nia.
    change (2 ^ 54) with 18014398509481984. nia.
  - apply Z.ltb_ge.
    assert (3602879701895577 <= 2 * b * 5404319552844595 - 36028797018963968 * a)
      as HD by lia.
    assert (18014398509481984 * b <= E * (2 * b * 5404319552844595 - 36028797018963968 * a))
      as HED.
    { assert (2 ^ 52 * 3602879701895577 <= E * (2 * b * 5404319552844595 - 36028797018963968 * a))
        by (apply Z.mul_le_mono_nonneg; lia).
      change (2 ^ 52) with 4503599627370496 in *. lia. }
    assert (M * 18014398509481984 <= 5404319552844595 * E) as HM by nia.
    change (2 ^ 54) with 18014398509481984. nia.
Qed.

End FloatFacts.

(* ================================================================== *)
(** * The document                                                     *)
(* ================================================================== *)

Section Document.
Variable decode : string -> string -> list byte -> exc string.
Variable self : Stitcher.

Lemma write_file_txt_append (buf : string) (f : Path * string) :
  write_file_txt decode self buf f = buf ++ write_file_txt decode self "" f.
Proof.
  destruct f as [path rel]. unfold write_file_txt, write.
  destruct (_read_text decode self path) as [c|].
  - destruct (negb (endswith c nl)); rewrite !append_assoc; reflexivity.
  - rewrite !append_assoc. reflexivity.
Qed.

Lemma write_file_md_append (buf : string) (f : Path * string) :
  write_file_md decode self buf f = buf ++ write_file_md decode self "" f.
Proof.
  destruct f as [path rel]. unfold write_file_md, write.
  destruct (negb (String.eqb (guess_lang_from_suffix path) ""));
    destruct (_read_text decode self path) as [c|];
    try destruct (String.eqb c "" || negb (endswith c nl));
    rewrite !append_assoc; reflexivity.
Qed.

Lemma fold_left_sections (step : string -> Path * string -> string)
    (files : list (Path * string)) :
  (forall buf f, step buf f = buf ++ step "" f) ->
  forall buf,
    fold_left step files buf = buf ++ concat_all (map (step "") files).
Proof.
  intros Hstep. induction files as [|f files IH]; intros buf; cbn.
  - now rewrite append_nil_r.
  - rewrite IH, Hstep. apply append_assoc.
Qed.

(** The document ends with one section for each collected file, in the
    order of collection. *)
Lemma build_sections :
  exists head,
    build decode self
    = head ++ concat_all (map (file_section decode self) (_iter_files self)).
Proof.
  unfold build, file_section.
  destruct (String.eqb (fmt (o self)) "txt").
  - rewrite (fold_left_sections _ _ write_file_txt_append). eexists.
    f_equal. 
  - rewrite (fold_left_sections _ _ write_file_md_append). eexists.
    f_equal.
Qed.

End Document.

(* ================================================================== *)
(** * Visibility                                                       *)
(* ================================================================== *)

(** The leaves of the tree and the collected files, up to the order,
    where every entry can be looked at. *)
Lemma tree_leaves_iter_files (self : Stitcher) :
  wf_names (self_root self) = true -> all_seen (self_root self) = true ->
  Permutation (tree_leaves self) (_iter_files self).
Proof.
  intros Hwf Hseen. unfold tree_leaves, tree_entries, _iter_files.
  fold (leaves_of (add_dir_entries self (self_root self) "" "")).
  rewrite tree_leaves_visible by exact Hseen.
  symmetry. now apply iter_files_visible.
Qed.

(** C2: Visibility drift.  In a project that holds a file [a.py], a
    directory nobody may enter and a link into it, the collector yields
    [a.py] and the document has its section, while the tree is the root
    line alone: the sort key of the link raises, the handler meant for
    a directory that cannot be listed takes the error, and nothing is
    drawn under the root.  The leaf entries of the tree and the files
    with a content section differ, with either matcher. *)
Theorem tree_and_sections_drift :
  (exists self,
     __init__ None ascii_codec sample_clock drift_options = Ok self
     /\ _iter_files self = [(a_py, "a.py")]
     /\ _render_tree self = ["proj/"]
     /\ tree_leaves self = []
     /\ contains (build ascii_codec self) "### `a.py`" = true
     /\ ~ (forall f, In f (tree_leaves self) <-> In f (_iter_files self)))
  /\ (exists self,
        __init__ (Some gitwildmatch_basic) ascii_codec sample_clock
                 drift_options = Ok self
        /\ _iter_files self = [(a_py, "a.py")]
        /\ _render_tree self = ["proj/"]
        /\ tree_leaves self = []
        /\ contains (build ascii_codec self) "### `a.py`" = true
        /\ ~ (forall f, In f (tree_leaves self) <-> In f (_iter_files self))).
Proof.
  split; eexists;
    (split; [vm_compute; reflexivity|]);
    (split; [vm_compute; reflexivity|]);
    (split; [vm_compute; reflexivity|]);
    (split; [vm_compute; reflexivity|]);
    (split; [vm_compute; reflexivity|]);
    intros H; apply (proj2 (H (a_py, "a.py"))); now left.
Qed.

(** X17: Visibility consistency.  On any tree of file names in which
    every entry can be looked at, and for any options, the files shown
    as leaf entries of the rendered tree are
    exactly the files the content collector yields (the same entries
    under the same relative paths, up to their order); the lines of the
    rendered tree are the lines of its entries, each ending with the
    name of its entry (and a slash for a directory), and the document
    gives one section to each collected file. *)
Theorem visibility_consistency
    (decode : string -> string -> list byte -> exc string) (self : Stitcher) :
  wf_names (self_root self) = true -> all_seen (self_root self) = true ->
  Permutation (tree_leaves self) (_iter_files self)
  /\ (forall f, In f (tree_leaves self) <-> In f (_iter_files self))
  /\ map shown_line (tree_entries self) = tl (_render_tree self)
  /\ (forall s,
        In s (tree_entries self) ->
        exists lead,
          shown_line s
          = lead ++ name (shown_path s)
            ++ (if is_dir (shown_path s) then "/" else ""))
  /\ exists head,
       build decode self
       = head ++ concat_all (map (file_section decode self) (_iter_files self)).
Proof.
  intros Hwf Hseen.
  pose proof (tree_leaves_iter_files self Hwf Hseen) as HP.
  split; [exact HP|]. split.
  - intros f. split; apply Permutation_in; [exact HP | now symmetry].
  - split; [apply add_dir_entries_lines|].
    split; [intros s; apply tree_entries_line | apply build_sections].
Qed.

Lemma visibility_consistency_witness :
  wf_names (self_root (sample_stitcher sample_options)) = true
  /\ all_seen (self_root (sample_stitcher sample_options)) = true
  /\ Permutation (tree_leaves (sample_stitcher sample_options))
              (_iter_files (sample_stitcher sample_options))
  /\ (forall f, In f (tree_leaves (sample_stitcher sample_options))
                <-> In f (_iter_files (sample_stitcher sample_options)))
  /\ map shown_line (tree_entries (sample_stitcher sample_options))
     = tl (_render_tree (sample_stitcher sample_options))
  /\ (forall s,
        In s (tree_entries (sample_stitcher sample_options)) ->
        exists lead,
          shown_line s
          = lead ++ name (shown_path s)
            ++ (if is_dir (shown_path s) then "/" else ""))
  /\ exists head,
       build ascii_codec (sample_stitcher sample_options)
       = head ++ concat_all (map (file_section ascii_codec
                                    (sample_stitcher sample_options))
                                 (_iter_files (sample_stitcher sample_options))).
Proof.
  assert (wf_names (self_root (sample_stitcher sample_options)) = true) as H
      by (vm_compute; reflexivity).
  assert (all_seen (self_root (sample_stitcher sample_options)) = true) as H'
      by (vm_compute; reflexivity).
  split; [exact H|]. split; [exact H'|].
  exact (visibility_consistency ascii_codec (sample_stitcher sample_options)
                                H H').
Defined.

(** The walk goes on into exactly the subdirectories that pass the
    filter. *)
Lemma os_walk_pruned (self : Stitcher) (A : Type)
    (visit : string -> list Path -> list A) n l (es : list Path) (rel : string) :
  os_walk (follow_symlinks (o self)) (keep_dir self) visit
          (mkPath n l (Dir true es)) rel
  = (visit rel (nondirs es)
     ++ flat_map
          (fun d => os_walk (follow_symlinks (o self)) (keep_dir self) visit
                            d (sub_rel rel d))
          (filter (fun d => is_dir d
                            && negb (_should_skip self d (sub_rel rel d ++ "/")))
                  es))%list.
Proof.
  rewrite os_walk_unfold. f_equal. rewrite flat_map_filter.
  apply flat_map_ext_in. intros d _. unfold keep_dir.
  destruct (is_dir d); [|reflexivity]. cbn [andb].
  destruct (_should_skip self d (sub_rel rel d ++ "/")) eqn:Es; [reflexivity|].
  now rewrite (should_skip_false_link self _ _ Es).
Qed.

(** C5: Pruning.  From a directory the walk goes on into exactly the
    subdirectories that pass the visibility filter.  Hence whatever the
    loop body of the content collector looks at or yields, it does so in
    a directory that was reached: the root, or a directory listed in a
    reached directory that itself passed the filter.  A directory that
    fails the filter is not reached, so the walk lists nothing in it and
    nothing beneath it, whatever the filter would say of the files
    there. *)
Theorem ignored_directories_pruned
    (self : Stitcher) (A : Type) (visit : string -> list Path -> list A) :
  wf_names (self_root self) = true ->
  (forall n l es rel,
     os_walk (follow_symlinks (o self)) (keep_dir self) visit
             (mkPath n l (Dir true es)) rel
     = (visit rel (nondirs es)
        ++ flat_map
             (fun d => os_walk (follow_symlinks (o self)) (keep_dir self) visit
                               d (sub_rel rel d))
             (filter (fun d => is_dir d
                               && negb (_should_skip self d (sub_rel rel d ++ "/")))
                     es))%list)
  /\ (forall x,
        In x (os_walk (follow_symlinks (o self)) (keep_dir self) visit
                      (self_root self) "")
        <-> exists n l es r,
              reached self (mkPath n l (Dir true es)) r
              /\ In x (visit r (nondirs es)))
  /\ (forall f rel,
        In (f, rel) (_iter_files self) ->
        exists n l es r,
          reached self (mkPath n l (Dir true es)) r
          /\ In f es /\ rel = entry_rel r f)
  /\ (forall d rel,
        reached self d rel ->
        (d = self_root self /\ rel = "")
        \/ exists n l es r,
             reached self (mkPath n l (Dir true es)) r
             /\ In d es /\ rel = entry_rel r d /\ is_dir d = true
             /\ _should_skip self d (rel ++ "/") = false)
  /\ (forall d rel,
        rel <> "" -> _should_skip self d (rel ++ "/") = true ->
        ~ reached self d rel).
Proof.
  intros Hwf.
  assert (forall d rel,
            reached self d rel ->
            (d = self_root self /\ rel = "")
            \/ exists n l es r,
                 reached self (mkPath n l (Dir true es)) r
                 /\ In d es /\ rel = entry_rel r d /\ is_dir d = true
                 /\ _should_skip self d (rel ++ "/") = false) as Hinv.
  { intros d rel H. destruct H as [|n l es r d Hp Hd Ed Es]; [now left|].
    right. exists n, l, es, r. rewrite <- (test_rel_dir r d Ed). auto. }
  split; [intros; apply os_walk_pruned|].
  split; [|split; [|split; [exact Hinv|]]].
  - intros x. split.
    + apply os_walk_sound; [exact Hwf | reflexivity | constructor].
    + intros [n [l [es [r [Hr Hx]]]]].
      apply (os_walk_complete self A visit _ _ Hwf Hr).
      rewrite os_walk_unfold. apply in_or_app. now left.
  - intros f rel Hf. unfold _iter_files in Hf.
    apply (os_walk_sound self _ _ _ "" Hwf eq_refl (reached_root self)) in Hf
      as [n [l [es [r [Hr Hf]]]]].
    apply yield_files_In in Hf as [Hf [-> _]].
    apply filter_In in Hf as [Hf _].
    exists n, l, es, r. split; [exact Hr|]. split; [exact Hf|].
    destruct (reached_wf self _ _ Hwf Hr) as [Hw Hrel].
    destruct (wf_names_entries _ _ _ _ Hw f Hf) as [Hn _].
    now apply sub_rel_entry_rel.
  - intros d rel Hne Hs Hr. destruct (Hinv d rel Hr) as [[_ E]|H].
    + contradiction.
    + destruct H as [n [l [es [r [_ [_ [_ [_ E]]]]]]]]. congruence.
Qed.

(** In the sample repository [vendor] is a link to a directory and links
    are not followed: the directory is not reached, and [lib.py] beneath
    it, which would pass the filter, is neither looked at nor yielded. *)
Lemma ignored_directories_pruned_witness :
  wf_names (self_root (sample_stitcher sample_options)) = true
  /\ _should_skip (sample_stitcher sample_options) vendor "vendor/" = true
  /\ ~ reached (sample_stitcher sample_options) vendor "vendor"
  /\ _should_skip (sample_stitcher sample_options) lib_py "vendor/lib.py" = false
  /\ ~ In (lib_py, "vendor/lib.py")
          (os_walk (follow_symlinks (o (sample_stitcher sample_options)))
                   (keep_dir (sample_stitcher sample_options))
                   (fun rel files => map (fun f => (f, sub_rel rel f)) files)
                   (self_root (sample_stitcher sample_options)) "")
  /\ ~ In (lib_py, "vendor/lib.py") (_iter_files (sample_stitcher sample_options)).
Proof.
  assert (wf_names (self_root (sample_stitcher sample_options)) = true) as H
      by (vm_compute; reflexivity).
  split; [exact H|].
  destruct (ignored_directories_pruned
              (sample_stitcher sample_options) (Path * string)
              (yield_files (sample_stitcher sample_options)) H)
    as [_ [_ [_ [_ Hpruned]]]].
  assert (_should_skip (sample_stitcher sample_options) vendor "vendor/" = true)
    as Hv by (vm_compute; reflexivity).
  split; [exact Hv|].
  split; [apply Hpruned; [discriminate | exact Hv]|].
  split; [vm_compute; reflexivity|].
  split; vm_compute; intros Hin;
    repeat (destruct Hin as [Hin|Hin]; [discriminate Hin|]); exact Hin.
Defined.





(* ================================================================== *)
(** * Ignore patterns                                                  *)
(* ================================================================== *)

(** The construction, by what the root leads to: a link that loops
    makes [resolve] raise, a root that cannot be looked at makes
    [exists] raise, a directory goes on to the patterns, and anything
    else is refused. *)
Lemma init_cases pathspec decode clock (opts : StitchOptions) :
  __init__ pathspec decode clock opts
  = match target (root opts) with
    | Loop => Raise RuntimeError
    | Denied => Raise OSError
    | Dir _ _ =>
        spec <- _build_pathspec pathspec decode opts (root opts) ;;
        Ok (mkStitcher opts (root opts) spec clock)
    | _ => Raise (ValueError "Root does not exist or is not a directory"
                             (root_resolved opts))
    end.
Proof.
  unfold __init__, pathlib.resolve, pathlib.exists_, pathlib.is_dir.
  destruct (target (root opts)) eqn:E; cbn [bind]; rewrite ?E;
    reflexivity.
Qed.

Lemma init_inv pathspec decode clock (opts : StitchOptions) (self : Stitcher) :
  __init__ pathspec decode clock opts = Ok self ->
  exists pats spec,
    ignore_patterns decode opts (root opts) = Ok pats
    /\ match pathspec with
       | None => spec = _MiniSpec pats
       | Some from_lines => from_lines pats = Ok spec
       end
    /\ self = mkStitcher opts (root opts) spec clock
    /\ is_dir (root opts) = true.
Proof.
  rewrite init_cases.
  destruct (target (root opts)) eqn:Et; try discriminate.
  assert (is_dir (root opts) = true) as Hd by (unfold is_dir; now rewrite Et).
  unfold _build_pathspec.
  destruct (ignore_patterns decode opts (root opts)) as [pats|e];
    cbn [bind]; [|discriminate].
  destruct pathspec as [from_lines|]; cbn [bind].
  - destruct (from_lines pats) as [spec|e] eqn:E; cbn [bind]; [|discriminate].
    intros H. injection H as <-. exists pats, spec. auto.
  - intros H. injection H as <-. exists pats, (_MiniSpec pats). auto.
Qed.

(** The built-in patterns come first in the list. *)
Lemma ignore_patterns_lead decode (opts : StitchOptions) (rt : Path) (pats : list string) :
  ignore_patterns decode opts rt = Ok pats ->
  exists rest, pats = (DEFAULT_GLOBAL_IGNORES ++ rest)%list.
Proof.
  unfold ignore_patterns.
  destruct (preset opts) as [p|];
    [destruct (String.eqb p "");
     [|destruct (lookup_preset (lower p)) as [[|x pre]|]]|];
    cbn [bind]; try discriminate;
    (destruct (use_gitignore opts);
     [destruct (pathlib.exists_ _) as [[|]|];
      [destruct (open_text _ _ _ _)| |]|]);
    cbn [bind]; try discriminate;
    destruct (extra_ignores opts);
    intros H; injection H as <-;
    first [ now (exists []; rewrite app_nil_r)
          | eexists; rewrite <- ?app_assoc; reflexivity ].
Qed.

(* ================================================================== *)
(** * Sections of the document                                         *)
(* ================================================================== *)

Section Sections.

Lemma str_app (a b : list ascii) : str (a ++ b) = str a ++ str b.
Proof. induction a as [|x a IH]; simpl; [reflexivity | now rewrite IH]. Qed.

Lemma endswith_nl (c : string) :
  endswith c nl = true -> exists body, c = body ++ nl.
Proof.
  unfold endswith. cbn [nl chars list_ascii_of_string rev app str string_of_list_ascii].
  destruct (rev (chars c)) as [|x r] eqn:E; cbn [str string_of_list_ascii startswith];
    [discriminate|].
  destruct (Ascii.eqb_spec "010" x) as [<-|]; [|discriminate].
  intros _. exists (str (rev r)).
  rewrite <- (str_chars c), <- (rev_involutive (chars c)), E.
  cbn [rev]. now rewrite str_app.
Qed.

Lemma startswith_app (p b : string) : startswith (p ++ b) p = true.
Proof.
  induction p as [|x p IH]; [now destruct b|].
  cbn [String.append startswith]. now rewrite Ascii.eqb_refl, IH.
Qed.

Lemma contains_startswith (s p : string) :
  startswith s p = true -> contains s p = true.
Proof. intros H. destruct s; cbn [contains]; now rewrite H. Qed.

Lemma contains_app_l (a s p : string) :
  contains s p = true -> contains (a ++ s) p = true.
Proof.
  intros H. induction a as [|x a IH]; [exact H|].
  cbn [String.append contains]. rewrite IH. apply orb_true_r.
Qed.

Lemma contains_middle (a p b : string) : contains (a ++ p ++ b) p = true.
Proof. apply contains_app_l, contains_startswith, startswith_app. Qed.

Variable decode : string -> string -> list byte -> exc string.
Variable self : Stitcher.

(** The section of a file whose text is not read. *)
Lemma file_section_placeholder (f : Path * string) :
  _read_text decode self (fst f) = None ->
  file_section decode self f
  = opening self f ++ placeholder ++ nl
    ++ (if String.eqb (fmt (o self)) "txt" then "" else nl) ++ closing self f.
Proof.
  destruct f as [path rel]. cbn [fst snd]. intros H.
  unfold file_section, opening, closing, write_file_txt, write_file_md, write.
  cbn [fst snd]. rewrite H.
  destruct (String.eqb (fmt (o self)) "txt");
    [|destruct (negb (String.eqb (guess_lang_from_suffix path) ""))];
    rewrite !append_assoc; reflexivity.
Qed.

(** Every section is its opening, a body closed by a line feed, and its
    closing; the body is the text read, with a line feed added when it
    lacks one. *)
Lemma file_section_shape (f : Path * string) :
  exists body,
    file_section decode self f = opening self f ++ (body ++ nl) ++ closing self f
    /\ forall c, _read_text decode self (fst f) = Some c ->
                 body ++ nl = c \/ body = c.
Proof.
  destruct f as [path rel].
  unfold file_section, opening, closing, write_file_txt, write_file_md, write.
  cbn [fst snd].
  destruct (String.eqb (fmt (o self)) "txt").
  - destruct (_read_text decode self path) as [c|].
    + destruct (endswith c nl) eqn:E; cbn [negb].
      * destruct (endswith_nl c E) as [body ->]. exists body.
        split; [rewrite !append_assoc; reflexivity|].
        intros c' H. injection H as <-. now left.
      * exists c. split; [rewrite !append_assoc; reflexivity|].
        intros c' H. injection H as <-. now right.
    + exists placeholder. split; [rewrite !append_assoc; reflexivity|].
      discriminate.
  - destruct (negb (String.eqb (guess_lang_from_suffix path) ""));
      destruct (_read_text decode self path) as [c|].
    1,3: destruct (String.eqb_spec c "") as [->|Hc]; cbn [orb];
         [ exists ""; split; [rewrite !append_assoc; reflexivity|];
           intros c' H; injection H as <-; now right
         | destruct (endswith c nl) eqn:E; cbn [negb];
           [ destruct (endswith_nl c E) as [body ->]; exists body;
             split; [rewrite !append_assoc; reflexivity|];
             intros c' H; injection H as <-; now left
           | exists c; split; [rewrite !append_assoc; reflexivity|];
             intros c' H; injection H as <-; now right ] ].
    all: exists (placeholder ++ nl);
         split; [rewrite !append_assoc; reflexivity | discriminate].
Qed.

End Sections.

(** C8: In both formats the text between the opening and the closing
    delimiter of a section ends with a line feed, whether or not the
    content read from the file does: the section is the opening, a body
    closed by a line feed, and the closing ([--- END FILE: ... ---] in
    plain text, the closing fence in Markdown); the body is the content
    itself, with a line feed added when it lacks one, or the
    placeholder. *)
Theorem text_block_ends_with_newline
    (decode : string -> string -> list byte -> exc string) (self : Stitcher)
    (f : Path * string) :
  exists body,
    file_section decode self f
    = opening self f ++ (body ++ nl) ++ closing self f
    /\ closing self f
       = (if String.eqb (fmt (o self)) "txt"
          then "--- END FILE: " ++ snd f ++ " ---" ++ nl ++ nl
          else "```" ++ nl ++ nl)
    /\ match _read_text decode self (fst f) with
       | Some c => body ++ nl = c \/ body = c
       | None => True
       end.
Proof.
  destruct (file_section_shape decode self f) as [body [H1 H2]].
  exists body. split; [exact H1|]. split; [reflexivity|].
  destruct (_read_text decode self (fst f)) as [c|]; [now apply H2 | exact I].
Qed.

(** C7: [build] is total: for every stitcher it returns the document,
    which ends with one section for every collected file.  Whatever goes
    wrong with one file ([stat] fails, the file is not a regular file,
    it cannot be opened, the codec is unknown or the read fails) is
    caught in [_read_text], and the section of that file holds the
    placeholder; text that is read comes from the codec run with
    [errors="replace"]. *)
Theorem build_never_fails
    (decode : string -> string -> list byte -> exc string) (self : Stitcher) :
  (exists head,
     build decode self
     = head ++ concat_all (map (file_section decode self) (_iter_files self)))
  /\ (forall path e, stat path = Raise e -> _read_text decode self path = None)
  /\ (forall path st,
        stat path = Ok st -> S_ISREG (st_mode st) = false ->
        _read_text decode self path = None)
  /\ (forall path e,
        open_read path default_read_bytes = Raise e ->
        _read_text decode self path = None)
  /\ (forall path e,
        read_text decode path (encoding (o self)) "replace" = Raise e ->
        _read_text decode self path = None)
  /\ (forall path content,
        _read_text decode self path = Some content ->
        read_text decode path (encoding (o self)) "replace" = Ok content)
  /\ (forall f,
        _read_text decode self (fst f) = None ->
        contains (file_section decode self f) placeholder = true).
Proof.
  split; [apply build_sections|].
  split; [|split; [|split; [|split; [|split]]]].
  - intros path e H. unfold _read_text. now rewrite H.
  - intros path st H Hreg. unfold _read_text. rewrite H. cbn [bind].
    now rewrite Hreg.
  - intros path e H. unfold _read_text.
    destruct (stat path) as [st|]; cbn [bind]; [|reflexivity].
    destruct (S_ISREG (st_mode st)); [|reflexivity].
    unfold is_probably_binary, is_probably_binary_body. now rewrite H.
  - intros path e H. unfold _read_text.
    destruct (stat path) as [st|]; cbn [bind]; [|reflexivity].
    destruct (S_ISREG (st_mode st)); [|reflexivity].
    destruct (is_probably_binary path default_read_bytes); [reflexivity|].
    now rewrite H.
  - intros path content. unfold _read_text.
    destruct (stat path) as [st|]; cbn [bind]; [|discriminate].
    destruct (S_ISREG (st_mode st)); [|discriminate].
    destruct (is_probably_binary path default_read_bytes); [discriminate|].
    destruct (read_text decode path (encoding (o self)) "replace");
      [|discriminate].
    intros H. now injection H as <-.
  - intros f H. rewrite (file_section_placeholder decode self f H).
    apply contains_middle.
Qed.

Lemma build_never_fails_witness :
  stat (mkPath "dangling" true Absent) = Raise OSError
  /\ _read_text ascii_codec (sample_stitcher sample_options)
                (mkPath "dangling" true Absent) = None
  /\ contains (file_section ascii_codec (sample_stitcher sample_options)
                            (mkPath "dangling" true Absent, "dangling"))
              placeholder = true.
Proof.
  destruct (build_never_fails ascii_codec (sample_stitcher sample_options))
    as [_ [Hstat [_ [_ [_ [_ Hsection]]]]]].
  assert (stat (mkPath "dangling" true Absent) = Raise OSError) as H
      by reflexivity.
  split; [exact H|]. split; [exact (Hstat _ _ H)|].
  apply Hsection. exact (Hstat _ _ H).
Defined.

(** C1: The run of [tests/test_basic.py]: a root holding [a.py] and
    [binary.bin] (bytes 00 01 02), gitignore honouring off, all other
    options at their defaults.  On a host without [pathspec] and on one
    with it, the built-in pattern [*.bin] hides [binary.bin] from the
    collector, so that the document names [a.py] but holds no
    placeholder. *)
Theorem test_run_tmp_has_no_placeholder :
  (exists self,
     __init__ None ascii_codec sample_clock test_options = Ok self
     /\ _iter_files self = [(a_py, "a.py")]
     /\ contains (build ascii_codec self) "a.py" = true
     /\ contains (build ascii_codec self) "binary or unreadable" = false)
  /\ (exists self,
        __init__ (Some gitwildmatch_basic) ascii_codec sample_clock test_options
        = Ok self
        /\ _iter_files self = [(a_py, "a.py")]
        /\ contains (build ascii_codec self) "a.py" = true
        /\ contains (build ascii_codec self) "binary or unreadable" = false).
Proof.
  split; eexists;
    (split; [vm_compute; reflexivity|]);
    (split; [vm_compute; reflexivity|]);
    split; vm_compute; reflexivity.
Qed.

(* ================================================================== *)
(** * The binary detector                                              *)
(* ================================================================== *)

Section Detector.

Lemma truediv_fraction_ok (a b : Z) :
  0 <= a <= b -> 1 <= b -> exists r, truediv a b = Ok r.
Proof.
  intros Ha Hb. unfold truediv.
  replace (b =? 0) with false by (symmetry; apply Z.eqb_neq; lia).
  replace (a <? 0) with false by (symmetry; apply Z.ltb_ge; lia).
  replace (b <? 0) with false by (symmetry; apply Z.ltb_ge; lia).
  rewrite !Z.abs_eq by lia. cbn [xorb].
  destruct (Z.eq_dec a 0) as [->|Ha0].
  - now exists (Fin false 0 0).
  - destruct (round_ratio_fraction a b ltac:(lia) ltac:(lia)) as [m [j [Er _]]].
    rewrite Er. now eexists.
Qed.

Lemma nontext_of_le (chunk : list byte) :
  0 <= len (nontext_of chunk) <= len chunk.
Proof.
  unfold len, nontext_of.
  pose proof (filter_length_le (fun b => negb (text_chars b)) chunk). lia.
Qed.

Lemma read_nil (n : Z) : -1 <= n -> read [] n = Ok [].
Proof.
  intros H. unfold read. rewrite (proj2 (Z.ltb_ge n (-1)) H).
  destruct (n <? 0); [reflexivity | now rewrite firstn_nil].
Qed.

Lemma read_returns (data : list byte) (n : Z) :
  -1 <= n -> exists chunk, read data n = Ok chunk.
Proof.
  intros H. unfold read. rewrite (proj2 (Z.ltb_ge n (-1)) H).
  destruct (n <? 0); eexists; reflexivity.
Qed.

Lemma read_default (data : list byte) :
  read data default_read_bytes = Ok (firstn 2048 data).
Proof. reflexivity. Qed.

(** C10: The binary detector is total on readable files.  For a length
    that [read] takes (the default is one), the body of the [try] block
    returns: in particular the division raises nothing, its denominator
    being one at least; and an empty file is text.  For a length below
    -1 the read raises, and the handler calls the file binary. *)
Theorem binary_detector_total
    (n : string) (l : bool) (data : list byte) (read_bytes : Z) :
  -1 <= read_bytes ->
  (exists b,
     is_probably_binary_body (mkPath n l (Reg true data)) read_bytes = Ok b
     /\ is_probably_binary (mkPath n l (Reg true data)) read_bytes = b)
  /\ is_probably_binary (mkPath n l (Reg true [])) read_bytes = false
  /\ is_probably_binary (mkPath n l (Reg true [])) default_read_bytes = false
  /\ (forall chunk : list byte,
        1 <= Z.max 1 (len chunk)
        /\ exists r,
             truediv (len (nontext_of chunk)) (Z.max 1 (len chunk)) = Ok r)
  /\ (forall k, k < -1 ->
        is_probably_binary (mkPath n l (Reg true data)) k = true).
Proof.
  intros Hn.
  assert (forall chunk : list byte,
            1 <= Z.max 1 (len chunk)
            /\ exists r,
                 truediv (len (nontext_of chunk)) (Z.max 1 (len chunk)) = Ok r)
    as Hdiv.
  { intros chunk. split; [lia|].
    pose proof (nontext_of_le chunk). apply truediv_fraction_ok; lia. }
  split; [|split; [|split; [|split; [exact Hdiv|]]]].
  - unfold is_probably_binary, is_probably_binary_body, open_read.
    cbn [target]. destruct (read_returns data read_bytes Hn) as [chunk ->].
    cbn [bind].
    destruct (existsb _ chunk); [now exists true|].
    destruct (Hdiv chunk) as [_ [r ->]]. cbn [bind].
    now eexists.
  - unfold is_probably_binary, is_probably_binary_body, open_read.
    cbn [target]. rewrite read_nil by exact Hn. reflexivity.
  - reflexivity.
  - intros k Hk. unfold is_probably_binary, is_probably_binary_body, open_read.
    cbn [target]. unfold read. now rewrite (proj2 (Z.ltb_lt k (-1)) Hk).
Qed.

Lemma binary_detector_total_witness :
  -1 <= default_read_bytes
  /\ is_probably_binary (text_file "empty.txt" "") default_read_bytes = false.
Proof.
  assert (-1 <= default_read_bytes) as H by (unfold default_read_bytes; lia).
  split; [exact H|].
  exact (proj1 (proj2 (binary_detector_total "empty.txt" false []
                         default_read_bytes H))).
Defined.

Lemma text_chars_spec (b : byte) :
  text_chars b = true
  <-> (32 <= byte_value b <= 255 \/ In (byte_value b) [7; 8; 9; 10; 12; 13; 27]).
Proof.
  unfold text_chars. rewrite orb_true_iff, andb_true_iff, existsb_exists.
  rewrite Z.leb_le, Z.ltb_lt. split.
  - intros [[x [Hx E]]|H]; [|lia]. apply Z.eqb_eq in E. subst x. now right.
  - intros [H|H]; [right; lia|]. left. exists (byte_value b).
    split; [exact H | apply Z.eqb_refl].
Qed.

(** The detector on a sample it could read. *)
Lemma is_probably_binary_readable (n : string) (l : bool) (data : list byte) :
  is_probably_binary (mkPath n l (Reg true data)) default_read_bytes
  = existsb (fun b => byte_value b =? 0) (firstn 2048 data)
    || (3 * len (firstn 2048 data) <? 10 * len (nontext_of (firstn 2048 data))).
Proof.
  unfold is_probably_binary, is_probably_binary_body, open_read.
  cbn [target]. rewrite read_default. cbn [bind].
  set (sample := firstn 2048 data).
  destruct (existsb _ sample); [reflexivity|]. cbn [orb].
  pose proof (nontext_of_le sample) as Hn.
  assert (len sample <= 2048) as Hs.
  { unfold len, sample. pose proof (firstn_le_length 2048 data). lia. }
  destruct (Z.eq_dec (len sample) 0) as [E0|Hpos].
  - assert (len (nontext_of sample) = 0) as -> by lia. rewrite E0.
    reflexivity.
  - assert (0 <= len sample) by (unfold len; lia).
    replace (Z.max 1 (len sample)) with (len sample) by lia.
    destruct (fraction_exceeds (len (nontext_of sample)) (len sample)
                ltac:(lia) ltac:(lia)) as [r [-> Hr]].
    cbn [bind]. exact Hr.
Qed.

(** The bytes the detector counts are those outside the text set. *)
Lemma nontext_of_text_set (chunk : list byte) :
  nontext_of chunk
  = filter (fun b => negb (((32 <=? byte_value b) && (byte_value b <=? 255))
                           || existsb (Z.eqb (byte_value b))
                                      [7; 8; 9; 10; 12; 13; 27]))
           chunk.
Proof.
  unfold nontext_of. apply filter_ext. intros b. f_equal.
  unfold text_chars. cbv zeta. rewrite orb_comm. f_equal. f_equal.
  destruct (Z.ltb_spec (byte_value b) 256), (Z.leb_spec (byte_value b) 255);
    try reflexivity; lia.
Qed.

(** C4: Binary detection.  By default the detector samples the first
    2048 bytes at most.  A file it can read is binary exactly when the
    sample holds a NUL byte or more than three tenths of its bytes lie
    outside the text set (0x20..0xFF and 7, 8, 9, 10, 12, 13, 27); a
    file it cannot open is binary: one there is no leave to read, a
    directory, a name with nothing behind it, an entry that cannot be
    looked at, a special file that refuses.  A file with a NUL byte
    among its first 2048 bytes is therefore never read as text: its
    section is the placeholder between the delimiters. *)
Theorem binary_classification
    (decode : string -> string -> list byte -> exc string) (self : Stitcher)
    (n : string) (l : bool) (t : node) (rel : string) :
  (forall data,
     t = Reg true data ->
     open_read (mkPath n l t) default_read_bytes = Ok (firstn 2048 data)
     /\ (List.length (firstn 2048 data) <= 2048)%nat
     /\ is_probably_binary (mkPath n l t) default_read_bytes
        = existsb (fun b => byte_value b =? 0) (firstn 2048 data)
          || (3 * len (firstn 2048 data)
              <? 10 * len (filter
                             (fun b =>
                                negb (((32 <=? byte_value b)
                                       && (byte_value b <=? 255))
                                      || existsb (Z.eqb (byte_value b))
                                                 [7; 8; 9; 10; 12; 13; 27]))
                             (firstn 2048 data))))
  /\ (forall e,
        open_read (mkPath n l t) default_read_bytes = Raise e ->
        is_probably_binary (mkPath n l t) default_read_bytes = true)
  /\ (match t with
      | Reg true _ | Special (Ok _) => True
      | _ => is_probably_binary (mkPath n l t) default_read_bytes = true
      end)
  /\ (forall data,
        t = Reg true data ->
        existsb (fun b => byte_value b =? 0) (firstn 2048 data) = true ->
        _read_text decode self (mkPath n l t) = None
        /\ file_section decode self (mkPath n l t, rel)
           = opening self (mkPath n l t, rel) ++ placeholder ++ nl
             ++ (if String.eqb (fmt (o self)) "txt" then "" else nl)
             ++ closing self (mkPath n l t, rel)).
Proof.
  split; [|split; [|split]].
  - intros data ->. split; [reflexivity|].
    split; [apply firstn_le_length|].
    rewrite is_probably_binary_readable. now rewrite nontext_of_text_set.
  - intros e H. unfold is_probably_binary, is_probably_binary_body.
    now rewrite H.
  - destruct t as [[|] data|[data|e]| |b es| |]; try exact I; reflexivity.
  - intros data -> Hnul.
    assert (_read_text decode self (mkPath n l (Reg true data)) = None) as Hr.
    { unfold _read_text. cbn [stat target bind st_mode S_ISREG].
      now rewrite is_probably_binary_readable, Hnul. }
    split; [exact Hr|].
    now apply (file_section_placeholder decode self (mkPath n l (Reg true data), rel)).
Qed.

Lemma binary_classification_witness :
  existsb (fun b => byte_value b =? 0) (firstn 2048 [x00; x01; x02]) = true
  /\ _read_text ascii_codec (sample_stitcher test_options) binary_bin = None
  /\ is_probably_binary binary_bin default_read_bytes = true.
Proof.
  destruct (binary_classification ascii_codec (sample_stitcher test_options)
              "binary.bin" false (Reg true [x00; x01; x02]) "binary.bin")
    as [Hc [_ [_ Hnul]]].
  assert (existsb (fun b => byte_value b =? 0) (firstn 2048 [x00; x01; x02])
          = true) as H by reflexivity.
  split; [exact H|]. split.
  - exact (proj1 (Hnul _ eq_refl H)).
  - unfold binary_bin. destruct (Hc _ eq_refl) as [_ [_ ->]]. reflexivity.
Defined.

End Detector.

(* ================================================================== *)
(** * The size parser                                                  *)
(* ================================================================== *)

Section SizeParser.

(** ** Exact conversions *)

Lemma rne_exact (m q : Z) : 0 <= m -> 0 < q -> rne (m * q) q = m.
Proof.
  intros Hm Hq. unfold rne.
  rewrite Z.div_mul, Z.mod_mul by lia.
  destruct (Z.compare_spec (2 * 0) q); lia.
Qed.

(** A number n * 2^a / 2^b with n below 2^53 is a double. *)
Lemma round_ratio_exact (n a b : Z) :
  0 < n < 2 ^ 53 -> 0 <= a -> 0 <= b ->
  -1074 <= Z.log2 n + a - b - 52 <= 971 ->
  round_ratio false (n * 2 ^ a) (2 ^ b)
  = Fin false (n * 2 ^ (52 - Z.log2 n)) (Z.log2 n + a - b - 52).
Proof.
  intros Hn Ha Hb Hr.
  pose proof (Z.log2_nonneg n) as HL0.
  assert (Z.log2 n < 53) as HL1 by (apply Z.log2_lt_pow2; lia).
  destruct (Z.log2_spec n ltac:(lia)) as [Hlo Hhi].
  set (L := Z.log2 n) in *.
  assert (0 < 2 ^ a) as Hpa by (apply Z.pow_pos_nonneg; lia).
  assert (0 < 2 ^ b) as Hpb by (apply Z.pow_pos_nonneg; lia).
  unfold round_ratio.
  replace (n * 2 ^ a =? 0) with false by (symmetry; apply Z.eqb_neq; nia).
  assert (floor_log2_ratio (n * 2 ^ a) (2 ^ b) = L + a - b) as ->.
  { unfold floor_log2_ratio.
    rewrite Z.log2_mul_pow2, Z.log2_pow2 by lia. fold L.
    replace (a + L - b) with (L + a - b) by lia.
    replace (_ <? _) with false; [reflexivity|].
    symmetry. apply Z.ltb_ge.
    destruct (Z.le_gt_cases 0 (L + a - b)) as [Hg|Hg].
    - replace (Z.max 0 (- (L + a - b))) with 0 by lia.
      replace (Z.max 0 (L + a - b)) with (L + a - b) by lia.
      rewrite Z.pow_0_r, Z.mul_1_r, <- Z.pow_add_r by lia.
      replace (b + (L + a - b)) with (L + a) by lia.
      rewrite Z.pow_add_r by lia. nia.
    - replace (Z.max 0 (- (L + a - b))) with (b - L - a) by lia.
      replace (Z.max 0 (L + a - b)) with 0 by lia.
      rewrite Z.pow_0_r, Z.mul_1_r, <- Z.mul_assoc, <- Z.pow_add_r by lia.
      replace (a + (b - L - a)) with (b - L) by lia.
      replace (2 ^ b) with (2 ^ L * 2 ^ (b - L))
        by (rewrite <- Z.pow_add_r by lia; f_equal; lia).
      assert (0 < 2 ^ (b - L)) by (apply Z.pow_pos_nonneg; lia). nia. }
  replace (Z.max (L + a - b - 52) (-1074)) with (L + a - b - 52) by lia.
  set (e := L + a - b - 52).
  set (m := n * 2 ^ (52 - L)).
  assert (0 < 2 ^ (52 - L)) as Hp52 by (apply Z.pow_pos_nonneg; lia).
  assert (0 <= m) as Hm0 by (unfold m; nia).
  assert (m < 2 ^ 53) as Hm1.
  { unfold m. replace (2 ^ 53) with (2 ^ (L + 1) * 2 ^ (52 - L))
      by (rewrite <- Z.pow_add_r by lia; f_equal; lia).
    replace (L + 1) with (Z.succ L) by lia. nia. }
  assert (rne (n * 2 ^ a * 2 ^ Z.max 0 (- e)) (2 ^ b * 2 ^ Z.max 0 e) = m) as ->.
  { destruct (Z.le_gt_cases e 0) as [He|He].
    - replace (Z.max 0 (- e)) with (- e) by lia.
      replace (Z.max 0 e) with 0 by lia.
      rewrite Z.pow_0_r, Z.mul_1_r.
      replace (n * 2 ^ a * 2 ^ (- e)) with (m * 2 ^ b);
        [apply rne_exact; lia|].
      unfold m. rewrite <- !Z.mul_assoc, <- !Z.pow_add_r by lia.
      do 2 f_equal. unfold e. lia.
    - replace (Z.max 0 (- e)) with 0 by lia.
      replace (Z.max 0 e) with e by lia.
      rewrite Z.pow_0_r, Z.mul_1_r, <- Z.pow_add_r by lia.
      assert (0 < 2 ^ (b + e)) by (apply Z.pow_pos_nonneg; lia).
      replace (n * 2 ^ a) with (m * 2 ^ (b + e));
        [apply rne_exact; lia|].
      unfold m. rewrite <- !Z.mul_assoc, <- !Z.pow_add_r by lia.
      do 2 f_equal. unfold e. lia. }
  replace (m =? 2 ^ 53) with false by (symmetry; apply Z.eqb_neq; lia).
  replace (971 <? e) with false by (symmetry; apply Z.ltb_ge; unfold e; lia).
  reflexivity.
Qed.

(** [int(float(n) * 2^k)] is [n * 2^k] for a count [n] below 2^53 and a
    factor 2^k such as the three of [_SIZE_FACTORS]. *)
Lemma scale_exact (n k : Z) :
  0 <= n < 2 ^ 53 -> 0 < k <= 52 ->
  int_of_float (fmul (round_ratio false n 1) (of_int (2 ^ k))) = Ok (n * 2 ^ k).
Proof.
  intros Hn Hk.
  assert (0 < 2 ^ k) as Hpk by (apply Z.pow_pos_nonneg; lia).
  assert (of_int (2 ^ k) = Fin false (2 ^ 52) (k - 52)) as ->.
  { unfold of_int.
    replace (2 ^ k <? 0) with false by (symmetry; apply Z.ltb_ge; lia).
    rewrite Z.abs_eq by lia.
    pose proof (round_ratio_exact 1 k 0) as H.
    rewrite Z.mul_1_l in H. change (2 ^ 0) with 1 in H.
    change (Z.log2 1) with 0 in H. rewrite H by (cbn; lia).
    f_equal; lia. }
  destruct (Z.eq_dec n 0) as [->|Hn0]; [reflexivity|].
  pose proof (round_ratio_exact n 0 0) as H.
  change (2 ^ 0) with 1 in H. rewrite Z.mul_1_r in H.
  pose proof (Z.log2_nonneg n) as HL0.
  assert (Z.log2 n < 53) as HL1 by (apply Z.log2_lt_pow2; lia).
  rewrite H by lia. clear H.
  set (L := Z.log2 n) in *.
  assert (0 < 2 ^ (52 - L)) as Hp52 by (apply Z.pow_pos_nonneg; lia).
  unfold fmul. cbn [xorb].
  replace (Z.max 0 (L + 0 - 0 - 52 + (k - 52))) with 0 by lia.
  replace (Z.max 0 (- (L + 0 - 0 - 52 + (k - 52)))) with (104 - L - k) by lia.
  rewrite Z.pow_0_r, Z.mul_1_r.
  replace (n * 2 ^ (52 - L) * 2 ^ 52) with (n * 2 ^ (104 - L))
    by (rewrite <- Z.mul_assoc, <- Z.pow_add_r by lia; do 2 f_equal; lia).
  rewrite round_ratio_exact by (fold L; lia). fold L.
  unfold int_of_float.
  replace (L + (104 - L) - (104 - L - k) - 52) with (L + k - 52) by lia.
  destruct (Z.leb_spec 0 (L + k - 52)) as [He|He]; f_equal.
  - rewrite <- Z.mul_assoc, <- Z.pow_add_r by lia.
    replace (52 - L + (L + k - 52)) with k by lia. reflexivity.
  - replace (n * 2 ^ (52 - L)) with (n * 2 ^ k * 2 ^ (- (L + k - 52)))
      by (rewrite <- Z.mul_assoc, <- Z.pow_add_r by lia; do 2 f_equal; lia).
    apply Z.div_mul.
    assert (0 < 2 ^ (- (L + k - 52))) by (apply Z.pow_pos_nonneg; lia). lia.
Qed.

(** ** Digits *)

Lemma digit_facts (c : ascii) :
  isdigit c = true ->
  c_isspace c = false /\ isspace c = false /\ lower_char c = c
  /\ is_underscore c = false /\ Ascii.eqb c "-" = false
  /\ Ascii.eqb c "+" = false /\ _SIZE_FACTORS c = None
  /\ Ascii.eqb c "i" = false /\ Ascii.eqb c "n" = false.
Proof.
  destruct c as [[] [] [] [] [] [] [] []]; intros H;
    try discriminate H; repeat split; reflexivity.
Qed.

Lemma suffix_facts (c : ascii) (k : Z) :
  In (c, k) size_suffixes ->
  isspace c = false /\ _SIZE_FACTORS (lower_char c) = Some (2 ^ k)
  /\ 0 < k <= 52.
Proof.
  intros [H|[H|[H|[H|[H|[H|[]]]]]]]; injection H as <- <-;
    repeat split; try reflexivity; lia.
Qed.

Lemma dropwhile_head (f : ascii -> bool) (c : ascii) (l : list ascii) :
  f c = false -> dropwhile f (c :: l) = c :: l.
Proof. intros H. cbn. now rewrite H. Qed.

(** Stripping leaves a text alone whose two ends are not stripped. *)
Lemma strip_with_clean (f : ascii -> bool) (a z : ascii) (l : list ascii) :
  f a = false -> f z = false ->
  (strip_with f (str [a]) = str [a])
  /\ strip_with f (str (a :: l ++ [z])%list) = str (a :: l ++ [z])%list.
Proof.
  intros Ha Hz. unfold strip_with. rewrite !chars_str. split.
  - rewrite dropwhile_head by assumption. cbn [rev app].
    now rewrite dropwhile_head by assumption.
  - rewrite dropwhile_head by assumption.
    change (a :: l ++ [z])%list with ((a :: l) ++ [z])%list.
    rewrite rev_app_distr. cbn [rev app].
    rewrite dropwhile_head by assumption.
    change (z :: rev l ++ [a])%list with (rev [z] ++ rev (a :: l))%list.
    now rewrite <- rev_app_distr, rev_involutive.
Qed.

Lemma nonempty_ends (l : list ascii) :
  l <> [] ->
  (exists a, l = [a]) \/ exists a m z, l = (a :: m ++ [z])%list.
Proof.
  intros H. destruct l as [|a l]; [contradiction|].
  destruct l as [|b l]; [left; now exists a|].
  right. destruct (exists_last (l := b :: l) ltac:(discriminate)) as [m [z E]].
  exists a, m, z. now rewrite E.
Qed.

Lemma strip_with_ends (f : ascii -> bool) (l : list ascii) :
  l <> [] -> f (hd "0"%char l) = false -> f (last l "0"%char) = false ->
  strip_with f (str l) = str l.
Proof.
  intros Hne Hh Hl. destruct (nonempty_ends l Hne) as [[a ->]|[a [m [z ->]]]].
  - now apply (strip_with_clean f a a []).
  - cbn [hd] in Hh. change (a :: m ++ [z])%list with ((a :: m) ++ [z])%list in Hl.
    rewrite last_last in Hl. now apply strip_with_clean.
Qed.

Lemma lower_str (l : list ascii) : lower (str l) = str (map lower_char l).
Proof.
  unfold str. induction l as [|c l IH]; cbn; [reflexivity | now rewrite IH].
Qed.

Lemma map_lower_digits (ds : list ascii) :
  forallb isdigit ds = true -> map lower_char ds = ds.
Proof.
  induction ds as [|c ds IH]; cbn; [reflexivity|].
  intros H. apply andb_true_iff in H as [Hc Hds].
  destruct (digit_facts c Hc) as [_ [_ [-> _]]]. now rewrite IH.
Qed.

Lemma digits_hd_last (ds : list ascii) :
  ds <> [] -> forallb isdigit ds = true ->
  isdigit (hd "0"%char ds) = true /\ isdigit (last ds "0"%char) = true.
Proof.
  intros Hne H. rewrite forallb_forall in H. split; apply H.
  - destruct ds; [contradiction | now left].
  - destruct (exists_last Hne) as [m [z ->]]. rewrite last_last.
    apply in_or_app. right. now left.
Qed.

Lemma drop_underscores_digits (ds : list ascii) :
  forallb isdigit ds = true ->
  forall prev, prev_is prev is_underscore = false ->
              drop_underscores prev ds = Some ds.
Proof.
  induction ds as [|c ds IH]; intros H prev Hp; cbn [drop_underscores].
  - now rewrite Hp.
  - cbn in H. apply andb_true_iff in H as [Hc Hds].
    destruct (digit_facts c Hc) as [_ [_ [_ [Hu _]]]].
    rewrite Hu, Hp. cbn [andb].
    rewrite (IH Hds (Some c)) by exact Hu. reflexivity.
Qed.

Lemma span_digits_all (ds : list ascii) :
  forallb isdigit ds = true -> span_digits ds = (ds, []).
Proof.
  induction ds as [|c ds IH]; cbn; [reflexivity|].
  intros H. apply andb_true_iff in H as [-> Hds]. now rewrite IH.
Qed.

Lemma split_sign_digits (ds : list ascii) :
  forallb isdigit ds = true -> split_sign ds = (false, ds).
Proof.
  destruct ds as [|c ds]; [reflexivity|]. cbn.
  intros H. apply andb_true_iff in H as [Hc _].
  destruct (digit_facts c Hc) as [_ [_ [_ [_ [-> [-> _]]]]]]. reflexivity.
Qed.

(** [int()] on a text of digits. *)
Lemma int_of_str_digits (ds : list ascii) :
  ds <> [] -> forallb isdigit ds = true ->
  (List.length ds <= int_max_str_digits)%nat ->
  int_of_str (str ds) = Ok (digits_value ds).
Proof.
  intros Hne Hds Hlen. unfold int_of_str.
  destruct (digits_hd_last ds Hne Hds) as [Hh Hl].
  rewrite strip_with_ends, chars_str;
    [|exact Hne | apply (digit_facts _ Hh) | apply (digit_facts _ Hl)].
  rewrite (split_sign_digits ds Hds).
  rewrite (drop_underscores_digits ds Hds None eq_refl).
  destruct ds as [|c ds]; [contradiction|].
  rewrite Hds. apply Nat.leb_le in Hlen. now rewrite Hlen.
Qed.

(** [float()] on a text of digits. *)
Lemma float_of_str_digits (ds : list ascii) :
  ds <> [] -> forallb isdigit ds = true ->
  float_of_str (str ds) = Ok (round_ratio false (digits_value ds) 1).
Proof.
  intros Hne Hds. unfold float_of_str.
  destruct (digits_hd_last ds Hne Hds) as [Hh Hl].
  rewrite strip_with_ends, chars_str;
    [|exact Hne | apply (digit_facts _ Hh) | apply (digit_facts _ Hl)].
  rewrite (drop_underscores_digits ds Hds None eq_refl).
  rewrite (split_sign_digits ds Hds).
  rewrite lower_str, (map_lower_digits ds Hds).
  assert (forall w, String.eqb (str ds) w = true ->
                    isdigit (hd "0"%char (chars w)) = true) as Hw.
  { intros w E. apply String.eqb_eq in E. subst w. now rewrite chars_str. }
  destruct (String.eqb (str ds) "inf") eqn:E1;
    [apply Hw in E1; discriminate|].
  destruct (String.eqb (str ds) "infinity") eqn:E2;
    [apply Hw in E2; discriminate|].
  destruct (String.eqb (str ds) "nan") eqn:E3;
    [apply Hw in E3; discriminate|].
  cbn [orb]. rewrite (span_digits_all ds Hds), app_nil_r.
  destruct ds as [|c ds]; [contradiction|].
  cbn [parse_exponent List.length Z.of_nat].
  unfold decimal_to_float. cbn [Z.sub Z.opp Z.leb Z.compare].
  now rewrite Z.pow_0_r, Z.mul_1_r.
Qed.

Lemma last_char_snoc (l : list ascii) (c : ascii) :
  last_char (str (l ++ [c])%list) = Ok c.
Proof.
  unfold last_char. now rewrite chars_str, rev_app_distr.
Qed.

Lemma but_last_snoc (l : list ascii) (c : ascii) :
  but_last (str (l ++ [c])%list) = str l.
Proof.
  unfold but_last. now rewrite chars_str, removelast_last.
Qed.

Lemma str_nonempty (l : list ascii) : l <> [] -> String.eqb (str l) "" = false.
Proof.
  intros H. apply String.eqb_neq. intros E. apply H.
  now rewrite <- (chars_str l), E.
Qed.

Lemma digits_value_nonneg (ds : list ascii) :
  forallb isdigit ds = true -> 0 <= digits_value ds.
Proof.
  unfold digits_value. intros H.
  assert (forall l acc, forallb isdigit l = true -> 0 <= acc ->
            0 <= fold_left (fun a x => 10 * a + digit_value x) l acc) as Hfold.
  { induction l as [|x l IH]; intros acc Hl Hacc; cbn [fold_left];
      [exact Hacc|].
    cbn [forallb] in Hl. apply andb_true_iff in Hl as [Hx Hl].
    apply IH; [exact Hl|].
    unfold isdigit in Hx. cbv zeta in Hx.
    apply andb_true_iff in Hx as [Hx _].
    apply Z.leb_le in Hx. unfold digit_value. lia. }
  now apply Hfold.
Qed.

Lemma parse_size_digits (ds : list ascii) (d : Z) :
  ds <> [] -> forallb isdigit ds = true ->
  (List.length ds <= int_max_str_digits)%nat ->
  parse_size (str ds) d = Ok (digits_value ds).
Proof.
  intros Hne Hds Hlen. unfold parse_size.
  rewrite (str_nonempty ds Hne).
  destruct (digits_hd_last ds Hne Hds) as [Hh Hl].
  unfold strip. rewrite strip_with_ends;
    [|exact Hne | apply (digit_facts _ Hh) | apply (digit_facts _ Hl)].
  rewrite lower_str, (map_lower_digits ds Hds).
  unfold parse_size_body.
  destruct (exists_last Hne) as [m [z E]].
  rewrite E at 1. rewrite last_char_snoc. cbn [bind].
  rewrite E, last_last in Hl.
  destruct (digit_facts z Hl) as [_ [_ [_ [_ [_ [_ [-> _]]]]]]].
  now rewrite (int_of_str_digits ds Hne Hds Hlen).
Qed.

Lemma parse_size_suffixed (ds : list ascii) (c : ascii) (k d : Z) :
  ds <> [] -> forallb isdigit ds = true -> digits_value ds < 2 ^ 53 ->
  In (c, k) size_suffixes ->
  parse_size (str (ds ++ [c])%list) d = Ok (digits_value ds * 2 ^ k).
Proof.
  intros Hne Hds Hv Hc. unfold parse_size.
  rewrite str_nonempty by (destruct ds; discriminate).
  destruct (digits_hd_last ds Hne Hds) as [Hh _].
  destruct (suffix_facts c k Hc) as [Hsp [Hf Hk]].
  unfold strip. rewrite strip_with_ends;
    [ | destruct ds; discriminate
      | destruct ds; [contradiction | apply (digit_facts _ Hh)]
      | now rewrite last_last ].
  rewrite lower_str, map_app, (map_lower_digits ds Hds). cbn [map].
  unfold parse_size_body.
  rewrite last_char_snoc. cbn [bind]. rewrite Hf, but_last_snoc.
  rewrite (float_of_str_digits ds Hne Hds). cbn [bind try_except].
  pose proof (digits_value_nonneg ds Hds) as H0.
  now rewrite scale_exact by lia.
Qed.

(** C3 (as amended): The size parser, on ASCII text.  Whatever the
    default [d]: ["1m"] is 1048576, ["500k"] is 512000, the empty text
    is [d], and ["abc"] is refused with the malformed-size error, as is
    ["1e308g"], whose scaled value is not finite.  The text is first
    stripped of surrounding white space and lowered.  A text of digits
    (4300 at most, the limit of [int()]) is the integer it shows; digits
    showing an integer below 2^53, followed by one of k, m, g in either
    case, are that integer times 1024, 1024^2, 1024^3, and a fraction
    is allowed before the suffix (["1.5m"] is 1572864).  A result comes
    only from [int()] reading the whole text, or from [float()] reading
    all of it but a final suffix; any other text is refused, and the
    only error raised is the malformed-size error. *)
Theorem parse_size_spec (d : Z) :
  (parse_size "1m" d = Ok 1048576
   /\ parse_size "500k" d = Ok 512000
   /\ parse_size "" d = Ok d
   /\ parse_size "abc" d = Raise (ValueError "Invalid size value" "abc")
   /\ parse_size "1.5m" d = Ok 1572864
   /\ parse_size "1e308g" d = Raise (ValueError "Invalid size value" "1e308g"))
  /\ (forall s s',
        ascii_text s = true -> ascii_text s' = true ->
        s <> "" -> s' <> "" -> lower (strip s) = lower (strip s') ->
        parse_size s d = parse_size s' d)
  /\ (forall ds,
        ds <> [] -> forallb isdigit ds = true ->
        (List.length ds <= int_max_str_digits)%nat ->
        parse_size (str ds) d = Ok (digits_value ds))
  /\ (forall ds c k,
        ds <> [] -> forallb isdigit ds = true -> digits_value ds < 2 ^ 53 ->
        In (c, k) size_suffixes ->
        parse_size (str (ds ++ [c])%list) d = Ok (digits_value ds * 2 ^ k))
  /\ (forall s v,
        ascii_text s = true -> s <> "" ->
        (parse_size s d = Ok v
         <-> exists c,
               last_char (lower (strip s)) = Ok c
               /\ ((_SIZE_FACTORS c = None
                    /\ int_of_str (lower (strip s)) = Ok v)
                   \/ exists factor x,
                        _SIZE_FACTORS c = Some factor
                        /\ float_of_str (but_last (lower (strip s))) = Ok x
                        /\ int_of_float (fmul x (of_int factor)) = Ok v)))
  /\ (forall s e,
        ascii_text s = true ->
        parse_size s d = Raise e ->
        e = ValueError "Invalid size value" (lower (strip s))).
Proof.
  split; [repeat split; vm_compute; reflexivity|].
  split; [|split; [|split; [|split]]].
  - intros s s' _ _ Hs Hs' E. unfold parse_size.
    apply String.eqb_neq in Hs, Hs'. now rewrite Hs, Hs', E.
  - intros ds. apply parse_size_digits.
  - intros ds c k. apply parse_size_suffixed.
  - intros s v _ Hs. unfold parse_size, parse_size_body.
    apply String.eqb_neq in Hs. rewrite Hs. split.
    + intros H.
      destruct (last_char (lower (strip s))) as [c|];
        cbn [bind try_except] in H; [|discriminate].
      exists c. split; [reflexivity|].
      destruct (_SIZE_FACTORS c) as [factor|].
      * right.
        destruct (float_of_str (but_last (lower (strip s)))) as [x|];
          cbn [bind try_except] in H; [|discriminate].
        exists factor, x. split; [reflexivity|]. split; [reflexivity|].
        destruct (int_of_float (fmul x (of_int factor)));
          cbn [try_except] in H; [congruence | discriminate].
      * left. split; [reflexivity|].
        destruct (int_of_str (lower (strip s)));
          cbn [try_except] in H; [congruence | discriminate].
    + intros [c [Hc [[Hn Hv]|[factor [x [Hf [Hx Hv]]]]]]];
        rewrite Hc; cbn [bind].
      * now rewrite Hn, Hv.
      * rewrite Hf, Hx. cbn [bind]. now rewrite Hv.
  - intros s e _. unfold parse_size.
    destruct (String.eqb s ""); [discriminate|].
    destruct (parse_size_body (lower (strip s))); cbn [try_except];
      [discriminate|].
    intros H. now injection H as <-.
Qed.

Lemma parse_size_spec_witness :
  (["4"%char; "2"%char] <> [] /\ forallb isdigit ["4"%char; "2"%char] = true
   /\ digits_value ["4"%char; "2"%char] < 2 ^ 53
   /\ In ("G"%char, 30) size_suffixes)
  /\ parse_size "42G" 0 = Ok (42 * 2 ^ 30).
Proof.
  assert (["4"%char; "2"%char] <> []) as H1 by discriminate.
  assert (forallb isdigit ["4"%char; "2"%char] = true) as H2 by reflexivity.
  assert (digits_value ["4"%char; "2"%char] < 2 ^ 53) as H3 by reflexivity.
  assert (In ("G"%char, 30) size_suffixes) as H4
      by (do 5 right; left; reflexivity).
  split; [repeat split; assumption|].
  destruct (parse_size_spec 0) as [_ [_ [_ [Hsuffix _]]]].
  exact (Hsuffix ["4"%char; "2"%char] "G"%char 30 H1 H2 H3 H4).
Defined.

(** C3, as first stated, fails: white space between the number and the
    suffix is accepted, [float()] passing it over. *)
Lemma parse_size_accepts_inner_space :
  parse_size "1 k" 0 = Ok 1024
  /\ float_of_str "1 " = Ok (round_ratio false 1 1)
  /\ parse_size (" 1.5 M" ++ nl) 0 = Ok 1572864.
Proof. repeat split; vm_compute; reflexivity. Qed.

End SizeParser.
(* ================================================================== *)
(** * What the visibility filter guarantees of the output              *)
(* ================================================================== *)

Section FilterInvariants.
Variable self : Stitcher.






End FilterInvariants.







(* ================================================================== *)
(** * Building a stitcher                                              *)
(* ================================================================== *)

Section Construction.

Variable pathspec : option (list string -> exc (string -> bool)).
Variable decode : string -> string -> list byte -> exc string.
Variable clock : string.

(** The pattern list, step by step: the built-in and preset patterns,
    then the lines of the ignore file, then the extra patterns. *)
Lemma ignore_patterns_steps (opts : StitchOptions) (rt : Path) :
  ignore_patterns decode opts rt
  = (base <- ignore_patterns decode (base_options opts) rt ;;
     mid <- (if use_gitignore opts then
               there <- pathlib.exists_ (gi_path opts rt) ;;
               if there then
                 match open_text decode (gi_path opts rt) "utf-8" "ignore" with
                 | Ok content => Ok (base ++ gitignore_lines content)%list
                 | Raise _ => Ok base
                 end
               else Ok base
             else Ok base) ;;
     Ok (mid ++ extra_ignores opts)%list).
Proof.
  unfold ignore_patterns, base_options, gi_path.
  cbn [with_extra_ignores with_gitignore use_gitignore preset gitignore
       extra_ignores].
  destruct (match preset opts with Some p => _ | None => _ end) as [pats|e];
    cbn [bind]; [|reflexivity].
  destruct (if use_gitignore opts then _ else _) as [mid|e]; cbn [bind];
    [|reflexivity].
  destruct (extra_ignores opts); [now rewrite app_nil_r | reflexivity].
Qed.

Lemma known_preset_base (opts : StitchOptions) (rt : Path) :
  known_preset opts ->
  exists base, ignore_patterns decode (base_options opts) rt = Ok base.
Proof.
  unfold ignore_patterns, base_options.
  cbn [with_extra_ignores with_gitignore use_gitignore preset gitignore
       extra_ignores].
  intros [->|[->|[p [-> Hp]]]]; cbn [bind].
  - eexists; reflexivity.
  - eexists; reflexivity.
  - destruct (String.eqb p ""); cbn [bind]; [eexists; reflexivity|].
    destruct Hp as [->| ->]; cbn [bind]; eexists; reflexivity.
Qed.

Lemma unknown_preset_base (opts : StitchOptions) (rt : Path) (p : string) :
  preset opts = Some p -> p <> "" ->
  lower p <> "python" -> lower p <> "node" ->
  ignore_patterns decode opts rt = Raise (ValueError "Unknown preset" p).
Proof.
  intros Hp Hne H1 H2. unfold ignore_patterns. rewrite Hp.
  apply String.eqb_neq in Hne, H1, H2. rewrite Hne.
  unfold lookup_preset, PRESETS. cbn [find fst].
  rewrite String.eqb_sym, H1, String.eqb_sym, H2. reflexivity.
Qed.

(** An ignore file that leads to a regular file, a directory or
    nothing never makes the pattern list fail. *)
Lemma ordinary_patterns (opts : StitchOptions) (rt : Path) :
  known_preset opts ->
  use_gitignore opts = false \/ ordinary (gi_path opts rt) = true ->
  exists pats, ignore_patterns decode opts rt = Ok pats.
Proof.
  intros Hp Hgi. rewrite ignore_patterns_steps.
  destruct (known_preset_base opts rt Hp) as [base ->]. cbn [bind].
  destruct (use_gitignore opts); [|eexists; reflexivity].
  destruct Hgi as [Hgi|Hgi]; [discriminate Hgi|].
  unfold ordinary in Hgi. unfold pathlib.exists_.
  destruct (target (gi_path opts rt)) eqn:Et; try discriminate Hgi;
    cbn [bind]; try (eexists; reflexivity);
    destruct (open_text decode (gi_path opts rt) "utf-8" "ignore");
    eexists; reflexivity.
Qed.

Lemma denied_patterns (opts : StitchOptions) (rt : Path) :
  known_preset opts -> use_gitignore opts = true ->
  denied (gi_path opts rt) = true ->
  ignore_patterns decode opts rt = Raise OSError.
Proof.
  intros Hp Hu Hd. rewrite ignore_patterns_steps.
  destruct (known_preset_base opts rt Hp) as [base ->]. cbn [bind].
  rewrite Hu. unfold denied in Hd. unfold pathlib.exists_.
  destruct (target (gi_path opts rt)); try discriminate Hd. reflexivity.
Qed.

Lemma init_directory (opts : StitchOptions) :
  is_dir (root opts) = true ->
  __init__ pathspec decode clock opts
  = (spec <- _build_pathspec pathspec decode opts (root opts) ;;
     Ok (mkStitcher opts (root opts) spec clock)).
Proof.
  intros Hd. rewrite init_cases. unfold is_dir in Hd.
  destruct (target (root opts)); try discriminate Hd. reflexivity.
Qed.


End Construction.

Lemma init_fallback_ok
    (decode : string -> string -> list byte -> exc string) (clock : string)
    (opts : StitchOptions) :
  is_dir (root opts) = true -> known_preset opts ->
  use_gitignore opts = false \/ ordinary (gi_path opts (root opts)) = true ->
  exists self,
    __init__ None decode clock opts = Ok self
    /\ o self = opts /\ self_root self = root opts /\ _now self = clock.
Proof.
  intros Hd Hp Hgi. rewrite init_directory by exact Hd.
  unfold _build_pathspec.
  destruct (ordinary_patterns decode opts (root opts) Hp Hgi) as [pats ->].
  cbn [bind]. eexists. repeat split.
Qed.

(** X4: Construction.  The root is looked at first: a link that loops
    makes [resolve] raise [RuntimeError], a root that cannot be looked
    at makes [exists] raise an [OSError], and a root that leads to
    anything but a directory is refused with the [ValueError] of
    [__init__].  Under a directory, a preset is refused unless its
    name, lowered, is [python] or [node] (an empty name counts as no
    preset); then an ignore file that cannot be looked at makes
    [exists], which no handler guards, raise an [OSError].  On a host
    without [pathspec], with a known preset and an ignore file that is
    not used or leads to a regular file, a directory or nothing, the
    stitcher is built, over the options, the root and the clock. *)
Theorem init_outcome
    (pathspec : option (list string -> exc (string -> bool)))
    (decode : string -> string -> list byte -> exc string) (clock : string)
    (opts : StitchOptions) :
  match target (root opts) with
  | Loop => __init__ pathspec decode clock opts = Raise RuntimeError
  | Denied => __init__ pathspec decode clock opts = Raise OSError
  | Dir _ _ =>
      (forall p,
         preset opts = Some p -> p <> "" ->
         lower p <> "python" -> lower p <> "node" ->
         __init__ pathspec decode clock opts
         = Raise (ValueError "Unknown preset" p))
      /\ (known_preset opts -> use_gitignore opts = true ->
          denied (gi_path opts (root opts)) = true ->
          __init__ pathspec decode clock opts = Raise OSError)
      /\ (pathspec = None -> known_preset opts ->
          use_gitignore opts = false
          \/ ordinary (gi_path opts (root opts)) = true ->
          exists self,
            __init__ pathspec decode clock opts = Ok self
            /\ o self = opts /\ self_root self = root opts
            /\ _now self = clock)
  | _ => __init__ pathspec decode clock opts
         = Raise (ValueError "Root does not exist or is not a directory"
                             (root_resolved opts))
  end.
Proof.
  destruct (target (root opts)) eqn:Et; try (rewrite init_cases, Et; reflexivity).
  assert (is_dir (root opts) = true) as Hd by (unfold is_dir; now rewrite Et).
  split; [|split].
  - intros p Hp Hne H1 H2. rewrite init_directory by exact Hd.
    unfold _build_pathspec.
    now rewrite (unknown_preset_base decode opts (root opts) p Hp Hne H1 H2).
  - intros Hp Hu Hden. rewrite init_directory by exact Hd.
    unfold _build_pathspec. now rewrite denied_patterns.
  - intros -> Hp Hgi. now apply init_fallback_ok.
Qed.

Lemma init_outcome_witness :
  known_preset drift_options
  /\ (use_gitignore drift_options = false
      \/ ordinary (gi_path drift_options (root drift_options)) = true)
  /\ exists self,
       __init__ None ascii_codec sample_clock drift_options = Ok self
       /\ self_root self = drift_root.
Proof.
  assert (known_preset drift_options) as H1 by (now left).
  assert (use_gitignore drift_options = false
          \/ ordinary (gi_path drift_options (root drift_options)) = true)
    as H2 by (now left).
  split; [exact H1|]. split; [exact H2|].
  destruct (proj2 (proj2 (init_outcome None ascii_codec sample_clock
                            drift_options)) eq_refl H1 H2)
    as [self [Hs [_ [Hr _]]]].
  exists self. split; [exact Hs | exact Hr].
Defined.

(* ================================================================== *)
(** * The ignore file                                                  *)
(* ================================================================== *)

(** X5: The ignore file.  The file consulted is the one given in the
    options, else [.gitignore] under the root.  When nothing is there,
    or what is there is a directory, a regular file there is no leave
    to read, a special file that refuses to be opened, or bytes the
    codec refuses, the patterns are those of a run that does not use
    it, and nothing is raised for it; when what is there cannot be
    looked at, the test for its existence raises, and so does the
    construction.  When the file is read, its lines come after the
    built-in and preset patterns and before the extra ones; and a file
    given in the options makes the root's own [.gitignore] irrelevant. *)
Theorem ignore_file_handling
    (decode : string -> string -> list byte -> exc string)
    (opts : StitchOptions) (rt : Path) :
  (match target (gi_path opts rt) with
   | Absent | Loop | Dir _ _ | Reg false _ | Special (Raise _) => True
   | Reg true data | Special (Ok data) =>
       exists e, decode "utf-8" "ignore" data = Raise e
   | Denied => False
   end ->
   ignore_patterns decode opts rt
   = ignore_patterns decode (with_gitignore opts false) rt)
  /\ (known_preset opts -> use_gitignore opts = true ->
      denied (gi_path opts rt) = true ->
      ignore_patterns decode opts rt = Raise OSError)
  /\ (use_gitignore opts = true ->
      forall content base,
        open_text decode (gi_path opts rt) "utf-8" "ignore" = Ok content ->
        ignore_patterns decode (base_options opts) rt = Ok base ->
        ignore_patterns decode opts rt
        = Ok (base ++ gitignore_lines content ++ extra_ignores opts)%list)
  /\ (forall g rt', gitignore opts = Some g ->
        ignore_patterns decode opts rt = ignore_patterns decode opts rt').
Proof.
  split; [|split; [|split]].
  - intros Hbad. rewrite (ignore_patterns_steps decode opts rt).
    rewrite (ignore_patterns_steps decode (with_gitignore opts false) rt).
    change (base_options (with_gitignore opts false)) with (base_options opts).
    cbn [with_gitignore use_gitignore extra_ignores].
    destruct (ignore_patterns decode (base_options opts) rt) as [base|e];
      cbn [bind]; [|reflexivity].
    destruct (use_gitignore opts); [|reflexivity].
    unfold pathlib.exists_, open_text.
    destruct (target (gi_path opts rt)) as [[|] data|[data|e]| |b es| |];
      cbn [bind]; try reflexivity; try contradiction;
      destruct Hbad as [e ->]; reflexivity.
  - apply denied_patterns.
  - intros Hu content base Hopen Hbase.
    rewrite ignore_patterns_steps, Hbase, Hu. cbn [bind].
    assert (pathlib.exists_ (gi_path opts rt) = Ok true) as ->.
    { unfold open_text in Hopen. unfold pathlib.exists_.
      destruct (target (gi_path opts rt)) as [[|] data|[data|e]| |b es| |];
        try discriminate Hopen; reflexivity. }
    cbn [bind]. rewrite Hopen. cbn [bind]. now rewrite <- app_assoc.
  - intros g rt' Hg. unfold ignore_patterns. rewrite Hg. reflexivity.
Qed.

Lemma ignore_file_handling_witness :
  match target (gi_path
                  (default_options
                     (directory "repo" [mkPath ".gitignore" false (Dir true [])])
                     "/repo")
                  (directory "repo" [mkPath ".gitignore" false (Dir true [])]))
  with
  | Absent | Loop | Dir _ _ | Reg false _ | Special (Raise _) => True
  | Reg true data | Special (Ok data) =>
      exists e, ascii_codec "utf-8" "ignore" data = Raise e
  | Denied => False
  end
  /\ ignore_patterns ascii_codec
       (default_options
          (directory "repo" [mkPath ".gitignore" false (Dir true [])]) "/repo")
       (directory "repo" [mkPath ".gitignore" false (Dir true [])])
     = Ok DEFAULT_GLOBAL_IGNORES.
Proof.
  split; [exact I|].
  rewrite (proj1 (ignore_file_handling ascii_codec
             (default_options
                (directory "repo" [mkPath ".gitignore" false (Dir true [])])
                "/repo")
             (directory "repo" [mkPath ".gitignore" false (Dir true [])])) I).
  reflexivity.
Defined.

(** ** Reading the patterns of an ignore file *)

Lemma dropwhile_nil (f : ascii -> bool) (l : list ascii) :
  forallb f l = true -> dropwhile f l = [].
Proof.
  induction l as [|c l IH]; cbn [forallb dropwhile]; [reflexivity|].
  destruct (f c); [exact IH | discriminate].
Qed.

Lemma dropwhile_not_all (f : ascii -> bool) (l : list ascii) :
  forallb f l = false -> forallb f (dropwhile f l) = false.
Proof.
  induction l as [|c l IH]; cbn [forallb dropwhile]; [discriminate|].
  destruct (f c) eqn:E; [exact IH|]. intros _. cbn [forallb]. now rewrite E.
Qed.

Lemma forallb_rev (f : ascii -> bool) (l : list ascii) :
  forallb f (rev l) = forallb f l.
Proof.
  induction l as [|c l IH]; [reflexivity|].
  cbn [rev forallb]. rewrite forallb_app, IH. cbn [forallb].
  rewrite andb_true_r. apply andb_comm.
Qed.

(** A text strips to nothing exactly when all of it is stripped. *)
Lemma strip_with_blank (f : ascii -> bool) (s : string) :
  String.eqb (strip_with f s) "" = forallb f (chars s).
Proof.
  unfold strip_with. destruct (forallb f (chars s)) eqn:E.
  - rewrite (dropwhile_nil _ _ E). reflexivity.
  - apply dropwhile_not_all in E. rewrite <- forallb_rev in E.
    apply dropwhile_not_all in E. rewrite <- forallb_rev in E.
    destruct (rev _); [discriminate E | reflexivity].
Qed.

Lemma rstrip_lf_body (body : list ascii) :
  ~ In "010"%char body ->
  rstrip_with (Ascii.eqb "010") (str body) = str body
  /\ rstrip_with (Ascii.eqb "010") (str (body ++ ["010"%char])) = str body.
Proof.
  intros H.
  assert (dropwhile (Ascii.eqb "010") (rev body) = rev body) as Hd.
  { destruct (rev body) as [|c r] eqn:E; [reflexivity|].
    apply dropwhile_head. apply Ascii.eqb_neq. intros <-. apply H.
    apply in_rev. rewrite E. now left. }
  unfold rstrip_with. rewrite !chars_str. split.
  - now rewrite Hd, rev_involutive.
  - rewrite rev_app_distr. cbn [rev app dropwhile].
    rewrite Ascii.eqb_refl, Hd. now rewrite rev_involutive.
Qed.

Lemma file_lines_body (p : string) (cur : list ascii) (rest : string) :
  ~ In "010"%char (chars p) ->
  file_lines cur (p ++ nl ++ rest)
  = str (rev cur ++ chars p ++ ["010"%char]) :: file_lines [] rest.
Proof.
  revert cur. induction p as [|c p IH]; intros cur H.
  - cbn [String.append nl file_lines chars list_ascii_of_string app].
    rewrite Ascii.eqb_refl. reflexivity.
  - cbn [String.append file_lines]. cbn [chars list_ascii_of_string] in H.
    destruct (Ascii.eqb_spec c "010") as [->|Hc]; [exfalso; apply H; now left|].
    rewrite IH by (intros Hin; apply H; now right).
    cbn [rev chars list_ascii_of_string]. now rewrite <- app_assoc.
Qed.

Lemma file_lines_last (p : string) (cur : list ascii) :
  ~ In "010"%char (chars p) ->
  file_lines cur p
  = match (rev cur ++ chars p)%list with
    | [] => []
    | l => [str l]
    end.
Proof.
  revert cur. induction p as [|c p IH]; intros cur H.
  - cbn [file_lines chars list_ascii_of_string]. rewrite app_nil_r.
    destruct cur as [|x cur]; [reflexivity|].
    destruct (rev (x :: cur)) eqn:E; [|reflexivity].
    apply (f_equal (@List.length ascii)) in E. rewrite length_rev in E.
    discriminate E.
  - cbn [file_lines]. cbn [chars list_ascii_of_string] in H.
    destruct (Ascii.eqb_spec c "010") as [->|Hc]; [exfalso; apply H; now left|].
    rewrite IH by (intros Hin; apply H; now right).
    cbn [rev chars list_ascii_of_string]. now rewrite <- app_assoc.
Qed.

(** Every line of a text is a body without line feed, followed by one
    line feed or, for the last line, by nothing. *)
Lemma file_lines_shape (s : string) (cur : list ascii) :
  ~ In "010"%char cur ->
  Forall (fun line => exists body,
            ~ In "010"%char body
            /\ (line = str body \/ line = str (body ++ ["010"%char])))
         (file_lines cur s).
Proof.
  revert cur. induction s as [|c s IH]; intros cur H.
  - cbn [file_lines]. destruct cur as [|x cur]; constructor; [|constructor].
    exists (rev (x :: cur)). split; [|now left].
    intros Hin. apply H. now apply in_rev.
  - cbn [file_lines]. destruct (Ascii.eqb_spec c "010") as [->|Hc].
    + constructor; [|apply IH; intros []].
      exists (rev cur). split; [intros Hin; apply H; now apply in_rev|].
      right. reflexivity.
    + apply IH. intros [E|Hin]; [now apply Hc | now apply H].
Qed.

Lemma universal_newlines_body (p rest : string) :
  ~ In "013"%char (chars p) ->
  universal_newlines (p ++ rest) = p ++ universal_newlines rest.
Proof.
  induction p as [|c p IH]; intros H; [reflexivity|].
  cbn [String.append universal_newlines]. cbn [chars list_ascii_of_string] in H.
  destruct (Ascii.eqb_spec c "013") as [->|Hc]; [exfalso; apply H; now left|].
  rewrite IH by (intros Hin; apply H; now right). reflexivity.
Qed.

Lemma universal_newlines_eol (e rest : string) :
  In e line_endings ->
  match rest with
  | String c _ => c <> "010"%char /\ c <> "013"%char
  | EmptyString => True
  end ->
  universal_newlines (e ++ rest) = nl ++ universal_newlines rest.
Proof.
  intros [<-|[<-|[<-|[]]]] H; try reflexivity.
  destruct rest as [|d t]; [reflexivity|]. destruct H as [H1 H2].
  cbn [String.append universal_newlines nl].
  rewrite Ascii.eqb_refl. apply Ascii.eqb_neq in H1, H2.
  now rewrite H1, H2.
Qed.

Lemma gitignore_lines_cons (p rest : string) :
  forallb isspace (chars p) = false -> ~ In "010"%char (chars p) ->
  gitignore_lines (p ++ nl ++ rest) = p :: gitignore_lines rest.
Proof.
  intros Hb Hl. unfold gitignore_lines.
  rewrite file_lines_body by assumption. cbn [rev app filter].
  unfold strip. rewrite strip_with_blank, chars_str, forallb_app, Hb.
  cbn [andb negb map].
  rewrite (proj2 (rstrip_lf_body _ Hl)), str_chars. reflexivity.
Qed.

Lemma gitignore_lines_final (p : string) :
  forallb isspace (chars p) = false -> ~ In "010"%char (chars p) ->
  gitignore_lines p = [p].
Proof.
  intros Hb Hl. unfold gitignore_lines.
  rewrite file_lines_last by assumption. cbn [rev app].
  destruct (chars p) as [|c l] eqn:E; [discriminate Hb|].
  cbn iota. rewrite <- E in Hb, Hl |- *. cbn [filter].
  unfold strip. rewrite strip_with_blank, chars_str, Hb. cbn [negb map].
  rewrite (proj1 (rstrip_lf_body _ Hl)), str_chars. reflexivity.
Qed.

Lemma pattern_line_head (p rest : string) :
  pattern_line p ->
  match p ++ rest with
  | String c _ => c <> "010"%char /\ c <> "013"%char
  | EmptyString => True
  end.
Proof.
  intros [Hb [Hl [Hc _]]]. destruct p as [|c p]; [discriminate Hb|].
  cbn [String.append].
  split; intros ->; [apply Hl | apply Hc]; now left.
Qed.

(** X6: Patterns of ASCII text written to an ignore file, one to a
    line, are read back as they were written, in order: each line may
    end in LF, CRLF or CR, and the last may have no line ending.  Whatever the file
    holds, no pattern read from it is blank or contains a line feed. *)
Theorem ignore_file_round_trip :
  (forall (ls : list (string * string)) (final : option string),
     Forall (fun pe => pattern_line (fst pe) /\ In (snd pe) line_endings) ls ->
     match final with Some p => pattern_line p | None => True end ->
     gitignore_lines (universal_newlines (ignore_file_text ls final))
     = (map fst ls ++ match final with Some p => [p] | None => [] end)%list)
  /\ (forall content q,
        In q (gitignore_lines content) ->
        forallb isspace (chars q) = false /\ ~ In "010"%char (chars q)).
Proof.
  split.
  - intros ls final Hls Hf. induction Hls as [|[p e] ls [Hp He] Hls IH].
    + cbn [ignore_file_text fold_right map app].
      destruct final as [p|]; [|reflexivity].
      destruct Hf as [Hb [Hl [Hc _]]].
      rewrite <- (append_nil_r p) at 1.
      rewrite universal_newlines_body by assumption.
      cbn [universal_newlines]. rewrite append_nil_r.
      now apply gitignore_lines_final.
    + cbn [ignore_file_text fold_right map app fst snd].
      fold (ignore_file_text ls final). cbn [fst snd] in Hp, He.
      pose proof Hp as [Hb [Hl [Hc _]]].
      rewrite universal_newlines_body by assumption.
      rewrite universal_newlines_eol; [| exact He |].
      * rewrite gitignore_lines_cons by assumption. now rewrite IH.
      * unfold ignore_file_text. destruct ls as [|[p' e'] ls'].
        -- cbn [fold_right]. destruct final as [p'|]; [|exact I].
           rewrite <- (append_nil_r p'). now apply pattern_line_head.
        -- cbn [fold_right fst snd]. apply pattern_line_head.
           now inversion Hls as [|? ? [? _] _].
  - intros content q Hq. unfold gitignore_lines in Hq.
    apply in_map_iff in Hq as [line [<- Hline]].
    apply filter_In in Hline as [Hin Hnb].
    pose proof (file_lines_shape content [] (fun H => H)) as Hs.
    rewrite Forall_forall in Hs.
    destruct (Hs _ Hin) as [body [Hb Hshape]].
    unfold strip in Hnb. rewrite strip_with_blank in Hnb.
    apply negb_true_iff in Hnb.
    destruct Hshape as [->| ->].
    + rewrite (proj1 (rstrip_lf_body _ Hb)). rewrite chars_str in *. now split.
    + rewrite (proj2 (rstrip_lf_body _ Hb)). rewrite chars_str in *.
      rewrite forallb_app in Hnb. cbn [forallb] in Hnb.
      split; [|exact Hb]. destruct (forallb isspace body); [|reflexivity].
      exact Hnb.
Qed.

Lemma ignore_file_round_trip_witness :
  Forall (fun pe => pattern_line (fst pe) /\ In (snd pe) line_endings)
         [("*.log", nl); ("build/", String "013" nl)]
  /\ pattern_line "!keep.log"
  /\ gitignore_lines
       (universal_newlines
          (ignore_file_text [("*.log", nl); ("build/", String "013" nl)]
                            (Some "!keep.log")))
     = ["*.log"; "build/"; "!keep.log"].
Proof.
  assert (forall p, forallb isspace (chars p) = false ->
                    forallb (fun c => negb (Ascii.eqb c "010")
                                      && negb (Ascii.eqb c "013")) (chars p)
                    = true -> ascii_text p = true -> pattern_line p) as Hok.
  { intros p Hb Hf Ha. rewrite forallb_forall in Hf. split; [exact Hb|].
    split; [|split; [|exact Ha]];
      intros Hin; apply Hf in Hin; rewrite Ascii.eqb_refl in Hin;
      cbn [negb andb] in Hin; rewrite ?andb_false_r in Hin;
      discriminate Hin. }
  assert (Forall (fun pe => pattern_line (fst pe) /\ In (snd pe) line_endings)
                 [("*.log", nl); ("build/", String "013" nl)]) as H1.
  { constructor; [split; [apply Hok; reflexivity | now left]|].
    constructor; [split; [apply Hok; reflexivity | right; now left]|].
    constructor. }
  assert (pattern_line "!keep.log") as H2 by (apply Hok; reflexivity).
  split; [exact H1|]. split; [exact H2|].
  exact (proj1 ignore_file_round_trip
               [("*.log", nl); ("build/", String "013" nl)]
               (Some "!keep.log") H1 H2).
Defined.

(* ================================================================== *)
(** * Language tags                                                    *)
(* ================================================================== *)

Lemma rfind_dot_app (a b : list ascii) (i : nat) (best : option nat) :
  rfind_dot (a ++ b) i best
  = rfind_dot b (i + List.length a) (rfind_dot a i best).
Proof.
  revert i best. induction a as [|c a IH]; intros i best.
  - cbn [app rfind_dot List.length]. now rewrite Nat.add_0_r.
  - cbn [app rfind_dot List.length]. rewrite IH. f_equal. lia.
Qed.

Lemma rfind_dot_none (l : list ascii) (i : nat) (best : option nat) :
  ~ In "."%char l -> rfind_dot l i best = best.
Proof.
  revert i best. induction l as [|c l IH]; intros i best H; [reflexivity|].
  cbn [rfind_dot]. rewrite IH by (intros Hin; apply H; now right).
  destruct (Ascii.eqb_spec c "."); [exfalso; apply H; now left | reflexivity].
Qed.

Lemma rfind_dot_last (a b : list ascii) :
  ~ In "."%char b ->
  rfind_dot (a ++ "."%char :: b) 0 None = Some (List.length a).
Proof.
  intros H. rewrite rfind_dot_app. cbn [rfind_dot].
  rewrite Ascii.eqb_refl. now rewrite rfind_dot_none.
Qed.

Lemma lower_char_dot (c : ascii) : lower_char c = "."%char -> c = "."%char.
Proof.
  destruct c as [[] [] [] [] [] [] [] []]; vm_compute; intros H;
    first [reflexivity | discriminate H].
Qed.

Lemma lower_no_dot (s : string) :
  ~ In "."%char (chars s) -> ~ In "."%char (chars (lower s)).
Proof.
  induction s as [|c s IH]; intros H; [exact H|].
  cbn [lower chars list_ascii_of_string] in *. intros [E|Hin].
  - apply H. left. now apply lower_char_dot.
  - apply IH; [|exact Hin]. intros Hs. apply H. now right.
Qed.

Lemma suffix_of_name (p : Path) (stem ext : string) :
  name p = stem ++ "." ++ ext -> ~ In "."%char (chars ext) ->
  suffix p = if String.eqb stem "" || String.eqb ext "" then ""
             else "." ++ ext.
Proof.
  intros Hn He. unfold suffix. rewrite Hn, !chars_app.
  change (chars ".") with ["."%char]. cbn [app].
  rewrite rfind_dot_last by assumption.
  rewrite length_app. cbn [List.length].
  assert (forall s, s <> "" -> (0 < List.length (chars s))%nat) as Hlen
      by (intros [|x s] Hx; [contradiction | cbn; lia]).
  destruct (String.eqb_spec stem "") as [->|Hs]; [reflexivity|].
  apply Hlen in Hs.
  destruct (String.eqb_spec ext "") as [->|Hx]; cbn [orb].
  - cbn [chars list_ascii_of_string List.length].
    rewrite (proj2 (Nat.ltb_ge (List.length (chars stem)) _)) by lia.
    now rewrite andb_false_r.
  - apply Hlen in Hx.
    rewrite (proj2 (Nat.ltb_lt 0 _)) by lia.
    rewrite (proj2 (Nat.ltb_lt (List.length (chars stem)) _)) by lia.
    cbn [andb]. rewrite skipn_app, skipn_all, Nat.sub_diag.
    cbn [skipn app]. change ("."%char :: chars ext) with (chars ("." ++ ext)).
    now rewrite str_chars.
Qed.

Lemma lang_of_ext (p : Path) (ext : string) :
  suffix p = "." ++ ext -> ~ In "."%char (chars ext) ->
  guess_lang_from_suffix p
  = match find (fun kv => String.eqb (fst kv) (lower ext)) lang_mapping with
    | Some kv => snd kv
    | None => ""
    end.
Proof.
  intros Hs He. unfold guess_lang_from_suffix. rewrite Hs.
  cbn [String.append lower]. unfold lstrip_with.
  cbn [chars list_ascii_of_string dropwhile].
  change (lower_char ".") with "."%char. rewrite Ascii.eqb_refl.
  apply lower_no_dot in He.
  assert (dropwhile (Ascii.eqb ".") (list_ascii_of_string (lower ext))
          = chars (lower ext)) as ->.
  { unfold chars in *. destruct (list_ascii_of_string (lower ext)) as [|c l];
      [reflexivity|].
    apply dropwhile_head. apply Ascii.eqb_neq. intros <-. apply He. now left. }
  now rewrite str_chars.
Qed.

(** X7: Language tags.  For a name [stem.ext], with a stem and an
    extension of ASCII text that is not empty, the tag is the table's entry for the
    extension in lower case (only the last extension counts, the stem
    may hold dots), and nothing when the table has none; a name without
    dot, a name whose only dot is the first character, and a name that
    ends with a dot have no tag. *)
Theorem language_tag (p : Path) :
  (forall stem ext,
     name p = stem ++ "." ++ ext -> stem <> "" -> ext <> "" ->
     ~ In "."%char (chars ext) -> ascii_text ext = true ->
     guess_lang_from_suffix p
     = match find (fun kv => String.eqb (fst kv) (lower ext)) lang_mapping with
       | Some kv => snd kv
       | None => ""
       end)
  /\ (~ In "."%char (chars (name p))
      \/ (exists ext, name p = "." ++ ext /\ ~ In "."%char (chars ext))
      \/ (exists stem, name p = stem ++ ".") ->
      guess_lang_from_suffix p = "").
Proof.
  split.
  - intros stem ext Hn Hs He Hd _. apply lang_of_ext; [|exact Hd].
    rewrite (suffix_of_name p stem ext Hn Hd).
    apply String.eqb_neq in Hs, He. now rewrite Hs, He.
  - intros H.
    assert (suffix p = "") as Hs.
    { destruct H as [H|[[ext [Hn He]]|[stem Hn]]].
      - unfold suffix. now rewrite rfind_dot_none.
      - now rewrite (suffix_of_name p "" ext Hn He).
      - rewrite (suffix_of_name p stem "");
          [now rewrite orb_true_r | exact Hn | intros []]. }
    unfold guess_lang_from_suffix. rewrite Hs. reflexivity.
Qed.

Lemma language_tag_witness :
  name (text_file "setup.cfg.PY" "") = "setup.cfg" ++ "." ++ "PY"
  /\ "setup.cfg" <> "" /\ "PY" <> "" /\ ~ In "."%char (chars "PY")
  /\ ascii_text "PY" = true
  /\ guess_lang_from_suffix (text_file "setup.cfg.PY" "") = "python".
Proof.
  assert (name (text_file "setup.cfg.PY" "") = "setup.cfg" ++ "." ++ "PY")
    as H1 by reflexivity.
  assert ("setup.cfg" <> "") as H2 by discriminate.
  assert ("PY" <> "") as H3 by discriminate.
  assert (~ In "."%char (chars "PY")) as H4
      by (intros [H|[H|[]]]; discriminate H).
  assert (ascii_text "PY" = true) as H5 by reflexivity.
  repeat (split; [assumption|]).
  rewrite (proj1 (language_tag (text_file "setup.cfg.PY" ""))
                 "setup.cfg" "PY" H1 H2 H3 H4 H5).
  reflexivity.
Defined.

(* ================================================================== *)
(** * What the document depends on                                     *)
(* ================================================================== *)

Lemma fold_left_prefix (A : Type) (step : string -> A -> string)
    (part : A -> string) (l : list A) :
  (forall buf x, step buf x = buf ++ part x) ->
  forall a b, fold_left step l (a ++ b) = a ++ fold_left step l b.
Proof.
  intros Hstep. induction l as [|x l IH]; intros a b; [reflexivity|].
  cbn [fold_left]. now rewrite !Hstep, append_assoc, IH.
Qed.

(** X8: The document does not depend on the options [output],
    [to_stdout], [relative_paths] and [quiet]: the stitcher built and
    the document are the same whatever their values (so paths are
    printed relative to the root also when [relative_paths] is off).
    The time of the run appears once, in the heading: the documents of
    two runs that differ only in the clock agree before and after it. *)
Theorem delivery_options_unused
    (pathspec : option (list string -> exc (string -> bool)))
    (decode : string -> string -> list byte -> exc string) (clock : string)
    (out : option string) (stdout relative quiet_ : bool) :
  (forall opts,
     __init__ pathspec decode clock (with_delivery opts out stdout relative quiet_)
     = match __init__ pathspec decode clock opts with
       | Ok self =>
           Ok (mkStitcher (with_delivery opts out stdout relative quiet_)
                          (self_root self) (_spec self) (_now self))
       | Raise e => Raise e
       end)
  /\ (forall self,
        build decode
          (mkStitcher (with_delivery (o self) out stdout relative quiet_)
                      (self_root self) (_spec self) (_now self))
        = build decode self)
  /\ (forall self, exists before after,
        forall t,
          build decode (mkStitcher (o self) (self_root self) (_spec self) t)
          = before ++ t ++ after).
Proof.
  split; [|split].
  - intros opts. rewrite !init_cases.
    change (root (with_delivery opts out stdout relative quiet_))
      with (root opts).
    change (root_resolved (with_delivery opts out stdout relative quiet_))
      with (root_resolved opts).
    destruct (target (root opts)); try reflexivity.
    unfold _build_pathspec.
    change (ignore_patterns decode
              (with_delivery opts out stdout relative quiet_) (root opts))
      with (ignore_patterns decode opts (root opts)).
    destruct (ignore_patterns decode opts (root opts)) as [pats|e];
      [|reflexivity].
    cbn [bind]. destruct pathspec as [from_lines|]; [|reflexivity].
    destruct (from_lines pats); reflexivity.
  - intros self. reflexivity.
  - intros self. unfold build.
    change (_iter_files (mkStitcher (o self) (self_root self) (_spec self) ?t))
      with (_iter_files self).
    change (_render_tree (mkStitcher (o self) (self_root self) (_spec self) ?t))
      with (_render_tree self).
    cbn [o _now fmt].
    pose proof (fold_left_prefix _ (fun buf line => write buf (line ++ nl))
                  (fun line => line ++ nl) (_render_tree self)
                  (fun _ _ => eq_refl)) as Htree.
    destruct (String.eqb (fmt (o self)) "txt").
    + pose proof (fold_left_prefix _ (write_file_txt decode self)
                    (write_file_txt decode self "") (_iter_files self)
                    (write_file_txt_append decode self)) as Hfiles.
      exists ("ContextStitch output" ++ nl ++ "Root: "
              ++ root_resolved (o self) ++ nl ++ "Generated: ").
      eexists. intros t. unfold write.
      change ("" ++ ?x) with x.
      rewrite !append_assoc, !Htree, !append_assoc, !Hfiles.
      reflexivity.
    + pose proof (fold_left_prefix _ (write_file_md decode self)
                    (write_file_md decode self "") (_iter_files self)
                    (write_file_md_append decode self)) as Hfiles.
      exists ("# ContextStitch Output" ++ nl ++ nl ++ "- **Root**: `"
              ++ root_resolved (o self) ++ "`" ++ nl ++ "- **Generated**: ").
      eexists. intros t. unfold write.
      change ("" ++ ?x) with x.
      rewrite !append_assoc, !Htree, !append_assoc, !Hfiles.
      reflexivity.
Qed.

Lemma delivery_options_unused_witness :
  build ascii_codec
    (mkStitcher (with_delivery sample_options (Some "out.md") true false true)
                sample_root
                (_MiniSpec DEFAULT_GLOBAL_IGNORES) sample_clock)
  = build ascii_codec
      (mkStitcher sample_options sample_root
                  (_MiniSpec DEFAULT_GLOBAL_IGNORES) sample_clock).
Proof.
  exact (proj1 (proj2 (delivery_options_unused None ascii_codec sample_clock
                         (Some "out.md") true false true))
               (mkStitcher sample_options sample_root
                           (_MiniSpec DEFAULT_GLOBAL_IGNORES) sample_clock)).
Defined.

(* ================================================================== *)
(** * Command line                                                     *)
(* ================================================================== *)

Section CliFacts.

Variable pathspec : option (list string -> exc (string -> bool)).
Variable decode : string -> string -> list byte -> exc string.
Variable clock : string.
Variable version : string.
Variable cwd : string.
Variable time_time : Z.
Variable write_text : string -> string -> exc unit * option string.
Variable stdout_write : string -> exc unit * string.
Variable host_message : exn -> string.

(** The only error of [parse_size]. *)
Lemma parse_size_raises (s : string) (d : Z) (e : exn) :
  parse_size s d = Raise e ->
  e = ValueError "Invalid size value" (lower (strip s)).
Proof.
  unfold parse_size. destruct (String.eqb s ""); [discriminate|].
  destruct (parse_size_body (lower (strip s))); cbn [try_except];
    [discriminate|].
  intros H. now injection H as <-.
Qed.


End CliFacts.





(** X11: Version flag and malformed size.  With the version flag on,
    the run prints the version and ends with status 0 whatever the
    other arguments are.  With it off, a size that does not parse makes
    the error of [parse_size] escape from [main]: nothing is printed,
    also when not quiet, and nothing is written; the error names the
    size stripped and lowered.  A size of white space only is such a
    size, although the empty size stands for the default. *)
Theorem main_version_and_size
    (pathspec : option (list string -> exc (string -> bool)))
    (decode : string -> string -> list byte -> exc string)
    (clock version cwd : string) (time_time : Z)
    (write_text : string -> string -> exc unit * option string)
    (stdout_write : string -> exc unit * string)
    (host_message : exn -> string)
    (args : Namespace) :
  (args_version args = true ->
   main pathspec decode clock version cwd time_time write_text stdout_write
        host_message args
   = (mkStreams (version ++ nl) "" [], Ok 0))
  /\ (args_version args = false ->
      forall e,
        parse_size (args_max_file_size args) (1024 * 1024) = Raise e ->
        main pathspec decode clock version cwd time_time write_text
             stdout_write host_message args
        = (mkStreams "" "" [],
           Raise (ValueError "Invalid size value"
                             (lower (strip (args_max_file_size args))))))
  /\ (forall s d,
        s <> "" -> forallb isspace (chars s) = true ->
        parse_size s d = Raise (ValueError "Invalid size value" "")).
Proof.
  split; [|split].
  - intros Hv. unfold main. rewrite Hv. reflexivity.
  - intros Hv e He. unfold main. rewrite Hv, He.
    now rewrite (parse_size_raises _ _ _ He).
  - intros s d Hs Hb. unfold parse_size.
    apply String.eqb_neq in Hs. rewrite Hs.
    assert (strip s = "") as ->.
    { apply String.eqb_eq. unfold strip. now rewrite strip_with_blank. }
    reflexivity.
Qed.

Lemma main_version_and_size_witness :
  args_version (with_size sample_args "  ") = false
  /\ parse_size (args_max_file_size (with_size sample_args "  ")) (1024 * 1024)
     = Raise (ValueError "Invalid size value" "")
  /\ sample_main (with_size sample_args "  ")
     = (mkStreams "" "" [], Raise (ValueError "Invalid size value" "")).
Proof.
  assert (args_version (with_size sample_args "  ") = false) as H1
      by reflexivity.
  assert (parse_size (args_max_file_size (with_size sample_args "  "))
                     (1024 * 1024)
          = Raise (ValueError "Invalid size value" "")) as H2.
  { apply (proj2 (proj2 (main_version_and_size None ascii_codec sample_clock
                           "0.1.0" "/home/dev" 1700000000
                           (fun _ text => (Ok tt, Some text))
                           (fun text => (Ok tt, text))
                           (fun _ => "") sample_args)));
      [discriminate | reflexivity]. }
  split; [exact H1|]. split; [exact H2|].
  exact (proj1 (proj2 (main_version_and_size None ascii_codec sample_clock
                         "0.1.0" "/home/dev" 1700000000
                         (fun _ text => (Ok tt, Some text))
                         (fun text => (Ok tt, text))
                         (fun _ => "") (with_size sample_args "  ")))
               H1 _ H2).
Defined.

(* ================================================================== *)
(** * The order of the tree                                            *)
(* ================================================================== *)

Lemma ascii_compare_refl (c : ascii) : Ascii.compare c c = Eq.
Proof. unfold Ascii.compare. apply N.compare_refl. Qed.





Section SortedFacts.

Variable T : Type.
Variable le : T -> T -> bool.
Hypothesis le_total : forall a b, le a b = true \/ le b a = true.
Hypothesis le_trans :
  forall a b c, le a b = true -> le b c = true -> le a c = true.






End SortedFacts.





(* ================================================================== *)
(** * The matcher of a host without pathspec                           *)
(* ================================================================== *)

(** A character that stands for itself in a pattern. *)
Lemma translate_from_plain (l : list ascii) :
  forallb (fun c => negb (Ascii.eqb c "*" || Ascii.eqb c "?" || Ascii.eqb c "["))
          l = true ->
  forall fuel prev,
    (List.length l < fuel)%nat ->
    translate_from fuel prev l = map GLit l.
Proof.
  induction l as [|c l IH]; intros H fuel prev Hf.
  - destruct fuel; [cbn in Hf; lia | reflexivity].
  - destruct fuel as [|fuel]; [cbn in Hf; lia|].
    cbn [forallb] in H. apply andb_true_iff in H as [Hc Hl].
    apply negb_true_iff, orb_false_iff in Hc as [Hc H3].
    apply orb_false_iff in Hc as [H1 H2].
    cbn [translate_from map]. rewrite H1, H2, H3. f_equal.
    apply IH; [exact Hl | cbn in Hf; lia].
Qed.

Lemma glob_match_literal (l : list ascii) : glob_match (map GLit l) l = true.
Proof.
  induction l as [|c l IH]; [reflexivity|].
  cbn [map glob_match item_accepts]. now rewrite Ascii.eqb_refl, IH.
Qed.

Lemma glob_match_star (rest : list glob_item) (pre s : list ascii) :
  glob_match rest s = true -> glob_match (GStar :: rest) (pre ++ s) = true.
Proof.
  intros H. induction pre as [|c pre IH].
  - cbn [app glob_match]. destruct s; now rewrite H.
  - cbn [app glob_match] in *. rewrite IH. apply orb_true_r.
Qed.

Lemma length_chars (s : string) : List.length (chars s) = String.length s.
Proof.
  induction s as [|c s IH]; [reflexivity|].
  cbn [chars list_ascii_of_string List.length String.length].
  f_equal. exact IH.
Qed.

Lemma fnmatch_star_suffix (pre ext : string) :
  forallb (fun c => negb (Ascii.eqb c "*" || Ascii.eqb c "?" || Ascii.eqb c "["))
          (chars ext) = true ->
  fnmatch (pre ++ ext) ("*" ++ ext) = true.
Proof.
  intros H. unfold fnmatch, translate.
  cbn [String.append chars list_ascii_of_string String.length].
  change (translate_from (S (S (String.length ext))) false
            ("*"%char :: list_ascii_of_string ext))
    with (GStar :: translate_from (S (String.length ext)) true (chars ext)).
  rewrite translate_from_plain; [|exact H|].
  - rewrite chars_app. apply glob_match_star, glob_match_literal.
  - rewrite length_chars. lia.
Qed.

Lemma rstrip_stars (p : string) :
  forallb (Ascii.eqb "*") (chars p) = true ->
  rstrip_with (Ascii.eqb "*") p = "".
Proof.
  intros H. unfold rstrip_with.
  rewrite dropwhile_nil; [reflexivity | now rewrite forallb_rev].
Qed.

Lemma MiniSpec_In (pats : list string) (p r : string) :
  In p pats ->
  fnmatch r p || startswith r (rstrip_with (Ascii.eqb "*") p) = true ->
  _MiniSpec pats r = true.
Proof.
  intros Hin H. unfold _MiniSpec, os_sep. rewrite replace_char_same.
  apply existsb_exists. now exists p.
Qed.

Lemma MiniSpec_app (a b : list string) (r : string) :
  _MiniSpec (a ++ b) r = _MiniSpec a r || _MiniSpec b r.
Proof. unfold _MiniSpec. apply existsb_app. Qed.

Section AllIgnored.

Variable self : Stitcher.
Hypothesis all_ignored : forall r, _spec self r = true.

Lemma should_skip_all (p : Path) (r : string) : _should_skip self p r = true.
Proof.
  unfold _should_skip, _is_ignored. rewrite all_ignored.
  now destruct (negb (include_hidden (o self)) && is_hidden r).
Qed.

Lemma nothing_collected : _iter_files self = [].
Proof.
  unfold _iter_files.
  destruct (os_walk _ _ _ _ _) as [|[f r] l] eqn:E; [reflexivity|].
  exfalso.
  destruct (iter_files_pass self (self_root self) "" f r) as [_ H];
    [rewrite E; now left|].
  now rewrite should_skip_all in H.
Qed.

Lemma nothing_drawn : _render_tree self = [name (self_root self) ++ "/"].
Proof.
  unfold _render_tree. f_equal.
  rewrite <- add_dir_entries_lines.
  destruct (add_dir_entries self (self_root self) "" "") as [|s l] eqn:E;
    [reflexivity|].
  exfalso.
  pose proof (tree_entries_pass self (self_root self) "" "" s) as H.
  rewrite should_skip_all in H. discriminate H. rewrite E. now left.
Qed.

End AllIgnored.

(** X13: The matcher of a host without [pathspec].  A path is ignored
    as soon as one pattern matches it, so adding patterns, before or
    after, never brings a path back.  A pattern [*ext], [ext] free of
    wildcards, matches every path that ends with [ext], at any depth.
    A pattern made of stars only, the empty pattern among them, matches
    every path: a stitcher with such a pattern collects no file and
    draws the root line alone. *)
Theorem fallback_matcher (pats : list string) :
  (forall before after r,
     _MiniSpec pats r = true ->
     _MiniSpec (before ++ pats ++ after) r = true)
  /\ (forall ext pre,
        In ("*" ++ ext) pats ->
        forallb (fun c => negb (Ascii.eqb c "*" || Ascii.eqb c "?"
                                || Ascii.eqb c "[")) (chars ext) = true ->
        _MiniSpec pats (pre ++ ext) = true)
  /\ (forall p,
        In p pats -> forallb (Ascii.eqb "*") (chars p) = true ->
        (forall r, _MiniSpec pats r = true)
        /\ forall self,
             _spec self = _MiniSpec pats ->
             _iter_files self = []
             /\ _render_tree self = [name (self_root self) ++ "/"]).
Proof.
  split; [|split].
  - intros before after r H. rewrite !MiniSpec_app, H.
    now rewrite orb_true_r.
  - intros ext pre Hin Hext. apply (MiniSpec_In _ _ _ Hin).
    now rewrite fnmatch_star_suffix.
  - intros p Hin Hp.
    assert (forall r, _MiniSpec pats r = true) as Hall.
    { intros r. apply (MiniSpec_In _ _ _ Hin).
      rewrite (rstrip_stars _ Hp).
      replace (startswith r "") with true by (now destruct r).
      apply orb_true_r. }
    split; [exact Hall|]. intros self Hs.
    assert (forall r, _spec self r = true) as Hr
        by (intros r; now rewrite Hs).
    split; [now apply nothing_collected | now apply nothing_drawn].
Qed.

Lemma fallback_matcher_witness :
  In "" (DEFAULT_GLOBAL_IGNORES ++ [""])
  /\ forallb (Ascii.eqb "*") (chars "") = true
  /\ _iter_files (sample_stitcher (with_extra_ignores sample_options [""])) = [].
Proof.
  assert (In "" (DEFAULT_GLOBAL_IGNORES ++ [""])) as H1
      by (apply in_or_app; right; now left).
  assert (forallb (Ascii.eqb "*") (chars "") = true) as H2 by reflexivity.
  split; [exact H1|]. split; [exact H2|].
  exact (proj1 (proj2 (proj2 (proj2 (fallback_matcher
                                       (DEFAULT_GLOBAL_IGNORES ++ [""])))
                             "" H1 H2)
                      (sample_stitcher (with_extra_ignores sample_options [""]))
                      eq_refl)).
Defined.

(* ================================================================== *)
(** * The sample of the binary detector                                *)
(* ================================================================== *)

Lemma firstn_head (head rest : list byte) :
  List.length head = 2048%nat -> firstn 2048 (head ++ rest) = head.
Proof.
  intros H. rewrite firstn_app.
  rewrite (firstn_all2 (n := 2048) head) by lia.
  replace (2048 - List.length head)%nat with 0%nat by lia.
  apply app_nil_r.
Qed.

Lemma text_sample (chunk : list byte) :
  forallb text_chars chunk = true ->
  existsb (fun b => byte_value b =? 0) chunk = false
  /\ nontext_of chunk = [].
Proof.
  induction chunk as [|b chunk IH]; [now split|].
  cbn [forallb]. intros H. apply andb_true_iff in H as [Hb Hc].
  destruct (IH Hc) as [H1 H2]. unfold nontext_of in *.
  cbn [existsb filter]. rewrite H1, H2, Hb. cbn [negb]. split; [|reflexivity].
  rewrite orb_false_r. apply Z.eqb_neq. intros E.
  apply text_chars_spec in Hb. rewrite E in Hb. cbn [In] in Hb. lia.
Qed.

(** X14: The sample of the binary detector.  Of a file of more than
    2048 bytes only the first 2048 are looked at: what follows them
    changes nothing to the verdict.  When these are all text bytes, the
    file is text, whatever follows, and the text read from it is
    handed on whole. *)
Theorem detector_sample
    (decode : string -> string -> list byte -> exc string) (self : Stitcher)
    (n : string) (l : bool) (head rest : list byte) :
  List.length head = 2048%nat ->
  (forall rest',
     is_probably_binary (mkPath n l (Reg true (head ++ rest)%list)) default_read_bytes
     = is_probably_binary (mkPath n l (Reg true (head ++ rest')%list))
                          default_read_bytes)
  /\ (forallb text_chars head = true ->
      is_probably_binary (mkPath n l (Reg true (head ++ rest)%list))
                         default_read_bytes = false
      /\ forall content,
           read_text decode (mkPath n l (Reg true (head ++ rest)%list))
                     (encoding (o self)) "replace" = Ok content ->
           _read_text decode self (mkPath n l (Reg true (head ++ rest)%list))
           = Some content).
Proof.
  intros Hlen. split.
  - intros rest'. now rewrite !is_probably_binary_readable, !firstn_head.
  - intros Ht.
    assert (is_probably_binary (mkPath n l (Reg true (head ++ rest)%list))
                               default_read_bytes = false) as Hb.
    { rewrite is_probably_binary_readable, firstn_head by assumption.
      destruct (text_sample head Ht) as [-> ->]. cbn [orb].
      apply Z.ltb_ge. unfold len. cbn [List.length]. lia. }
    split; [exact Hb|]. intros content Hc.
    unfold _read_text. cbn [stat target bind st_mode S_ISREG].
    rewrite Hb. now rewrite Hc.
Qed.

Lemma detector_sample_witness :
  List.length (repeat x61 2048) = 2048%nat
  /\ forallb text_chars (repeat x61 2048) = true
  /\ is_probably_binary
       (mkPath "big.txt" false (Reg true (repeat x61 2048 ++ repeat x00 4096)%list))
       default_read_bytes = false.
Proof.
  assert (List.length (repeat x61 2048) = 2048%nat) as H1
      by apply repeat_length.
  assert (forallb text_chars (repeat x61 2048) = true) as H2.
  { apply forallb_forall. intros b Hb. apply repeat_spec in Hb. now subst b. }
  split; [exact H1|]. split; [exact H2|].
  exact (proj1 (proj2 (detector_sample ascii_codec
                         (sample_stitcher sample_options) "big.txt" false
                         (repeat x61 2048) (repeat x00 4096) H1) H2)).
Defined.

Lemma glob_match_literal_eq (l s : list ascii) :
  glob_match (map GLit l) s = true -> s = l.
Proof.
  revert s. induction l as [|d l IH]; intros [|c s]; cbn [map glob_match];
    try reflexivity; try discriminate.
  cbn [item_accepts]. intros H. apply andb_true_iff in H as [Hc Hs].
  apply Ascii.eqb_eq in Hc. subst c. f_equal. now apply IH.
Qed.

Lemma rstrip_with_none (f : ascii -> bool) (s : string) :
  forallb (fun c => negb (f c)) (chars s) = true -> rstrip_with f s = s.
Proof.
  intros H. unfold rstrip_with.
  rewrite <- forallb_rev in H.
  destruct (rev (chars s)) as [|c r] eqn:E.
  - cbn [dropwhile rev]. rewrite <- (str_chars s).
    rewrite <- (rev_involutive (chars s)), E. reflexivity.
  - cbn [forallb] in H. apply andb_true_iff in H as [Hc _].
    apply negb_true_iff in Hc. rewrite dropwhile_head by exact Hc.
    rewrite <- E, rev_involutive. apply str_chars.
Qed.

Lemma startswith_refl (s : string) : startswith s s = true.
Proof.
  induction s as [|c s IH]; [reflexivity|].
  cbn [startswith]. now rewrite Ascii.eqb_refl.
Qed.

Lemma plain_pattern_match (p r : string) :
  plain_pattern p = true ->
  fnmatch r p || startswith r (rstrip_with (Ascii.eqb "*") p)
  = startswith r p.
Proof.
  intros Hp. unfold plain_pattern in Hp.
  rewrite rstrip_with_none.
  - destruct (fnmatch r p) eqn:Hm; [|reflexivity]. cbn [orb].
    unfold fnmatch, translate in Hm.
    rewrite translate_from_plain in Hm by (try exact Hp; rewrite length_chars; lia).
    apply glob_match_literal_eq in Hm.
    rewrite <- (str_chars r), Hm, str_chars. symmetry. apply startswith_refl.
  - rewrite forallb_forall in *. intros c Hc. specialize (Hp c Hc).
    apply negb_true_iff in Hp. apply orb_false_iff in Hp as [Hp _].
    apply orb_false_iff in Hp as [Hp _].
    rewrite Ascii.eqb_sym. now rewrite Hp.
Qed.

(** X15: Patterns without wildcard on a host without [pathspec].  Such
    a pattern ignores exactly the paths that begin with it: a path is
    ignored, all patterns being plain, when and only when one of them is
    a prefix of it.  So a plain pattern reaches nothing below the root
    unless the path to it is spelled out, and reaches every path at the
    root that merely starts with it. *)
Theorem plain_patterns_are_prefixes (pats : list string) :
  forallb plain_pattern pats = true ->
  (forall r, _MiniSpec pats r = existsb (startswith r) pats)
  /\ (forall r, _MiniSpec pats r = true <->
                exists p rest, In p pats /\ r = p ++ rest).
Proof.
  intros Hp.
  assert (forall r, _MiniSpec pats r = existsb (startswith r) pats) as H.
  { intros r. unfold _MiniSpec, os_sep. rewrite replace_char_same.
    induction pats as [|p pats IH]; [reflexivity|].
    cbn [forallb] in Hp. apply andb_true_iff in Hp as [H1 H2].
    cbn [existsb]. rewrite (plain_pattern_match p r H1). f_equal.
    now apply IH. }
  split; [exact H|]. intros r. rewrite H, existsb_exists. split.
  - intros [p [Hin Hs]]. exists p.
    assert (forall a b, startswith a b = true -> exists rest, a = b ++ rest)
      as Hpre.
    { intros a b. revert a. induction b as [|y b IHb]; intros a Hab.
      - now exists a.
      - destruct a as [|x a]; [discriminate Hab|]. cbn [startswith] in Hab.
        apply andb_true_iff in Hab as [Hxy Hab].
        apply Ascii.eqb_eq in Hxy. subst y.
        destruct (IHb a Hab) as [rest ->]. now exists rest. }
    destruct (Hpre r p Hs) as [rest ->]. now exists rest.
  - intros [p [rest [Hin ->]]]. exists p. split; [exact Hin|].
    apply startswith_app.
Qed.

Lemma plain_patterns_are_prefixes_witness :
  forallb plain_pattern ["Thumbs.db"; "build/"] = true
  /\ _MiniSpec ["Thumbs.db"; "build/"] "src/Thumbs.db" = false
  /\ _MiniSpec ["Thumbs.db"; "build/"] "Thumbs.db.bak" = true.
Proof.
  assert (forallb plain_pattern ["Thumbs.db"; "build/"] = true) as H
      by reflexivity.
  split; [exact H|].
  rewrite !(proj1 (plain_patterns_are_prefixes ["Thumbs.db"; "build/"] H)).
  split; reflexivity.
Defined.

(** ** The built-in patterns *)

Lemma startswith_iff (a b : string) :
  startswith a b = true <-> exists rest, a = b ++ rest.
Proof.
  split.
  - revert a. induction b as [|y b IHb]; intros a Hab.
    + now exists a.
    + destruct a as [|x a]; [discriminate Hab|]. cbn [startswith] in Hab.
      apply andb_true_iff in Hab as [Hxy Hab].
      apply Ascii.eqb_eq in Hxy. subst y.
      destruct (IHb a Hab) as [rest ->]. now exists rest.
  - intros [rest ->]. apply startswith_app.
Qed.

Lemma endswith_iff (s p : string) :
  endswith s p = true <-> exists pre, s = pre ++ p.
Proof.
  unfold endswith. rewrite startswith_iff. split.
  - intros [rest E]. exists (str (rev (chars rest))).
    apply (f_equal chars) in E. rewrite chars_app, !chars_str in E.
    rewrite <- (str_chars s), <- (rev_involutive (chars s)), E.
    rewrite rev_app_distr, rev_involutive, str_app, str_chars. reflexivity.
  - intros [pre ->]. exists (str (rev (chars pre))).
    now rewrite chars_app, rev_app_distr, str_app.
Qed.

Lemma glob_match_star_inv (l s : list ascii) :
  glob_match (GStar :: map GLit l) s = true -> exists pre, s = (pre ++ l)%list.
Proof.
  induction s as [|c s IH]; cbn [glob_match]; intros H.
  - rewrite orb_false_r in H. apply glob_match_literal_eq in H.
    exists []. exact H.
  - apply orb_true_iff in H as [H|H].
    + apply glob_match_literal_eq in H. exists []. exact H.
    + destruct (IH H) as [pre ->]. now exists (c :: pre).
Qed.

(** A star and a text without wildcard: the paths that end with it. *)
Lemma fnmatch_star_ends (r ext : string) :
  plain_pattern ext = true -> fnmatch r ("*" ++ ext) = endswith r ext.
Proof.
  intros H. apply eq_true_iff_eq. rewrite endswith_iff. split.
  - unfold fnmatch, translate.
    cbn [String.append chars list_ascii_of_string String.length].
    change (translate_from (S (S (String.length ext))) false
              ("*"%char :: list_ascii_of_string ext))
      with (GStar :: translate_from (S (String.length ext)) true (chars ext)).
    rewrite translate_from_plain by (try exact H; rewrite length_chars; lia).
    intros Hm. apply glob_match_star_inv in Hm as [pre E].
    exists (str pre). rewrite <- (str_chars r), E, str_app, str_chars.
    reflexivity.
  - intros [pre ->]. now apply fnmatch_star_suffix.
Qed.

(** What the built-in patterns match on a host without [pathspec]: the
    paths that begin with one of them, and those that end with [.exe],
    [.dll] or [.bin]. *)
Lemma builtin_fallback (r : string) :
  _MiniSpec DEFAULT_GLOBAL_IGNORES r
  = existsb (startswith r) DEFAULT_GLOBAL_IGNORES
    || existsb (endswith r) [".exe"; ".dll"; ".bin"].
Proof.
  unfold _MiniSpec, os_sep, DEFAULT_GLOBAL_IGNORES.
  rewrite replace_char_same. cbn [existsb].
  rewrite !plain_pattern_match by reflexivity.
  change (rstrip_with (Ascii.eqb "*") "*.exe") with "*.exe".
  change (rstrip_with (Ascii.eqb "*") "*.dll") with "*.dll".
  change (rstrip_with (Ascii.eqb "*") "*.bin") with "*.bin".
  change "*.exe" with ("*" ++ ".exe"). change "*.dll" with ("*" ++ ".dll").
  change "*.bin" with ("*" ++ ".bin").
  rewrite (fnmatch_star_ends r ".exe"), (fnmatch_star_ends r ".dll"),
          (fnmatch_star_ends r ".bin") by reflexivity.
  cbn [String.append].
  generalize (startswith r ".git/") (startswith r ".svn/")
             (startswith r ".hg/") (startswith r ".DS_Store")
             (startswith r "Thumbs.db") (startswith r ".idea/")
             (startswith r ".vscode/") (startswith r "*.exe")
             (startswith r "*.dll") (startswith r "*.bin")
             (endswith r ".exe") (endswith r ".dll") (endswith r ".bin").
  intros. btauto.
Qed.

(** C9 (as amended): In every run, whatever the gitignore, preset and
    extra-ignore settings, the built-in patterns are the first patterns
    of the list handed to the matcher.  An entry whose tested path the
    compiled matcher matches is in neither the collected files nor the
    rendered tree.  On a host without [pathspec] the matcher matches
    every path one of the built-in patterns matches in the sense of that
    matcher, which is not the sense of an ignore file: the paths that
    begin with one of the ten patterns, and those that end with [.exe],
    [.dll] or [.bin]; [src/Thumbs.db] and the directory [data.bin/] are
    none of these. *)
Theorem builtin_ignores_lead
    (pathspec : option (list string -> exc (string -> bool)))
    (decode : string -> string -> list byte -> exc string) (clock : string)
    (opts : StitchOptions) (self : Stitcher) :
  __init__ pathspec decode clock opts = Ok self ->
  (exists rest,
     ignore_patterns decode opts (root opts)
     = Ok (DEFAULT_GLOBAL_IGNORES ++ rest)%list)
  /\ (forall f r, _spec self r = true -> ~ In (f, r) (_iter_files self))
  /\ (forall s, In s (tree_entries self) -> _spec self (shown_test_rel s) = false)
  /\ map shown_line (tree_entries self) = tl (_render_tree self)
  /\ (pathspec = None ->
      (forall r,
         existsb (startswith r) DEFAULT_GLOBAL_IGNORES
         || existsb (endswith r) [".exe"; ".dll"; ".bin"] = true ->
         _spec self r = true)
      /\ (forall r,
            _MiniSpec DEFAULT_GLOBAL_IGNORES r
            = existsb (startswith r) DEFAULT_GLOBAL_IGNORES
              || existsb (endswith r) [".exe"; ".dll"; ".bin"])
      /\ _MiniSpec DEFAULT_GLOBAL_IGNORES "src/Thumbs.db" = false
      /\ _MiniSpec DEFAULT_GLOBAL_IGNORES "data.bin/" = false).
Proof.
  intros Hinit.
  destruct (init_inv _ _ _ _ _ Hinit) as [pats [spec [Hp [Hs [Hself Hd]]]]].
  destruct (ignore_patterns_lead _ _ _ _ Hp) as [rest ->].
  assert (forall p r, _should_skip self p r = false -> _spec self r = false)
    as Hskip.
  { intros p r. unfold _should_skip, _is_ignored.
    destruct (negb (include_hidden (o self)) && is_hidden r); [discriminate|].
    destruct (_spec self r); [discriminate | reflexivity]. }
  split; [now exists rest|]. split; [|split; [|split]].
  - intros f r Hm Hin. apply iter_files_pass in Hin as [_ Hin].
    apply Hskip in Hin. congruence.
  - intros s Hin. apply tree_entries_pass in Hin. now apply Hskip in Hin.
  - apply add_dir_entries_lines.
  - intros ->. split; [|split; [exact builtin_fallback|split; reflexivity]].
    intros r Hm. subst spec self. cbn [_spec].
    rewrite MiniSpec_app, builtin_fallback, Hm. reflexivity.
Qed.

Lemma builtin_ignores_lead_witness :
  __init__ None ascii_codec sample_clock sample_options
  = Ok (sample_stitcher sample_options)
  /\ (forall f, ~ In (f, "bin/tool.exe")
                   (_iter_files (sample_stitcher sample_options)))
  /\ forall s, In s (tree_entries (sample_stitcher sample_options)) ->
               _spec (sample_stitcher sample_options) (shown_test_rel s) = false.
Proof.
  assert (__init__ None ascii_codec sample_clock sample_options
          = Ok (sample_stitcher sample_options)) as H
      by (vm_compute; reflexivity).
  split; [exact H|].
  destruct (builtin_ignores_lead None ascii_codec sample_clock sample_options
                                 (sample_stitcher sample_options) H)
    as [_ [Hfiles [Htree [_ Hfallback]]]].
  split; [|exact Htree].
  intros f. apply Hfiles.
  apply (proj1 (Hfallback eq_refl) "bin/tool.exe"). reflexivity.
Defined.

(** C9, as first stated, fails: on a host with [pathspec], a later
    pattern can take back what a built-in pattern ignores.  With the
    extra pattern [!*.bin], the file [binary.bin], which the built-in
    [*.bin] matches, is both collected and rendered. *)
Lemma builtin_ignores_overridden :
  exists self m,
    __init__ (Some gitwildmatch_basic) ascii_codec sample_clock
             (with_extra_ignores test_options ["!*.bin"]) = Ok self
    /\ gitwildmatch_basic DEFAULT_GLOBAL_IGNORES = Ok m
    /\ m "binary.bin" = true
    /\ In (binary_bin, "binary.bin") (_iter_files self)
    /\ In (binary_bin, "binary.bin") (tree_leaves self).
Proof.
  eexists. eexists.
  split; [vm_compute; reflexivity|].
  split; [reflexivity|].
  split; [vm_compute; reflexivity|].
  split; vm_compute; tauto.
Qed.

(* ================================================================== *)
(** * Relative paths of the collected files                            *)
(* ================================================================== *)

Lemma string_app_inv_head (a b c : string) : a ++ b = a ++ c -> b = c.
Proof.
  induction a as [|x a IH]; cbn [String.append]; intros H; [exact H|].
  injection H as H. now apply IH.
Qed.

(** A name, then nothing or a slash and more: the name is determined. *)
Lemma name_tail_inj (n1 n2 t1 t2 : string) :
  ~ In "/"%char (chars n1) -> ~ In "/"%char (chars n2) ->
  (t1 = "" \/ exists t, t1 = "/" ++ t) ->
  (t2 = "" \/ exists t, t2 = "/" ++ t) ->
  n1 ++ t1 = n2 ++ t2 -> n1 = n2.
Proof.
  revert n2. induction n1 as [|x n1 IH]; intros [|y n2] H1 H2 T1 T2 E;
    cbn [String.append chars list_ascii_of_string] in *.
  - reflexivity.
  - exfalso. destruct T1 as [->|[t ->]]; [discriminate E|].
    cbn [String.append] in E. injection E as <- _. apply H2. now left.
  - exfalso. destruct T2 as [->|[t ->]]; [discriminate E|].
    cbn [String.append] in E. injection E as -> _. apply H1. now left.
  - injection E as <- E. f_equal.
    apply (IH n2); auto; intros Hin; [apply H1 | apply H2]; now right.
Qed.

Lemma no_repeat_cons (x : string) (l : list string) :
  no_repeat (x :: l) = true -> ~ In x l /\ no_repeat l = true.
Proof.
  cbn [no_repeat]. intros H. apply andb_true_iff in H as [H1 H2].
  split; [|exact H2]. intros Hin. apply negb_true_iff in H1.
  assert (existsb (String.eqb x) l = true) as E
      by (apply existsb_exists; exists x; split;
          [exact Hin | apply String.eqb_refl]).
  congruence.
Qed.

Section DistinctPaths.

Variable self : Stitcher.

Lemma visible_files_below (p : Path) :
  forall rel x,
    rel <> "" -> In x (visible_files self p rel) ->
    exists t, snd x = rel ++ "/" ++ t.
Proof.
  induction p as [n l t IH] using Path_nested_ind.
  intros rel x Hrel Hx.
  destruct t as [| | |[] es| |]; try contradiction.
  rewrite visible_files_unfold in Hx.
  apply in_flat_map in Hx as [e [He Hx]].
  rewrite Forall_forall in IH.
  assert (entry_rel rel e = rel ++ "/" ++ name e) as Er.
  { unfold entry_rel. apply String.eqb_neq in Hrel. now rewrite Hrel. }
  destruct (_should_skip self e (test_rel rel e)); [contradiction|].
  destruct (is_dir e).
  - destruct (IH e He (entry_rel rel e) x) as [t Ht]; [|exact Hx|].
    + rewrite Er. intros E. destruct rel; [now apply Hrel | discriminate E].
    + exists (name e ++ "/" ++ t). rewrite Ht, Er.
      now rewrite !append_assoc.
  - destruct Hx as [<-|[]]. exists (name e). exact Er.
Qed.

Lemma below_entry_rel (rel : string) (e : Path) (x : Path * string) :
  valid_name (name e) = true -> In x (below_entry self rel e) ->
  exists tail,
    snd x = (if String.eqb rel "" then "" else rel ++ "/") ++ name e ++ tail
    /\ (tail = "" \/ exists t, tail = "/" ++ t).
Proof.
  intros Hn Hx. unfold below_entry in Hx.
  assert (entry_rel rel e
          = (if String.eqb rel "" then "" else rel ++ "/") ++ name e) as Er.
  { unfold entry_rel. destruct (String.eqb rel ""); [reflexivity|].
    now rewrite append_assoc. }
  destruct (_should_skip self e (test_rel rel e)); [contradiction|].
  destruct (is_dir e).
  - destruct (visible_files_below e (entry_rel rel e) x) as [t Ht];
      [|exact Hx|].
    + rewrite Er. intros E. apply (valid_name_nonempty _ Hn).
      destruct (String.eqb rel ""); [exact E|].
      destruct rel; discriminate E.
    + exists ("/" ++ t). split; [|right; now exists t].
      rewrite Ht, Er. now rewrite !append_assoc.
  - destruct Hx as [<-|[]]. exists "". split; [|now left].
    cbn [snd]. now rewrite Er, append_nil_r.
Qed.

Lemma below_entries_disjoint (rel : string) (e1 e2 : Path)
    (x1 x2 : Path * string) :
  valid_name (name e1) = true -> valid_name (name e2) = true ->
  name e1 <> name e2 ->
  In x1 (below_entry self rel e1) -> In x2 (below_entry self rel e2) ->
  snd x1 <> snd x2.
Proof.
  intros H1 H2 Hne Hx1 Hx2 E.
  destruct (below_entry_rel rel e1 x1 H1 Hx1) as [t1 [E1 T1]].
  destruct (below_entry_rel rel e2 x2 H2 Hx2) as [t2 [E2 T2]].
  rewrite E1, E2 in E. apply string_app_inv_head in E.
  apply Hne.
  apply (name_tail_inj _ _ t1 t2); auto using valid_name_no_slash.
Qed.

Lemma visible_files_distinct (p : Path) :
  forall rel,
    wf_names p = true -> distinct_names p = true ->
    NoDup (map snd (visible_files self p rel)).
Proof.
  induction p as [n l t IH] using Path_nested_ind.
  intros rel Hwf Hd.
  destruct t as [| | |[] es| |]; try constructor.
  rewrite visible_files_unfold. fold (below_entry self rel).
  change (flat_map _ es) with (flat_map (below_entry self rel) es).
  pose proof (wf_names_entries _ _ _ _ Hwf) as Hes. clear Hwf.
  cbn [distinct_names] in Hd. apply andb_true_iff in Hd as [Hnames Hsub].
  rewrite forallb_forall in Hsub. rewrite Forall_forall in IH.
  induction es as [|e es IHes]; [constructor|].
  cbn [flat_map]. rewrite map_app.
  cbn [map] in Hnames. apply no_repeat_cons in Hnames as [Hfresh Hnames].
  apply NoDup_app.
  - unfold below_entry.
    destruct (_should_skip self e (test_rel rel e)); [constructor|].
    destruct (is_dir e).
    + apply IH; [now left | apply Hes; now left | apply Hsub; now left].
    + repeat constructor. intros [].
  - apply IHes; auto; intros; [apply IH | apply Hsub | apply Hes];
      try (now right); auto.
  - intros r Hr1 Hr2.
    apply in_map_iff in Hr1 as [x1 [<- Hx1]].
    apply in_map_iff in Hr2 as [x2 [E Hx2]].
    apply in_flat_map in Hx2 as [e2 [He2 Hx2]].
    apply (below_entries_disjoint rel e e2 x1 x2); auto.
    + apply Hes. now left.
    + apply Hes. now right.
    + intros En. apply Hfresh. rewrite En. now apply in_map.
Qed.

End DistinctPaths.

(** X16: No file twice.  On a tree of file names in which no directory
    holds two entries of the same name, the relative paths of the
    collected files are pairwise distinct: the document has no two
    sections for the same path. *)
Theorem collected_paths_distinct (self : Stitcher) :
  wf_names (self_root self) = true ->
  distinct_names (self_root self) = true ->
  NoDup (map snd (_iter_files self)) /\ NoDup (_iter_files self).
Proof.
  intros Hwf Hd.
  assert (NoDup (map snd (_iter_files self))) as H.
  { apply (Permutation_NoDup
             (l := map snd (visible_files self (self_root self) ""))).
    - apply Permutation_map, Permutation_sym.
      now apply iter_files_visible.
    - now apply visible_files_distinct. }
  split; [exact H|]. now apply NoDup_map_inv in H.
Qed.

Lemma collected_paths_distinct_witness :
  wf_names (self_root (sample_stitcher sample_options)) = true
  /\ distinct_names (self_root (sample_stitcher sample_options)) = true
  /\ NoDup (map snd (_iter_files (sample_stitcher sample_options))).
Proof.
  assert (wf_names (self_root (sample_stitcher sample_options)) = true)
    as H1 by reflexivity.
  assert (distinct_names (self_root (sample_stitcher sample_options)) = true)
    as H2 by reflexivity.
  split; [exact H1|]. split; [exact H2|].
  exact (proj1 (collected_paths_distinct (sample_stitcher sample_options)
                                         H1 H2)).
Defined.
